(** * luamm: the exception-safety bridge between C++ and Lua

    A shallow embedding of [src/luamm.cc].  The file has three layers:

    - [Lua]: the part of the Lua 5.1 C API that luamm.cc calls, as a pure
      model over an explicit interpreter state (value stack, heap of tables,
      userdata and closures, registry);
    - [luamm]: the functions of luamm.cc themselves, written in a small
      monad whose outcomes are normal return, a C++ exception in flight, a
      Lua error (the interpreter's longjmp) and a failed assertion;
    - the properties of the bridge.

    Lua numbers are restricted to integer values: these are the only numbers
    the bridge itself ever creates.  Allocation inside the interpreter is
    assumed to succeed except where an outcome says otherwise; stack
    capacity is explicit. *)

From stdpp Require Import gmap strings list fin_maps pretty.
From Stdlib Require Import ZArith Lia Ascii.

Local Open Scope Z_scope.

(** ** C++ exceptions

    The exception types that cross the bridge.  [exception] is the data of
    [lua::exception]: the message of [std::runtime_error], the owning handle
    [L] (a pointer, compared by address) and the registry key of the captured
    error value.  Its [L_valid] member aliases the liveness flag of the
    owner and is read through the owner. *)

Inductive exception_kind :=
| KException      (* lua::exception *)
| KSyntaxError    (* lua::syntax_error *)
| KFileError      (* lua::file_error *)
| KErrfuncError.  (* lua::errfunc_error *)

Record exception := {
  what : string;
  exc_L : N;
  exc_key : Z
}.

(** Every exception that can be in flight.  [foreign_exception] is an
    exception of a type the bridge does not know: its [typeid], the address
    of the exception object and its payload. *)
Inductive cpp_exception :=
| bad_alloc
| runtime_error (msg : string)
| not_string_error
| lua_exception (k : exception_kind) (e : exception)
| foreign_exception (type : string) (obj : N) (payload : Z).

#[global] Instance exception_kind_eq_dec : EqDecision exception_kind.
Proof. solve_decision. Defined.
#[global] Instance exception_eq_dec : EqDecision exception.
Proof. solve_decision. Defined.
#[global] Instance cpp_exception_eq_dec : EqDecision cpp_exception.
Proof. solve_decision. Defined.

(** [catch(lua::exception &e)] selects exactly these. *)
Definition is_lua_exception (e : cpp_exception) : bool :=
  match e with lua_exception _ _ => true | _ => false end.

(** ** Lua values and heap objects *)

Module Lua.

(** A Lua value as it sits in a stack slot or a table.  Collectable objects
    are referred to by their heap address, so raw equality
    ([luaO_rawequalObj]) is equality of this type. *)
Inductive value :=
| VNil
| VBool (b : bool)
| VLight (p : N)
| VNum (n : Z)
| VStr (s : string)
| VTable (a : N)
| VFun (a : N)
| VUdata (a : N).

#[global] Instance value_eq_dec : EqDecision value.
Proof. solve_decision. Defined.

Definition value_code (v : value) : unit + bool + N + Z + string + N + N + N :=
  match v with
  | VNil => inl (inl (inl (inl (inl (inl (inl tt))))))
  | VBool b => inl (inl (inl (inl (inl (inl (inr b))))))
  | VLight p => inl (inl (inl (inl (inl (inr p)))))
  | VNum n => inl (inl (inl (inl (inr n))))
  | VStr s => inl (inl (inl (inr s)))
  | VTable a => inl (inl (inr a))
  | VFun a => inl (inr a)
  | VUdata a => inr a
  end.

Definition value_decode (c : unit + bool + N + Z + string + N + N + N) : value :=
  match c with
  | inl (inl (inl (inl (inl (inl (inl _)))))) => VNil
  | inl (inl (inl (inl (inl (inl (inr b)))))) => VBool b
  | inl (inl (inl (inl (inl (inr p))))) => VLight p
  | inl (inl (inl (inl (inr n)))) => VNum n
  | inl (inl (inl (inr s))) => VStr s
  | inl (inl (inr a)) => VTable a
  | inl (inr a) => VFun a
  | inr a => VUdata a
  end.

#[global] Instance value_countable : Countable value.
Proof.
  refine (inj_countable' value_code value_decode _).
  intros []; reflexivity.
Defined.

(** The C functions of luamm.cc that are handed to the interpreter, and
    C functions of other origin. *)
Inductive compare_op := lua_equal_op | lua_lessthan_op.
Inductive misc_op := lua_gettable_op | lua_settable_op.
Inductive cpp_type := exception_ptr_t | cpp_function_t.

Inductive cfunction :=
| exception_to_string
| closure_trampoline
| panic_throw
| safe_concat_trampoline
| safe_compare_trampoline (c : compare_op)
| safe_gc_trampoline
| safe_misc_trampoline (m : misc_op) (nresults : Z)
| safe_next_trampoline
| destructor (t : cpp_type)
| foreign_cfunction (id : N).

(** What a full userdata block holds after placement new. *)
Inductive block :=
| BExceptionPtr (e : cpp_exception)   (* std::exception_ptr *)
| BCppFunction (f : N)                (* cpp_function, by its identity *)
| BRaw.

Inductive object :=
| OTable (t : gmap value value) (mt : option N)
| OUdata (b : block) (mt : option N)
| OCClosure (f : cfunction) (up : list value)
| OLClosure (proto : N).

(** One interpreter, seen from the running C frame: [stack] is the frame
    from its base (index 1) to its top, [upvalues] those of the running
    C closure, [limit] is LUAI_MAXCSTACK.  [pcalls] counts the protected
    calls entered so far; it is not part of the interpreter and only
    serves to state that an operation entered none. *)
#[projections(primitive)]
Record lua_State := {
  stack : list value;
  upvalues : list value;
  limit : Z;
  heap : gmap N object;
  next_addr : N;
  l_registry : N;
  l_gt : N;
  type_mt : gmap Z N;
  panic : option cfunction;
  pcalls : nat
}.

Definition set_stack (st : list value) (s : lua_State) : lua_State :=
  {| stack := st; upvalues := upvalues s; limit := limit s; heap := heap s;
     next_addr := next_addr s; l_registry := l_registry s; l_gt := l_gt s;
     type_mt := type_mt s; panic := panic s; pcalls := pcalls s |}.

Definition set_upvalues (up : list value) (s : lua_State) : lua_State :=
  {| stack := stack s; upvalues := up; limit := limit s; heap := heap s;
     next_addr := next_addr s; l_registry := l_registry s; l_gt := l_gt s;
     type_mt := type_mt s; panic := panic s; pcalls := pcalls s |}.

Definition set_heap (h : gmap N object) (s : lua_State) : lua_State :=
  {| stack := stack s; upvalues := upvalues s; limit := limit s; heap := h;
     next_addr := next_addr s; l_registry := l_registry s; l_gt := l_gt s;
     type_mt := type_mt s; panic := panic s; pcalls := pcalls s |}.

Definition set_next_addr (a : N) (s : lua_State) : lua_State :=
  {| stack := stack s; upvalues := upvalues s; limit := limit s; heap := heap s;
     next_addr := a; l_registry := l_registry s; l_gt := l_gt s;
     type_mt := type_mt s; panic := panic s; pcalls := pcalls s |}.

Definition set_type_mt (m : gmap Z N) (s : lua_State) : lua_State :=
  {| stack := stack s; upvalues := upvalues s; limit := limit s; heap := heap s;
     next_addr := next_addr s; l_registry := l_registry s; l_gt := l_gt s;
     type_mt := m; panic := panic s; pcalls := pcalls s |}.

Definition set_panic (f : option cfunction) (s : lua_State) : lua_State :=
  {| stack := stack s; upvalues := upvalues s; limit := limit s; heap := heap s;
     next_addr := next_addr s; l_registry := l_registry s; l_gt := l_gt s;
     type_mt := type_mt s; panic := f; pcalls := pcalls s |}.

Definition set_pcalls (n : nat) (s : lua_State) : lua_State :=
  {| stack := stack s; upvalues := upvalues s; limit := limit s; heap := heap s;
     next_addr := next_addr s; l_registry := l_registry s; l_gt := l_gt s;
     type_mt := type_mt s; panic := panic s; pcalls := n |}.

(** *** Outcomes

    A C or C++ function that works on the interpreter returns normally,
    leaves by a C++ exception, leaves by [lua_error] (a longjmp with the
    error value on top of the stack and a status code), or stops on a failed
    [assert] or an API precondition it broke. *)
Inductive result (A : Type) :=
| Ok (a : A) (s : lua_State)
| Throw (e : cpp_exception) (s : lua_State)
| Error (status : Z) (s : lua_State)
| Abort.
Arguments Ok {A} a s.
Arguments Throw {A} e s.
Arguments Error {A} status s.
Arguments Abort {A}.

Definition M (A : Type) : Type := lua_State -> result A.

Definition ret {A} (a : A) : M A := fun s => Ok a s.

Definition bind {A B} (m : M A) (k : A -> M B) : M B :=
  fun s =>
    match m s with
    | Ok a s' => k a s'
    | Throw e s' => Throw e s'
    | Error st s' => Error st s'
    | Abort => Abort
    end.

Definition throw {A} (e : cpp_exception) : M A := fun s => Throw e s.
Definition abort {A} : M A := fun _ => Abort.
Definition get {A} (f : lua_State -> A) : M A := fun s => Ok (f s) s.
Definition modify (f : lua_State -> lua_State) : M unit := fun s => Ok tt (f s).
Definition assert (b : bool) : M unit := if b then ret tt else abort.

Declare Scope lua_scope.
Delimit Scope lua_scope with lua.
Notation "'let*' x := m 'in' k" := (bind m (fun x => k))
  (at level 10, x name, m at level 100, k at level 200) : lua_scope.
Notation "m ;; k" := (bind m (fun _ => k))
  (at level 100, k at level 200, right associativity) : lua_scope.
Open Scope lua_scope.

(** *** Constants of lua.h and lauxlib.h *)

Definition LUA_REGISTRYINDEX : Z := -10000.
Definition LUA_ENVIRONINDEX : Z := -10001.
Definition LUA_GLOBALSINDEX : Z := -10002.
Definition lua_upvalueindex (i : Z) : Z := LUA_GLOBALSINDEX - i.

Definition LUA_MULTRET : Z := -1.
Definition LUA_ERRRUN : Z := 2.
Definition LUA_ERRSYNTAX : Z := 3.
Definition LUA_ERRMEM : Z := 4.
Definition LUA_ERRERR : Z := 5.
Definition LUA_ERRFILE : Z := 6.

Definition LUA_TNONE : Z := -1.
Definition LUA_REFNIL : Z := -1.
Definition FREELIST_REF : Z := 0.

Definition type_tag (v : value) : Z :=
  match v with
  | VNil => 0 | VBool _ => 1 | VLight _ => 2 | VNum _ => 3
  | VStr _ => 4 | VTable _ => 5 | VFun _ => 6 | VUdata _ => 7
  end.

(** *** Stack addressing

    [stack] lists the frame from its top: the head is index -1.
    [index2adr] is the function of lapi.c: [None] stands for
    [luaO_nilobject], the answer for an acceptable index that holds no
    value.  Index 0 and negative indices below the base break the API
    contract in C; they are given no value here. *)

Definition top (s : lua_State) : Z := Z.of_nat (length (stack s)).

Definition index2adr (s : lua_State) (idx : Z) : option value :=
  if 0 <? idx then
    if idx <=? top s then stack s !! Z.to_nat (top s - idx) else None
  else if LUA_REGISTRYINDEX <? idx then
    if idx =? 0 then None else stack s !! Z.to_nat (- idx - 1)
  else if idx =? LUA_REGISTRYINDEX then Some (VTable (l_registry s))
  else if idx =? LUA_ENVIRONINDEX then Some (VTable (l_gt s))
  else if idx =? LUA_GLOBALSINDEX then Some (VTable (l_gt s))
  else upvalues s !! Z.to_nat (LUA_GLOBALSINDEX - idx - 1).

(** Depth below the top of a valid stack index. *)
Definition stack_slot (s : lua_State) (idx : Z) : option nat :=
  if (0 <? idx) && (idx <=? top s) then Some (Z.to_nat (top s - idx))
  else if (idx <? 0) && (- idx <=? top s) then Some (Z.to_nat (- idx - 1))
  else None.

Definition lua_gettop : M Z := get top.

Definition lua_type (idx : Z) : M Z :=
  get (fun s => match index2adr s idx with Some v => type_tag v | None => LUA_TNONE end).

Definition lua_isnone (idx : Z) : M bool :=
  let* t := lua_type idx in ret (t =? LUA_TNONE).

Definition lua_isnil (idx : Z) : M bool :=
  let* t := lua_type idx in ret (t =? 0).

Definition lua_islightuserdata (idx : Z) : M bool :=
  let* t := lua_type idx in ret (t =? 2).

(** [lua_checkstack]: refuses when the frame would exceed LUAI_MAXCSTACK. *)
Definition lua_checkstack (size : Z) : M bool :=
  get (fun s => negb ((limit s <? size) || (limit s <? top s + size))).

Definition push (v : value) : M unit :=
  modify (fun s => set_stack (v :: stack s) s).

Definition lua_pushnil : M unit := push VNil.
Definition lua_pushboolean (b : bool) : M unit := push (VBool b).
Definition lua_pushinteger (n : Z) : M unit := push (VNum n).
Definition lua_pushstring (k : string) : M unit := push (VStr k).
Definition lua_pushlightuserdata (p : N) : M unit := push (VLight p).

Definition lua_pushvalue (idx : Z) : M unit :=
  fun s => push (default VNil (index2adr s idx)) s.

Definition lua_settop (idx : Z) : M unit :=
  fun s =>
    if 0 <=? idx then
      Ok tt (set_stack (replicate (Z.to_nat (idx - top s)) VNil
                          ++ drop (Z.to_nat (top s - idx)) (stack s)) s)
    else if - (idx + 1) <=? top s then
      Ok tt (set_stack (drop (Z.to_nat (- (idx + 1))) (stack s)) s)
    else Abort.

Definition lua_pop (n : Z) : M unit := lua_settop (- n - 1).

(** [lua_insert]: the top value moves to [idx], the values above shift up. *)
Definition lua_insert (idx : Z) : M unit :=
  fun s =>
    match stack_slot s idx, stack s with
    | Some d, v :: rest => Ok tt (set_stack (take d rest ++ v :: drop d rest) s)
    | _, _ => Abort
    end.

(** [lua_replace], for stack indices (the only use in luamm.cc). *)
Definition lua_replace (idx : Z) : M unit :=
  fun s =>
    match stack_slot s idx, stack s with
    | Some O, v :: rest => Ok tt (set_stack rest s)
    | Some (S d), v :: rest => Ok tt (set_stack (<[d := v]> rest) s)
    | _, _ => Abort
    end.

(** *** Tables *)

Definition table_get (t : gmap value value) (k : value) : value :=
  default VNil (t !! k).

Definition table_set (k v : value) (t : gmap value value) : gmap value value :=
  match v with
  | VNil => delete k t
  | _ => <[k := v]> t
  end.

Definition lua_rawget (idx : Z) : M unit :=
  fun s =>
    match index2adr s idx, stack s with
    | Some (VTable a), k :: rest =>
        match heap s !! a with
        | Some (OTable t _) => Ok tt (set_stack (table_get t k :: rest) s)
        | _ => Abort
        end
    | _, _ => Abort
    end.

Definition lua_rawgeti (idx : Z) (n : Z) : M unit :=
  fun s =>
    match index2adr s idx with
    | Some (VTable a) =>
        match heap s !! a with
        | Some (OTable t _) => push (table_get t (VNum n)) s
        | _ => Abort
        end
    | _ => Abort
    end.

(** [lua_rawset]: a nil key is a run-time error of the interpreter. *)
Definition lua_rawset (idx : Z) : M unit :=
  fun s =>
    match index2adr s idx, stack s with
    | Some (VTable a), v :: k :: rest =>
        match heap s !! a, k with
        | Some (OTable t mt), VNil =>
            Error LUA_ERRRUN (set_stack (VStr "table index is nil" :: stack s) s)
        | Some (OTable t mt), _ =>
            Ok tt (set_heap (<[a := OTable (table_set k v t) mt]> (heap s))
                     (set_stack rest s))
        | _, _ => Abort
        end
    | _, _ => Abort
    end.

Definition lua_rawseti (idx : Z) (n : Z) : M unit :=
  fun s =>
    match index2adr s idx, stack s with
    | Some (VTable a), v :: rest =>
        match heap s !! a with
        | Some (OTable t mt) =>
            Ok tt (set_heap (<[a := OTable (table_set (VNum n) v t) mt]> (heap s))
                     (set_stack rest s))
        | _ => Abort
        end
    | _, _ => Abort
    end.

(** *** Allocation *)

Definition alloc (o : object) : M N :=
  fun s =>
    Ok (next_addr s)
       (set_next_addr (N.succ (next_addr s))
          (set_heap (<[next_addr s := o]> (heap s)) s)).

Definition lua_newtable : M unit :=
  let* a := alloc (OTable ∅ None) in push (VTable a).

(** [lua_newuserdata] followed by the placement new of its content. *)
Definition lua_newuserdata (b : block) : M N :=
  let* a := alloc (OUdata b None) in push (VUdata a) ;; ret a.

Definition lua_pushcclosure (f : cfunction) (n : Z) : M unit :=
  fun s =>
    if (0 <=? n) && (n <=? top s) then
      (let* a := alloc (OCClosure f (rev (take (Z.to_nat n) (stack s)))) in
       push (VFun a))
        (set_stack (drop (Z.to_nat n) (stack s)) s)
    else Abort.

Definition lua_pushcfunction (f : cfunction) : M unit := lua_pushcclosure f 0.

(** *** Userdata and metatables *)

Inductive pointer := PBlock (a : N) | PLight (p : N).

Definition lua_touserdata (idx : Z) : M (option pointer) :=
  get (fun s =>
         match index2adr s idx with
         | Some (VUdata a) => Some (PBlock a)
         | Some (VLight p) => Some (PLight p)
         | _ => None
         end).

Definition metatable_of (s : lua_State) (v : value) : option N :=
  match v with
  | VTable a => match heap s !! a with Some (OTable _ mt) => mt | _ => None end
  | VUdata a => match heap s !! a with Some (OUdata _ mt) => mt | _ => None end
  | _ => type_mt s !! type_tag v
  end.

Definition lua_getmetatable (idx : Z) : M bool :=
  fun s =>
    match metatable_of s (default VNil (index2adr s idx)) with
    | Some mt => Ok true (set_stack (VTable mt :: stack s) s)
    | None => Ok false s
    end.

Definition set_metatable_of (v : value) (mt : option N) (s : lua_State) : lua_State :=
  match v with
  | VTable a =>
      match heap s !! a with
      | Some (OTable t _) => set_heap (<[a := OTable t mt]> (heap s)) s
      | _ => s
      end
  | VUdata a =>
      match heap s !! a with
      | Some (OUdata b _) => set_heap (<[a := OUdata b mt]> (heap s)) s
      | _ => s
      end
  | _ =>
      match mt with
      | Some m => set_type_mt (<[type_tag v := m]> (type_mt s)) s
      | None => set_type_mt (delete (type_tag v) (type_mt s)) s
      end
  end.

Definition lua_setmetatable (idx : Z) : M unit :=
  fun s =>
    match index2adr s idx, stack s with
    | Some obj, VNil :: rest => Ok tt (set_metatable_of obj None (set_stack rest s))
    | Some obj, VTable m :: rest => Ok tt (set_metatable_of obj (Some m) (set_stack rest s))
    | _, _ => Abort
    end.

Definition lua_rawequal (index1 index2 : Z) : M bool :=
  get (fun s =>
         match index2adr s index1, index2adr s index2 with
         | Some o1, Some o2 => bool_decide (o1 = o2)
         | _, _ => false
         end).

(** *** Conversions

    [lua_Number] is restricted to integers.  [number2str] is the "%.14g"
    format of [lua_tolstring] on them.  [str2number] reads what
    [luaO_str2d] reads, as far as it names an integer: a literal with a
    fraction that does not vanish names a number outside this model and
    is not read. *)

(** The digits of "%.14g" after the first one: trailing zeros are not
    printed. *)
Fixpoint strip_zeros (s : string) : string :=
  match s with
  | EmptyString => EmptyString
  | String a r =>
      match strip_zeros r with
      | EmptyString => if Ascii.eqb a "0"%char then EmptyString else String a EmptyString
      | r' => String a r'
      end
  end.

(** [n] as "%.14g" prints it: every digit of a number of at most fourteen
    digits; beyond, the first fourteen digits rounded to the nearest
    (to the even one on a tie), without trailing zeros, and the exponent. *)
Definition number2str (n : Z) : string :=
  let a := Z.abs n in
  let d := Z.of_nat (String.length (pretty a)) in
  if d <=? 14 then pretty n
  else
    let k := d - 14 in
    let q := a / 10 ^ k in
    let r := a mod 10 ^ k in
    let q := if (10 ^ k <? 2 * r) || ((2 * r =? 10 ^ k) && Z.odd q) then q + 1 else q in
    let x := if q =? 10 ^ 14 then d else d - 1 in
    let q := if q =? 10 ^ 14 then 10 ^ 13 else q in
    match pretty q with
    | String c rest =>
        String.append (if n <? 0 then "-" else EmptyString)
          (String c
             (String.append
                (match strip_zeros rest with
                 | EmptyString => EmptyString
                 | f => String "."%char f
                 end)
                (String.append "e+" (pretty x))))
    | EmptyString => EmptyString
    end.

Definition is_space (a : Ascii.ascii) : bool :=
  let n := Z.of_nat (Ascii.nat_of_ascii a) in
  (n =? 32) || ((9 <=? n) && (n <=? 13)).

Fixpoint skip_space (s : string) : string :=
  match s with
  | String a r => if is_space a then skip_space r else s
  | EmptyString => EmptyString
  end.

Definition digit_value (base : Z) (a : Ascii.ascii) : option Z :=
  let n := Z.of_nat (Ascii.nat_of_ascii a) in
  if (48 <=? n) && (n <=? 57) then Some (n - 48)
  else if (base =? 16) && (97 <=? n) && (n <=? 102) then Some (n - 87)
  else if (base =? 16) && (65 <=? n) && (n <=? 70) then Some (n - 55)
  else None.

(** The longest run of digits at the head of [s]: its value on top of
    [acc], its length, and what follows it. *)
Fixpoint digits (base : Z) (s : string) (acc : Z) (count : Z) : Z * Z * string :=
  match s with
  | EmptyString => (acc, count, EmptyString)
  | String a r =>
      match digit_value base a with
      | Some d => digits base r (base * acc + d) (count + 1)
      | None => (acc, count, s)
      end
  end.

(** An optional sign. *)
Definition sign (s : string) : bool * string :=
  match s with
  | String a r =>
      if Ascii.eqb a "-"%char then (true, r)
      else if Ascii.eqb a "+"%char then (false, r)
      else (false, s)
  | EmptyString => (false, s)
  end.

(** An optional exponent: "e" or "E", an optional sign and at least one
    digit; without a digit nothing is read. *)
Definition exponent (s : string) : Z * string :=
  match s with
  | String a r =>
      if Ascii.eqb a "e"%char || Ascii.eqb a "E"%char then
        let (neg, r') := sign r in
        let '(x, count, rest) := digits 10 r' 0 0 in
        if count =? 0 then (0, s) else (if neg then - x else x, rest)
      else (0, s)
  | EmptyString => (0, s)
  end.

(** The mantissa: hexadecimal digits after "0x", or decimal digits with
    an optional point; its digits as an integer, the number of decimals,
    and what follows.  [None] when there is no digit. *)
Definition mantissa (s : string) : option (Z * Z * bool * string) :=
  match s with
  | String "0" (String x r) =>
      if Ascii.eqb x "x"%char || Ascii.eqb x "X"%char then
        let '(m, count, rest) := digits 16 r 0 0 in
        if count =? 0 then Some (0, 0, false, String x r) else Some (m, 0, true, rest)
      else
        let '(m, _, rest) := digits 10 s 0 0 in
        match rest with
        | String "." r' =>
            let '(m', f, rest') := digits 10 r' m 0 in Some (m', f, false, rest')
        | _ => Some (m, 0, false, rest)
        end
  | _ =>
      let '(m, count, rest) := digits 10 s 0 0 in
      match rest with
      | String "." r' =>
          let '(m', f, rest') := digits 10 r' m 0 in
          if (count =? 0) && (f =? 0) then None else Some (m', f, false, rest')
      | _ => if count =? 0 then None else Some (m, 0, false, rest)
      end
  end.

(** [luaO_str2d] on a literal that names an integer: blanks around it, a
    sign, the mantissa and the exponent, and nothing else. *)
Definition str2number (s : string) : option Z :=
  let (neg, s1) := sign (skip_space s) in
  match mantissa s1 with
  | None => None
  | Some (m, f, hex, s2) =>
      let (x, s3) := if hex then (0, s2) else exponent s2 in
      match skip_space s3 with
      | EmptyString =>
          let m := if neg then - m else m in
          if f <=? x then Some (m * 10 ^ (x - f))
          else if m mod 10 ^ (f - x) =? 0 then Some (m / 10 ^ (f - x))
          else None
      | _ => None
      end
  end.

Definition tonumber (v : value) : option Z :=
  match v with
  | VNum n => Some n
  | VStr x => str2number x
  | _ => None
  end.

(** [lua_isstring]: a string, or a number (which converts to one). *)
Definition lua_isstring (idx : Z) : M bool :=
  let* t := lua_type idx in ret ((t =? 4) || (t =? 3)).

Definition lua_isnumber (idx : Z) : M bool :=
  get (fun s => match index2adr s idx with
                | Some v => bool_decide (is_Some (tonumber v))
                | None => false
                end).

Definition lua_tointeger (idx : Z) : M Z :=
  get (fun s => match index2adr s idx with
                | Some v => default 0 (tonumber v)
                | None => 0
                end).

(** Writes through an index, as [luaV_tostring] does on the slot it is
    given. *)
Definition store (idx : Z) (v : value) (s : lua_State) : lua_State :=
  match stack_slot s idx with
  | Some d => set_stack (<[d := v]> (stack s)) s
  | None =>
      if idx <? LUA_GLOBALSINDEX
      then set_upvalues (<[Z.to_nat (LUA_GLOBALSINDEX - idx - 1) := v]> (upvalues s)) s
      else s
  end.

(** [lua_tolstring]: a number is turned into a string in its slot. *)
Definition lua_tolstring (idx : Z) : M (option string) :=
  fun s =>
    match index2adr s idx with
    | Some (VStr x) => Ok (Some x) s
    | Some (VNum n) => Ok (Some (number2str n)) (store idx (VStr (number2str n)) s)
    | _ => Ok None s
    end.

(** *** References (lauxlib.c) *)

Definition abs_index (i : Z) : M Z :=
  fun s => Ok (if (0 <? i) || (i <=? LUA_REGISTRYINDEX) then i else top s + i + 1) s.

(** [luaH_getn] on a table whose positive integer keys form a sequence. *)
Fixpoint border (t : gmap value value) (fuel : nat) (n : Z) : Z :=
  match fuel with
  | O => n
  | S fuel' =>
      match t !! VNum (n + 1) with
      | Some _ => border t fuel' (n + 1)
      | None => n
      end
  end.

Definition lua_objlen (idx : Z) : M Z :=
  get (fun s =>
         match index2adr s idx with
         | Some (VTable a) =>
             match heap s !! a with
             | Some (OTable t _) => border t (size t) 0
             | _ => 0
             end
         | Some (VStr x) => Z.of_nat (String.length x)
         | _ => 0
         end).

Definition luaL_ref (t : Z) : M Z :=
  let* t := abs_index t in
  let* isnil := lua_isnil (-1) in
  if isnil then
    lua_pop 1 ;;
    ret LUA_REFNIL
  else
    lua_rawgeti t FREELIST_REF ;;
    let* ref := lua_tointeger (-1) in
    lua_pop 1 ;;
    let* ref :=
      (if negb (ref =? 0) then
         lua_rawgeti t ref ;;
         lua_rawseti t FREELIST_REF ;;
         ret ref
       else
         let* n := lua_objlen t in
         ret (n + 1)) in
    lua_rawseti t ref ;;
    ret ref.

Definition luaL_unref (t : Z) (ref : Z) : M unit :=
  if 0 <=? ref then
    let* t := abs_index t in
    lua_rawgeti t FREELIST_REF ;;
    lua_rawseti t ref ;;
    lua_pushinteger ref ;;
    lua_rawseti t FREELIST_REF
  else ret tt.

(** [luaL_newmetatable]; the registry carries no metatable, so its field
    accesses are raw. *)
Definition luaL_newmetatable (tname : string) : M bool :=
  lua_pushstring tname ;;
  lua_rawget LUA_REGISTRYINDEX ;;
  let* isnil := lua_isnil (-1) in
  if negb isnil then ret false
  else
    lua_pop 1 ;;
    lua_newtable ;;
    lua_pushvalue (-1) ;;
    lua_pushstring tname ;;
    lua_insert (-2) ;;
    lua_rawset LUA_REGISTRYINDEX ;;
    ret true.

Definition lua_atpanic (f : cfunction) : M unit := modify (set_panic (Some f)).

(** [lua_error]: the value on top of the stack becomes the error value. *)
Definition lua_error {A} : M A := fun s => Error LUA_ERRRUN s.

End Lua.

Export Lua.

(** ** The interpreter beyond the model

    What luamm.cc calls and the model above does not compute: the API
    functions that may run metamethods or arbitrary Lua code, the chunk
    loaders, the standard libraries, the bodies of Lua functions and of
    C functions of other libraries, and the host callables registered
    through [pushclosure] ([cpp_function], applied to the handle that
    runs them).  The chunk loaders are protected entry points: they
    return a status and never leave otherwise. *)
Class Runtime := {
  lua_concat : Z -> M unit;
  lua_equal : Z -> Z -> M Z;
  lua_lessthan : Z -> Z -> M Z;
  lua_gc : Z -> Z -> M Z;
  lua_gettable : Z -> M unit;
  lua_settable : Z -> M unit;
  lua_next : Z -> M Z;
  luaL_loadfile : string -> lua_State -> Z * lua_State;
  lua_load_chunk : string -> string -> lua_State -> Z * lua_State;
  luaL_openlibs : M unit;
  luaL_newstate : option lua_State;
  lua_exec : value -> M Z;
  cpp_functions : N -> N -> M Z
}.

(** ** luamm.cc *)

Module luamm.

(** Keys for storing values in the registry. *)
Definition cpp_exception_metatable : string := "lua::cpp_exception_metatable".
Definition cpp_function_metatable : string := "lua::cpp_function_metatable".
Definition lua_exception_namespace : string := "lua::lua_exception_namespace".
Definition this_cpp_object : string := "lua::this_cpp_object".

(** [try { body } catch (...)]: [handler] answers [None] for an exception
    no clause of the statement catches. *)
Definition try_catch {A} (body : M A) (handler : cpp_exception -> option (M A)) : M A :=
  fun s =>
    match body s with
    | Throw e s' =>
        match handler e with
        | Some h => h s'
        | None => Throw e s'
        end
    | r => r
    end.

(** The end of a handler that caught by reference: the exception object is
    destroyed ([cleanup]) whether the handler is left normally or by another
    exception. *)
Definition leaving_handler {A} (cleanup : M unit) (m : M A) : M A :=
  fun s =>
    match m s with
    | Ok a s' => (cleanup ;; ret a) s'
    | Throw e s' => (cleanup ;; throw e) s'
    | Error st s' => Error st s'
    | Abort => Abort
    end.

(** A function declared [throw()]: an exception that reaches its boundary
    ends the program. *)
Definition nothrow {A} (m : M A) : M A :=
  fun s => match m s with Throw _ _ => Abort | r => r end.

Definition absindex (index : Z) : M Z :=
  let* t := lua_gettop in
  ret (if (index <? 0) && (- index <=? t) then t + 1 + index else index).

Definition rawgetfield (index : Z) (k : string) : M unit :=
  let* index := absindex index in
  let* ok := lua_checkstack 1 in
  (if negb ok then throw bad_alloc else ret tt) ;;
  lua_pushstring k ;;
  lua_rawget index.

Definition rawsetfield (index : Z) (k : string) : M unit :=
  let* index := absindex index in
  let* ok := lua_checkstack 2 in
  (if negb ok then throw bad_alloc else ret tt) ;;
  lua_pushstring k ;;
  lua_insert (-2) ;;
  lua_rawset index.

Definition checkstack (extra : Z) : M unit :=
  let* ok := lua_checkstack extra in
  if negb ok then throw bad_alloc else ret tt.

Definition tostring (index : Z) : M string :=
  let* str := lua_tolstring index in
  match str with
  | None => throw not_string_error
  | Some x => ret x
  end.

(** Modelled from the spec: [state::createuserdata<T>] of luamm.hh, which
    allocates a userdata block for a [T], constructs the [T] in it and
    leaves the userdata on the stack. *)
Definition createuserdata (b : block) : M N := lua_newuserdata b.

(** Modelled from the spec: [state::pushdestructor<T>] of luamm.hh, which
    pushes the finalizer that the metatables of the two userdata kinds
    carry under "__gc". *)
Definition pushdestructor (t : cpp_type) : M unit := lua_pushcfunction (destructor t).

(** *** lua::exception *)

Definition default_msg : string := "Unknown lua exception".

Definition get_error_msg : M string :=
  try_catch (tostring (-1))
    (fun e => match e with
              | not_string_error => Some (ret default_msg)
              | _ => None
              end).

Definition exception_ctor (l : N) : M exception :=
  let* msg := get_error_msg in
  checkstack 1 ;;
  rawgetfield LUA_REGISTRYINDEX lua_exception_namespace ;;
  lua_insert (-2) ;;
  let* key := luaL_ref (-2) in
  lua_pop 1 ;;
  ret {| what := msg; exc_L := l; exc_key := key |}.

(** [~exception]; [L_valid] is the content of the owner's liveness flag. *)
Definition exception_dtor (e : exception) (L_valid : bool) : M unit :=
  nothrow
    (if negb L_valid then ret tt
     else
       checkstack 1 ;;
       rawgetfield LUA_REGISTRYINDEX lua_exception_namespace ;;
       luaL_unref (-1) (exc_key e) ;;
       lua_pop 1).

(** [exception::push_lua_error (state *l)], run on the interpreter of [l]. *)
Definition push_lua_error (e : exception) (l : N) : M unit :=
  if negb (l =? exc_L e)%N then
    throw (runtime_error "Cannot transfer exceptions between different lua contexts")
  else
    checkstack 2 ;;
    rawgetfield LUA_REGISTRYINDEX lua_exception_namespace ;;
    lua_rawgeti (-1) (exc_key e) ;;
    lua_replace (-2).

(** Modelled from the spec: the classes [syntax_error], [file_error] and
    [errfunc_error] of luamm.hh, which derive from [lua::exception] and are
    built by its constructor. *)
Definition throw_exception {A} (k : exception_kind) (l : N) : M A :=
  let* e := exception_ctor l in
  throw (lua_exception k e).

Section bridge.
Context {rt : Runtime}.

(** *** The C functions handed to the interpreter *)

(** What [std::rethrow_exception] lets [catch (std::exception &)] see. *)
Definition exception_what (e : cpp_exception) : string :=
  match e with
  | bad_alloc => "std::bad_alloc"
  | runtime_error msg => msg
  | not_string_error => "Cannot convert value to a string"
  | lua_exception _ x => what x
  | foreign_exception type _ _ => type
  end.

(** Reads the [T] a pointer obtained from [lua_touserdata] points to. *)
Definition deref (p : option pointer) : M block :=
  fun s =>
    match p with
    | Some (PBlock a) =>
        match heap s !! a with
        | Some (OUdata b _) => Ok b s
        | _ => Abort
        end
    | _ => Abort
    end.

Definition exception_to_string_body : M Z :=
  let* ptr := lua_touserdata (-1) in
  let* b := deref ptr in
  match b with
  | BExceptionPtr e => lua_pushstring (exception_what e) ;; ret 1
  | _ => abort
  end.

(** The handle recovered from the registry by a trampoline. *)
Definition this_object : M N :=
  rawgetfield LUA_REGISTRYINDEX this_cpp_object ;;
  let* light := lua_islightuserdata (-1) in
  assert light ;;
  let* p := lua_touserdata (-1) in
  lua_pop 1 ;;
  match p with
  | Some (PLight L) => ret L
  | _ => abort
  end.

(** [closure_trampoline].  The value is [Some n] when the callable returned
    [n]; after either handler the function goes on to [lua_error].  The
    exception object caught by reference is destroyed when its handler is
    left; when it belongs to another interpreter that touches nothing
    here. *)
Definition closure_trampoline_body : M Z :=
  lua_checkstack 2 ;;
  let* L := this_object in
  let* r :=
    try_catch
      (let* fn := lua_touserdata (lua_upvalueindex 1) in
       let* b := deref fn in
       match b with
       | BCppFunction f => let* n := cpp_functions f L in ret (Some n)
       | _ => abort
       end)
      (fun e =>
         match e with
         | lua_exception _ x =>
             Some (leaving_handler
                     (if (exc_L x =? L)%N then exception_dtor x true else ret tt)
                     (push_lua_error x L ;; ret None))
         | _ =>
             Some (createuserdata (BExceptionPtr e) ;;
                   rawgetfield LUA_REGISTRYINDEX cpp_exception_metatable ;;
                   lua_setmetatable (-2) ;;
                   ret None)
         end) in
  match r with
  | Some n => ret n
  | None => lua_error
  end.

Definition panic_throw_body : M Z :=
  let* ok := lua_checkstack 1 in
  (if negb ok then throw bad_alloc else ret tt) ;;
  let* L := this_object in
  throw_exception KException L.

Definition safe_concat_trampoline_body : M Z :=
  let* n := lua_gettop in
  lua_concat n ;;
  ret 1.

Definition compare (c : compare_op) : Z -> Z -> M Z :=
  match c with
  | lua_equal_op => lua_equal
  | lua_lessthan_op => lua_lessthan
  end.

Definition safe_compare_trampoline_body (c : compare_op) : M Z :=
  let* r := compare c 1 2 in
  lua_pop 2 ;;
  lua_pushinteger r ;;
  ret 1.

Definition safe_gc_trampoline_body : M Z :=
  let* what := lua_tointeger (-2) in
  let* data := lua_tointeger (-1) in
  lua_pop 2 ;;
  let* r := lua_gc what data in
  lua_pushinteger r ;;
  ret 1.

Definition misc (m : misc_op) : Z -> M unit :=
  match m with
  | lua_gettable_op => lua_gettable
  | lua_settable_op => lua_settable
  end.

Definition safe_misc_trampoline_body (m : misc_op) (nresults : Z) : M Z :=
  misc m 1 ;;
  ret nresults.

Definition safe_next_trampoline_body : M Z :=
  let* r := lua_next 1 in
  lua_checkstack 1 ;;
  lua_pushinteger r ;;
  ret (if r =? 0 then 1 else 3).

(** *** Calls

    The body the interpreter runs for a callee, in the callee's frame. *)
Definition cfunction_body (fv : value) (f : cfunction) : M Z :=
  match f with
  | exception_to_string => exception_to_string_body
  | closure_trampoline => closure_trampoline_body
  | panic_throw => panic_throw_body
  | safe_concat_trampoline => safe_concat_trampoline_body
  | safe_compare_trampoline c => safe_compare_trampoline_body c
  | safe_gc_trampoline => safe_gc_trampoline_body
  | safe_misc_trampoline m n => safe_misc_trampoline_body m n
  | safe_next_trampoline => safe_next_trampoline_body
  | destructor _ => ret 0
  | foreign_cfunction _ => lua_exec fv
  end.

Definition callee_body (fv : value) : M Z :=
  fun s =>
    match fv with
    | VFun a =>
        match heap s !! a with
        | Some (OCClosure f up) => cfunction_body fv f (set_upvalues up s)
        | _ => lua_exec fv s
        end
    | _ => lua_exec fv s
    end.

(** The [wanted] results out of the [n] a callee left on top of its frame. *)
Definition adjust_results (wanted n : Z) (frame : list value) : list value :=
  let results := take (Z.to_nat n) frame in
  if wanted =? LUA_MULTRET then results
  else replicate (Z.to_nat (wanted - n)) VNil ++ drop (Z.to_nat (n - wanted)) results.

(** [luaD_seterrorobj]. *)
Definition error_object (status : Z) (s : lua_State) : value :=
  if status =? LUA_ERRMEM then VStr "not enough memory"
  else if status =? LUA_ERRERR then VStr "error in error handling"
  else default VNil (head (stack s)).

(** Back in the caller's frame [st] of the C function that called. *)
Definition leave (caller : lua_State) (st : list value) (s : lua_State) : lua_State :=
  set_upvalues (upvalues caller) (set_stack st s).

(** [luaG_errormsg]: a run-time error passes through the message handler
    of the protected call, if there is one, before the stack unwinds. *)
Definition handle_error (handler : option value) (status : Z) : M (Z * value) :=
  fun s =>
    match handler with
    | Some h =>
        if status =? LUA_ERRRUN then
          match h with
          | VFun _ =>
              match callee_body h (set_stack [error_object status s] s) with
              | Ok n s' => Ok (LUA_ERRRUN, default VNil (head (adjust_results 1 n (stack s')))) s'
              | Error _ s' => Ok (LUA_ERRERR, error_object LUA_ERRERR s') s'
              | Throw e s' => Throw e s'
              | Abort => Abort
              end
          | _ => Ok (LUA_ERRERR, error_object LUA_ERRERR s) s
          end
        else Ok (status, error_object status s) s
    | None => Ok (status, error_object status s) s
    end.

(** [lua_pcall].  A C++ exception that leaves the callee (or the message
    handler) crosses the interpreter's frames untouched: nothing is
    unwound, and the frame it left is still the current one when it
    arrives at the caller. *)
Definition lua_pcall (nargs nresults errfunc : Z) : M Z :=
  fun s =>
    if (nargs <? 0) || (top s <? nargs + 1) then Abort
    else
      match drop (Z.to_nat nargs) (stack s) with
      | [] => Abort
      | fv :: below =>
          let handler := if errfunc =? 0 then None else index2adr s errfunc in
          let frame := set_pcalls (S (pcalls s)) (set_stack (take (Z.to_nat nargs) (stack s)) s) in
          match callee_body fv frame with
          | Ok n s1 =>
              if (n <? 0) || (top s1 <? n) then Abort
              else Ok 0 (leave s (adjust_results nresults n (stack s1) ++ below) s1)
          | Error status s1 =>
              match handle_error handler status s1 with
              | Ok (status', v) s2 => Ok status' (leave s (v :: below) s2)
              | Throw e s2 => Throw e s2
              | Error _ _ => Abort
              | Abort => Abort
              end
          | Throw e s1 => Throw e s1
          | Abort => Abort
          end
      end.

(** *** class state *)

Section state.
Variable this : N.

Definition call (nargs nresults errfunc : Z) : M unit :=
  let* r := lua_pcall nargs nresults errfunc in
  if r =? 0 then ret tt
  else if r =? LUA_ERRMEM then throw bad_alloc
  else
    checkstack 3 ;;
    rawgetfield LUA_REGISTRYINDEX cpp_exception_metatable ;;
    let* has_metatable := lua_getmetatable (-2) in
    (if has_metatable then
       let* same := lua_rawequal (-1) (-2) in
       if same then
         let* ptr := lua_touserdata (-3) in
         let* b := deref ptr in
         match b with
         | BExceptionPtr t => lua_pop 3 ;; throw t
         | _ => abort
         end
       else lua_pop 2
     else ret tt) ;;
    if r =? LUA_ERRERR then throw_exception KErrfuncError this
    else throw_exception KException this.

Definition concat (n : Z) : M unit :=
  assert (0 <=? n) ;;
  checkstack 1 ;;
  lua_pushcfunction safe_concat_trampoline ;;
  lua_insert (- n - 1) ;;
  call n 1 0.

(** The result of a trampoline that pushed an integer. *)
Definition integer_result : M Z :=
  let* isnum := lua_isnumber (-1) in
  assert isnum ;;
  let* r := lua_tointeger (-1) in
  lua_pop 1 ;;
  ret r.

Definition safe_compare (trampoline : cfunction) (index1 index2 : Z) : M bool :=
  let* none1 := lua_isnone index1 in
  let* none2 := lua_isnone index2 in
  if none1 || none2 then ret false
  else
    let* index1 := absindex index1 in
    let* index2 := absindex index2 in
    checkstack 3 ;;
    lua_pushcfunction trampoline ;;
    lua_pushvalue index1 ;;
    lua_pushvalue index2 ;;
    call 2 1 0 ;;
    let* r := integer_result in
    ret (negb (r =? 0)).

Definition equal (index1 index2 : Z) : M bool :=
  let* raw := lua_rawequal index1 index2 in
  if raw then ret true
  else safe_compare (safe_compare_trampoline lua_equal_op) index1 index2.

Definition lessthan (index1 index2 : Z) : M bool :=
  safe_compare (safe_compare_trampoline lua_lessthan_op) index1 index2.

Definition gc (what data : Z) : M Z :=
  checkstack 3 ;;
  lua_pushcfunction safe_gc_trampoline ;;
  lua_pushinteger what ;;
  lua_pushinteger data ;;
  call 2 1 0 ;;
  integer_result.

Definition gettable (index : Z) : M unit :=
  checkstack 2 ;;
  lua_pushvalue index ;;
  lua_insert (-2) ;;
  lua_pushcfunction (safe_misc_trampoline lua_gettable_op 1) ;;
  lua_insert (-3) ;;
  call 2 1 0.

Definition getfield (index : Z) (k : string) : M unit :=
  checkstack 1 ;;
  let* index := absindex index in
  lua_pushstring k ;;
  gettable index.

Definition settable (index : Z) : M unit :=
  checkstack 2 ;;
  lua_pushvalue index ;;
  lua_insert (-3) ;;
  lua_pushcfunction (safe_misc_trampoline lua_settable_op 0) ;;
  lua_insert (-4) ;;
  call 3 0 0.

Definition setfield (index : Z) (k : string) : M unit :=
  checkstack 1 ;;
  let* index := absindex index in
  lua_pushstring k ;;
  lua_insert (-2) ;;
  settable index.

Definition next (index : Z) : M bool :=
  checkstack 2 ;;
  lua_pushvalue index ;;
  lua_insert (-2) ;;
  lua_pushcfunction safe_next_trampoline ;;
  lua_insert (-3) ;;
  call 2 LUA_MULTRET 0 ;;
  let* r := integer_result in
  ret (negb (r =? 0)).

Definition pushclosure (fn : N) (n : Z) : M unit :=
  checkstack 2 ;;
  createuserdata (BCppFunction fn) ;;
  rawgetfield LUA_REGISTRYINDEX cpp_function_metatable ;;
  lua_setmetatable (-2) ;;
  lua_insert (- n - 1) ;;
  lua_pushcclosure closure_trampoline (n + 1).

(** The outcome of a chunk loader, classified. *)
Definition loadfile (filename : string) : M unit :=
  fun s =>
    let (r, s') := luaL_loadfile filename s in
    (if r =? 0 then ret tt
     else if r =? LUA_ERRSYNTAX then throw_exception KSyntaxError this
     else if r =? LUA_ERRFILE then throw_exception KFileError this
     else if r =? LUA_ERRMEM then throw bad_alloc
     else assert false) s'.

(** [reader_data] and [string_reader]: the whole chunk at the first call,
    nothing afterwards. *)
Record reader_data := { rd_s : string; rd_len : nat }.

Definition string_reader (d : reader_data) : string * reader_data :=
  (String.substring 0 (rd_len d) (rd_s d), {| rd_s := rd_s d; rd_len := 0 |}).

(** [lua_load] on a reader: the pieces are read until an empty one. *)
Fixpoint read_chunk (fuel : nat) (d : reader_data) : string :=
  match fuel with
  | O => EmptyString
  | S fuel' =>
      let (piece, d') := string_reader d in
      match piece with
      | EmptyString => EmptyString
      | _ => String.append piece (read_chunk fuel' d')
      end
  end.

Definition lua_load (data : reader_data) (chunkname : string) : lua_State -> Z * lua_State :=
  lua_load_chunk (read_chunk 2 data) chunkname.

Definition loadstring (s : string) (len : nat) (chunkname : string) : M unit :=
  fun st =>
    let data := {| rd_s := s; rd_len := len |} in
    let (r, st') := lua_load data chunkname st in
    (if r =? 0 then ret tt
     else if r =? LUA_ERRSYNTAX then throw_exception KSyntaxError this
     else if r =? LUA_ERRMEM then throw bad_alloc
     else assert false) st'.

End state.

(** *** Construction of a handle

    What is left of the object when the constructor is done: the content
    of the flag [valid] points to, and the interpreter [cobj] unless it
    was never created or is closed. *)
Record handle := {
  valid : bool;
  cobj : option lua_State
}.

Inductive construction :=
| Constructed (h : handle)
| Propagates (e : cpp_exception) (h : handle)
| Terminated.

(** An error raised outside any protected call: the interpreter calls the
    panic function, and ends the program if that returns. *)
Definition unprotected {A} (m : M A) : M A :=
  fun s =>
    match m s with
    | Error _ s' =>
        match panic s' with
        | Some f =>
            match cfunction_body VNil f s' with
            | Throw e s'' => Throw e s''
            | _ => Abort
            end
        | None => Abort
        end
    | r => r
    end.

Definition lua_close (h : handle) : handle :=
  {| valid := valid h; cobj := None |}.

Definition set_valid (b : bool) (h : handle) : handle :=
  {| valid := b; cobj := cobj h |}.

(** The [try] block of [state::state]. *)
Definition setup (this : N) : M unit :=
  lua_atpanic panic_throw ;;
  checkstack 2 ;;
  lua_pushlightuserdata this ;;
  rawsetfield LUA_REGISTRYINDEX this_cpp_object ;;
  luaL_newmetatable cpp_exception_metatable ;;
  lua_pushcfunction exception_to_string ;;
  rawsetfield (-2) "__tostring" ;;
  lua_pushboolean false ;;
  rawsetfield (-2) "__metatable" ;;
  pushdestructor exception_ptr_t ;;
  rawsetfield (-2) "__gc" ;;
  lua_pop 1 ;;
  luaL_newmetatable cpp_function_metatable ;;
  lua_pushboolean false ;;
  rawsetfield (-2) "__metatable" ;;
  pushdestructor cpp_function_t ;;
  rawsetfield (-2) "__gc" ;;
  lua_pop 1 ;;
  lua_newtable ;;
  rawsetfield LUA_REGISTRYINDEX lua_exception_namespace ;;
  luaL_openlibs.

Definition state_ctor (this : N) : construction :=
  match luaL_newstate with
  | None => Propagates bad_alloc {| valid := true; cobj := None |}
  | Some s0 =>
      match unprotected (setup this) s0 with
      | Ok _ s => Constructed {| valid := true; cobj := Some s |}
      | Throw e s =>
          Propagates e (lua_close (set_valid false {| valid := true; cobj := Some s |}))
      | _ => Terminated
      end
  end.

End bridge.

End luamm.

(** ** Vocabulary of the statements *)

(** The table at a heap address, and a field of the registry read raw. *)
Definition table_at (s : lua_State) (a : N) : option (gmap value value) :=
  match heap s !! a with
  | Some (OTable t _) => Some t
  | _ => None
  end.

Definition registry_field (s : lua_State) (k : string) : option value :=
  t ← table_at s (l_registry s); Some (table_get t (VStr k)).

(** What [lua_tolstring] leaves in the slot it looked at, and the message
    [get_error_msg] makes of it. *)
Definition coerced (v : value) : value :=
  match v with
  | VNum n => VStr (number2str n)
  | _ => v
  end.

Definition message (v : value) : string :=
  match v with
  | VStr x => x
  | VNum n => number2str n
  | _ => luamm.default_msg
  end.

(** The key [luaL_ref] hands out for a table, and the table afterwards. *)
Definition ref_slot (tb : gmap value value) : Z :=
  let free := default 0 (tonumber (table_get tb (VNum FREELIST_REF))) in
  if negb (free =? 0) then free else border tb (size tb) 0 + 1.

Definition ref_table (v : value) (tb : gmap value value) : gmap value value :=
  let free := default 0 (tonumber (table_get tb (VNum FREELIST_REF))) in
  if negb (free =? 0)
  then table_set (VNum free) v (table_set (VNum FREELIST_REF) (table_get tb (VNum free)) tb)
  else table_set (VNum (border tb (size tb) 0 + 1)) v tb.

(** What [push_lua_error] throws on a handle that is not the owner. *)
Definition cross_context_error : cpp_exception :=
  runtime_error "Cannot transfer exceptions between different lua contexts".

(** The exception class [state::call] raises for a status. *)
Definition raised (r : Z) : exception_kind :=
  if r =? LUA_ERRERR then KErrfuncError else KException.

(** The state a trampoline leaves when it has captured [e]: the capture
    is a new userdata on top of the stack, tagged with [mt]. *)
Definition with_capture (e : cpp_exception) (mt : N) (s : lua_State) : lua_State :=
  set_heap (<[next_addr s := OUdata (BExceptionPtr e) (Some mt)]> (heap s))
    (set_next_addr (N.succ (next_addr s))
       (set_stack (VUdata (next_addr s) :: stack s) s)).

(** The exception a computation leaves by, if it does, and the
    interpreter it leaves. *)
Definition thrown {A} (r : result A) : option cpp_exception :=
  match r with
  | Throw e _ => Some e
  | _ => None
  end.

Definition returned {A} (r : result A) : option A :=
  match r with
  | Ok a _ => Some a
  | _ => None
  end.

Definition final {A} (r : result A) : option lua_State :=
  match r with
  | Ok _ s | Throw _ s | Error _ s => Some s
  | Abort => None
  end.

(** The frame in which [lua_pcall (nargs, ...)] runs the callee of [s]. *)
Definition callee_frame (nargs : Z) (s : lua_State) : option lua_State :=
  match drop (Z.to_nat nargs) (stack s) with
  | VFun a :: _ =>
      match heap s !! a with
      | Some (OCClosure _ up) =>
          Some (set_upvalues up
                  (set_pcalls (S (pcalls s))
                     (set_stack (take (Z.to_nat nargs) (stack s)) s)))
      | _ => None
      end
  | _ => None
  end.

(** Identity preservation, for the callable [fn] that [s] is about to
    call with [nargs] arguments: whatever exception the callable throws in
    the frame of the protected call is the one [state::call] throws. *)
Definition rethrown_intact {rt : Runtime} (this fn : N) (nargs nresults : Z)
    (s : lua_State) : Prop :=
  forall frame e,
    callee_frame nargs s = Some frame ->
    thrown (cpp_functions fn this frame) = Some e ->
    thrown (luamm.call this nargs nresults 0 s) = Some e.

(** The value the registry holds for an exception object. *)
Definition captured_value (s : lua_State) (e : exception) : option value :=
  match registry_field s luamm.lua_exception_namespace with
  | Some (VTable ns) =>
      t ← table_at s ns; Some (table_get t (VNum (exc_key e)))
  | _ => None
  end.

(** The interpreter once [lua_pushcfunction (f)] has allocated its closure. *)
Definition with_closure (f : cfunction) (s : lua_State) : lua_State :=
  set_next_addr (N.succ (next_addr s))
    (set_heap (<[next_addr s := OCClosure f []]> (heap s)) s).

(** The frame in which the comparison trampoline runs on [v1] and [v2]:
    inside one more protected call, with the two values as its arguments. *)
Definition compare_frame (c : compare_op) (v1 v2 : value) (s : lua_State) : lua_State :=
  set_upvalues []
    (set_pcalls (S (pcalls s))
       (set_stack [v2; v1] (with_closure (safe_compare_trampoline c) s))).

(** The value [absindex] computes. *)
Definition absolute (idx : Z) (s : lua_State) : Z :=
  if (idx <? 0) && (- idx <=? top s) then top s + 1 + idx else idx.

(** The interpreter is ready for the constructor of [lua::exception]: an
    error value is on top of the stack, one more slot can be reserved and
    the namespace table of the exceptions is in the registry. *)
Definition capture_ready (s : lua_State) : Prop :=
  exists v rest ns tb nmt,
    stack s = v :: rest /\ v <> VNil /\
    top s + 1 <= limit s /\ limit s < 10000 /\
    registry_field s luamm.lua_exception_namespace = Some (VTable ns) /\
    heap s !! ns = Some (OTable tb nmt).

(** The table of references once [luaL_unref] has put [key] back. *)
Definition unref_table (key : Z) (tb : gmap value value) : gmap value value :=
  table_set (VNum FREELIST_REF) (VNum key)
    (table_set (VNum key) (table_get tb (VNum FREELIST_REF)) tb).

(** The frame in which a trampoline pushed by a wrapper runs on [args]. *)
Definition trampoline_frame (f : cfunction) (args : list value) (s : lua_State)
    : lua_State :=
  set_upvalues []
    (set_pcalls (S (pcalls s)) (set_stack args (with_closure f s))).

(** The fields [state::state] gives the metatable of the captures, created
    at address [na] with the two closures right after it, and the metatable
    of the callables, created at [na] with its finalizer after it. *)
Definition exception_metatable_fields (na : N) : gmap value value :=
  <[VStr "__gc" := VFun (N.succ (N.succ na))]>
    (<[VStr "__metatable" := VBool false]>
       (<[VStr "__tostring" := VFun (N.succ na)]> ∅)).

Definition function_metatable_fields (na : N) : gmap value value :=
  <[VStr "__gc" := VFun (N.succ na)]> (<[VStr "__metatable" := VBool false]> ∅).

(** The same interpreter with another bound on its stack. *)
Definition set_limit (lim : Z) (s : lua_State) : lua_State :=
  {| stack := stack s; upvalues := upvalues s; limit := lim; heap := heap s;
     next_addr := next_addr s; l_registry := l_registry s; l_gt := l_gt s;
     type_mt := type_mt s; panic := panic s; pcalls := pcalls s |}.

(** What the claim on the chunk loaders says of an outcome: the status
    of the loader decides what [loadfile] or [loadstring] does. *)
Definition classified_as (r : Z) (res : result unit) : Prop :=
  (r = 0 -> returned res = Some tt) /\
  (r = LUA_ERRSYNTAX -> exists e, thrown res = Some (lua_exception KSyntaxError e)) /\
  (r = LUA_ERRFILE -> exists e, thrown res = Some (lua_exception KFileError e)) /\
  (r = LUA_ERRMEM -> thrown res = Some bad_alloc).

Definition outcomes_classified {rt : Runtime} (this : N) (filename chunk : string)
    (len : nat) (chunkname : string) (s : lua_State) : Prop :=
  (forall r s', luaL_loadfile filename s = (r, s') ->
                classified_as r (luamm.loadfile this filename s)) /\
  (forall r s',
     luamm.lua_load {| luamm.rd_s := chunk; luamm.rd_len := len |} chunkname s
     = (r, s') ->
     classified_as r (luamm.loadstring this chunk len chunkname s)).

(** ** A concrete interpreter

    A small runtime on which the bridge can be run, for values without
    metamethods: raw comparisons and table accesses, the concatenation of
    strings and numbers, the traversal of a table, Lua functions that
    raise an error value or return, a chunk loader that knows one
    malformed chunk and one missing file, and three host callables. *)

Module Examples.
Import luamm.

(** The interpreter as [luaL_newstate] returns it: an empty stack, the
    registry at address 0 and the table of globals at address 1. *)
Definition newstate (lim : Z) : lua_State :=
  {| stack := []; upvalues := []; limit := lim;
     heap := <[0%N := OTable ∅ None]> (<[1%N := OTable ∅ None]> ∅);
     next_addr := 2; l_registry := 0; l_gt := 1;
     type_mt := ∅; panic := None; pcalls := 0 |}.

(** A custom exception subtype carrying a code. *)
Definition division_by_zero (code : Z) : cpp_exception :=
  foreign_exception "division_by_zero" 77 code.

(** Host callable 0: divides its two arguments. *)
Definition divide : M Z :=
  let* a := lua_tointeger 1 in
  let* b := lua_tointeger 2 in
  if b =? 0 then throw (division_by_zero a)
  else lua_pushinteger (a / b) ;; ret 1.

(** Host callable 1: fails the way [loadstring] does on a malformed chunk. *)
Definition compile_malformed (L : N) : M Z :=
  lua_pushstring "unexpected symbol near '('" ;;
  throw_exception KSyntaxError L.

(** Host callable 2: fills its frame up to one free slot, then fails. *)
Definition fill_and_fail : M Z :=
  fun s =>
    Throw (division_by_zero 0)
      (set_stack (replicate (Z.to_nat (limit s - 1 - top s)) VNil ++ stack s) s).

(** The Lua functions, by prototype: [error(42, 0)], [error({})],
    [error("boom", 0)] (level 0: the error value is raised as it is, no
    position is put before it), and [function (e) return e end]; any
    other returns nothing. *)
Definition lua_function (proto : N) : M Z :=
  match proto with
  | 1%N => lua_pushinteger 42 ;; lua_error
  | 2%N => lua_newtable ;; lua_error
  | 3%N => lua_pushstring "boom" ;; lua_error
  | 4%N => ret 1
  | _ => ret 0
  end.

Definition exec (fv : value) : M Z :=
  fun s =>
    match fv with
    | VFun a =>
        match heap s !! a with
        | Some (OLClosure proto) => lua_function proto s
        | _ => (lua_pushstring "attempt to call a foreign function" ;; lua_error) s
        end
    | _ => (lua_pushstring "attempt to call a value that is no function" ;; lua_error) s
    end.

(** The string library gives strings a metatable. *)
Definition openlibs : M unit :=
  lua_pushstring EmptyString ;;
  lua_newtable ;;
  lua_setmetatable (-2) ;;
  lua_pop 1.

Definition load_chunk (chunk chunkname : string) (s : lua_State) : Z * lua_State :=
  if String.eqb chunk "function ( end"
  then (LUA_ERRSYNTAX, set_stack (VStr "unexpected symbol near '('" :: stack s) s)
  else
    match (let* a := alloc (OLClosure 0) in push (VFun a)) s with
    | Ok _ s' => (0, s')
    | _ => (LUA_ERRMEM, s)
    end.

Definition loadfile_chunk (filename : string) (s : lua_State) : Z * lua_State :=
  if String.eqb filename "missing.lua"
  then (LUA_ERRFILE, set_stack (VStr "cannot open missing.lua" :: stack s) s)
  else load_chunk "function ( end" filename s.

(** [lua_concat] on values without "__concat": strings and numbers are
    joined from the top downward as [luaV_concat] does, and the first
    operand that is neither raises the error of [luaG_concaterror].  No
    value is for [lua_concat (l, 0)] the empty string, one value is left
    as it is. *)
Definition type_name (v : value) : string :=
  match v with
  | VNil => "nil" | VBool _ => "boolean" | VLight _ => "userdata"
  | VNum _ => "number" | VStr _ => "string" | VTable _ => "table"
  | VFun _ => "function" | VUdata _ => "userdata"
  end.

Definition concat_operand (v : value) : option string :=
  match v with
  | VStr x => Some x
  | VNum n => Some (number2str n)
  | _ => None
  end.

Definition concat_error (v : value) : M unit :=
  lua_pushstring
    (String.append "attempt to concatenate a " (String.append (type_name v) " value")) ;;
  lua_error.

Fixpoint concat_from_top (acc : string) (below : list value) : string + value :=
  match below with
  | [] => inl acc
  | v :: rest =>
      match concat_operand v with
      | Some x => concat_from_top (String.append x acc) rest
      | None => inr v
      end
  end.

Definition concat_values (n : Z) : M unit :=
  fun s =>
    if (n <? 0) || (top s <? n) then Abort
    else if n =? 0 then lua_pushstring EmptyString s
    else if n =? 1 then Ok tt s
    else
      match take (Z.to_nat n) (stack s) with
      | v1 :: v2 :: vs =>
          match concat_operand v2, concat_operand v1 with
          | None, _ => concat_error v2 s
          | Some _, None => concat_error v1 s
          | Some x2, Some x1 =>
              match concat_from_top (String.append x2 x1) vs with
              | inl r => Ok tt (set_stack (VStr r :: drop (Z.to_nat n) (stack s)) s)
              | inr v => concat_error v s
              end
          end
      | _ => Abort
      end.

(** [lua_next]: the key on top is replaced by the entry that follows it
    in the table, or popped when it was the last; nil asks for the first
    entry, and a key the table does not hold is the error of [luaH_next].
    The manual leaves the order of the traversal open; this one takes the
    order of [map_to_list]. *)
Fixpoint entries_after (k : value) (l : list (value * value)) : option (list (value * value)) :=
  match l with
  | [] => None
  | (k', _) :: rest => if decide (k' = k) then Some rest else entries_after k rest
  end.

Definition next_entry (idx : Z) : M Z :=
  fun s =>
    match index2adr s idx, stack s with
    | Some (VTable a), k :: rest =>
        match heap s !! a with
        | Some (OTable t _) =>
            match (if decide (k = VNil) then Some (map_to_list t)
                   else entries_after k (map_to_list t)) with
            | Some ((k', v') :: _) => Ok 1 (set_stack (v' :: k' :: rest) s)
            | Some [] => Ok 0 (set_stack rest s)
            | None => (lua_pushstring "invalid key to 'next'" ;; lua_error) s
            end
        | _ => Abort
        end
    | _, _ => Abort
    end.

(** The interpreter behind the bridge, as far as the examples go: values
    without metamethods.  [lua_equal] is then raw equality, [lua_gettable]
    and [lua_settable] are the raw accesses to a table, [lua_lessthan]
    compares two numbers, and [lua_gc] answers 0 as it does to stop,
    restart or run the collector. *)
Definition runtime (lim : Z) : Runtime :=
  {| lua_concat := concat_values;
     lua_equal := fun a b => let* r := lua_rawequal a b in ret (if r then 1 else 0);
     lua_lessthan := fun a b =>
       let* x := lua_tointeger a in
       let* y := lua_tointeger b in
       ret (if x <? y then 1 else 0);
     lua_gc := fun _ _ => ret 0;
     lua_gettable := lua_rawget;
     lua_settable := lua_rawset;
     lua_next := next_entry;
     luaL_loadfile := loadfile_chunk;
     lua_load_chunk := load_chunk;
     luaL_openlibs := openlibs;
     luaL_newstate := Some (newstate lim);
     lua_exec := exec;
     cpp_functions := fun f L =>
       match f with
       | 0%N => divide
       | 1%N => compile_malformed L
       | _ => fill_and_fail
       end |}.

(** A runtime whose [luaL_newstate] cannot allocate. *)
Definition out_of_memory : Runtime :=
  {| lua_concat := lua_concat (Runtime := runtime 0);
     lua_equal := lua_equal (Runtime := runtime 0);
     lua_lessthan := lua_lessthan (Runtime := runtime 0);
     lua_gc := lua_gc (Runtime := runtime 0);
     lua_gettable := lua_rawget;
     lua_settable := lua_rawset;
     lua_next := lua_next (Runtime := runtime 0);
     luaL_loadfile := loadfile_chunk;
     lua_load_chunk := load_chunk;
     luaL_openlibs := openlibs;
     luaL_newstate := None;
     lua_exec := exec;
     cpp_functions := cpp_functions (Runtime := runtime 0) |}.

(** A runtime whose standard libraries fail to load. *)
Definition broken_libraries : Runtime :=
  {| lua_concat := lua_concat (Runtime := runtime 0);
     lua_equal := lua_equal (Runtime := runtime 0);
     lua_lessthan := lua_lessthan (Runtime := runtime 0);
     lua_gc := lua_gc (Runtime := runtime 0);
     lua_gettable := lua_rawget;
     lua_settable := lua_rawset;
     lua_next := lua_next (Runtime := runtime 0);
     luaL_loadfile := loadfile_chunk;
     lua_load_chunk := load_chunk;
     luaL_openlibs := lua_pushstring "cannot open library" ;; lua_error;
     luaL_newstate := Some (newstate 8000);
     lua_exec := exec;
     cpp_functions := cpp_functions (Runtime := runtime 0) |}.

(** The handle at address 1 and its interpreter, once constructed. *)
Definition this : N := 1.

Definition constructed (lim : Z) : lua_State :=
  match state_ctor (rt := runtime lim) this with
  | Constructed {| cobj := Some s |} => s
  | _ => newstate lim
  end.

Definition L0 : lua_State := Eval vm_compute in constructed 8000.

(** The constructed interpreter with 7999 values on its stack: one slot
    is left. *)
Definition one_slot_left : lua_State := set_stack (replicate (Z.to_nat 7999) VNil) L0.

(** What host code does around the bridge in the scenarios below: the Lua
    function of a prototype pushed as a chunk would push it, the effect of
    [debug.setmetatable (0, {})], a handler that catches [lua::exception]
    and re-raises it into the handle, and [n] pushes of nil. *)
Definition push_lua_function (proto : N) : M unit :=
  let* a := alloc (OLClosure proto) in push (VFun a).

Definition number_metatable : M unit :=
  lua_pushinteger 0 ;;
  lua_newtable ;;
  lua_setmetatable (-2) ;;
  lua_pop 1.

Definition reraise (m : M unit) : M unit :=
  try_catch m
    (fun e => match e with
              | lua_exception _ x => Some (push_lua_error x this)
              | _ => None
              end).

Fixpoint push_nils (n : nat) : M unit :=
  match n with
  | O => ret tt
  | S k => lua_pushnil ;; push_nils k
  end.

(** The interpreter after [m], or as it was if [m] does not return. *)
Definition after (m : M unit) (s : lua_State) : lua_State :=
  match m s with
  | Ok _ s' => s'
  | _ => s
  end.

(** Host callable 0 pushed with the arguments 10 and 0, and with 10 and
    2; host callable 1 pushed without arguments; the numbers 1 and 1, and
    1 and 2. *)
Definition division_call : lua_State :=
  Eval vm_compute in
    after (pushclosure 0 0 ;; lua_pushinteger 10 ;; lua_pushinteger 0) L0.

Definition quotient_call : lua_State :=
  Eval vm_compute in
    after (pushclosure 0 0 ;; lua_pushinteger 10 ;; lua_pushinteger 2) L0.

(** The first call again, above a message handler: the function
    [function (e) return e end], and a function that returns nothing. *)
Definition handled_division_call : lua_State :=
  Eval vm_compute in
    after (push_lua_function 4 ;; pushclosure 0 0 ;;
           lua_pushinteger 10 ;; lua_pushinteger 0) L0.

Definition muted_division_call : lua_State :=
  Eval vm_compute in
    after (push_lua_function 0 ;; pushclosure 0 0 ;;
           lua_pushinteger 10 ;; lua_pushinteger 0) L0.

Definition malformed_call : lua_State :=
  Eval vm_compute in after (pushclosure 1 0) L0.


Definition two_numbers : lua_State :=
  Eval vm_compute in after (lua_pushinteger 1 ;; lua_pushinteger 2) L0.

(** A call that fails with the error value [{}], a table without
    metatable, and a call that fails with the number 42 after numbers were
    given a metatable; the exception of the second is caught and put back
    with [push_lua_error]. *)
Definition failing_call : result unit :=
  (push_lua_function 2 ;; call (rt := runtime 8000) this 0 0 0) L0.

Definition reraised_call : result unit :=
  (number_metatable ;;
   push_lua_function 1 ;;
   reraise (call (rt := runtime 8000) this 0 0 0)) L0.

(** The same without a metatable for numbers. *)
Definition reraised_plain_call : result unit :=
  (push_lua_function 1 ;; reraise (call (rt := runtime 8000) this 0 0 0)) L0.

(** Host callable 0 called with [n] arguments that are all nil: it fails
    with [division_by_zero 0]. *)
Definition divide_nils (n : Z) : M unit :=
  pushclosure 0 0 ;;
  checkstack n ;;
  push_nils (Z.to_nat n) ;;
  call (rt := runtime 8000) this n 0 0.

End Examples.

(** More interpreters built from [L0]: a table with the number 7 above
    it, and the Lua function [error("boom", 0)] pushed without arguments. *)
Module MoreExamples.
Import luamm Examples.

Definition table_and_seven : lua_State :=
  Eval vm_compute in after (lua_newtable ;; lua_pushinteger 7) L0.

Definition failing_function : lua_State :=
  Eval vm_compute in after (push_lua_function 3) L0.

(** The table [{x = 7}], alone on the stack. *)
Definition table_with_x : lua_State :=
  Eval vm_compute in
    after (lua_newtable ;; lua_pushinteger 7 ;; rawsetfield (-2) "x") L0.

End MoreExamples.

Import luamm.

(** * Properties of the bridge *)

(** ** Running a computation step by step *)

Lemma bind_Ok {A B} (m : M A) (k : A -> M B) s a s' :
  m s = Ok a s' -> bind m k s = k a s'.
Proof. intros H. unfold bind. now rewrite H. Qed.

Lemma bind_Throw {A B} (m : M A) (k : A -> M B) s e s' :
  m s = Throw e s' -> bind m k s = Throw e s'.
Proof. intros H. unfold bind. now rewrite H. Qed.

Lemma bind_Error {A B} (m : M A) (k : A -> M B) s st s' :
  m s = Error st s' -> bind m k s = Error st s'.
Proof. intros H. unfold bind. now rewrite H. Qed.

Lemma bind_assoc {A B C} (m : M A) (f : A -> M B) (g : B -> M C) s :
  bind (bind m f) g s = bind m (fun x => bind (f x) g) s.
Proof. unfold bind. now destruct (m s). Qed.

Lemma bind_ret {A B} (a : A) (k : A -> M B) s : bind (ret a) k s = k a s.
Proof. reflexivity. Qed.

Ltac step tac := rewrite ?bind_assoc; erewrite bind_Ok by tac; cbn beta.
Ltac arith := unfold top in *; simpl in *; lia.

Lemma checkstack_ok extra s :
  extra <= limit s -> top s + extra <= limit s -> checkstack extra s = Ok tt s.
Proof.
  intros H1 H2. unfold checkstack, lua_checkstack, bind, get.
  destruct (Z.ltb_spec (limit s) extra); [lia | ].
  destruct (Z.ltb_spec (limit s) (top s + extra)); [lia | ]. reflexivity.
Qed.

Lemma checkstack_full extra s :
  limit s < top s + extra -> checkstack extra s = Throw bad_alloc s.
Proof.
  intros H. unfold checkstack, lua_checkstack, bind, get.
  destruct (Z.ltb_spec (limit s) (top s + extra)); [ | lia].
  now rewrite orb_true_r.
Qed.

Lemma absindex_registry s :
  top s < 10000 -> absindex LUA_REGISTRYINDEX s = Ok LUA_REGISTRYINDEX s.
Proof.
  intros H. unfold absindex, lua_gettop, bind, get, ret, LUA_REGISTRYINDEX.
  destruct (Z.leb_spec (- -10000) (top s)); [lia | ]. reflexivity.
Qed.

Lemma rawgetfield_registry k v s :
  top s + 1 <= limit s -> limit s < 10000 ->
  registry_field s k = Some v ->
  rawgetfield LUA_REGISTRYINDEX k s = Ok tt (set_stack (v :: stack s) s).
Proof.
  intros Hcap Hlim Hreg. unfold rawgetfield.
  step ltac:(apply absindex_registry; lia).
  unfold lua_checkstack. unfold bind at 1. unfold get.
  destruct (Z.ltb_spec (limit s) 1); [arith | ].
  destruct (Z.ltb_spec (limit s) (top s + 1)); [lia | ]. cbn [orb negb].
  unfold bind, ret, lua_pushstring, push, modify, lua_rawget. cbn.
  unfold registry_field, table_at in Hreg.
  destruct (heap s !! l_registry s) as [[t mt | | | ] | ]; try discriminate Hreg.
  cbn in Hreg. injection Hreg as <-. reflexivity.
Qed.

Lemma lua_pop_drop n s :
  0 <= n <= top s ->
  lua_pop n s = Ok tt (set_stack (drop (Z.to_nat n) (stack s)) s).
Proof.
  intros Hn. unfold lua_pop, lua_settop.
  destruct (Z.leb_spec 0 (- n - 1)); [lia | ].
  destruct (Z.leb_spec (- (- n - 1 + 1)) (top s)); [ | lia].
  now replace (- (- n - 1 + 1)) with n by lia.
Qed.

Lemma lua_pop_1 v rest s :
  stack s = v :: rest -> lua_pop 1 s = Ok tt (set_stack rest s).
Proof.
  intros Hs. rewrite lua_pop_drop by (unfold top; rewrite Hs; cbn [length]; lia).
  now rewrite Hs.
Qed.

Lemma lua_pop_2 a b rest s :
  stack s = a :: b :: rest -> lua_pop 2 s = Ok tt (set_stack rest s).
Proof.
  intros Hs. rewrite lua_pop_drop by (unfold top; rewrite Hs; cbn [length]; lia).
  now rewrite Hs.
Qed.

Lemma lua_pop_3 a b c rest s :
  stack s = a :: b :: c :: rest -> lua_pop 3 s = Ok tt (set_stack rest s).
Proof.
  intros Hs. rewrite lua_pop_drop by (unfold top; rewrite Hs; cbn [length]; lia).
  now rewrite Hs.
Qed.

Lemma lua_insert_2 a b rest s :
  stack s = a :: b :: rest -> lua_insert (-2) s = Ok tt (set_stack (b :: a :: rest) s).
Proof.
  intros Hs. unfold lua_insert, stack_slot, top. rewrite Hs. cbn [length].
  change (0 <? -2) with false. change (-2 <? 0) with true. cbn [andb].
  destruct (Z.leb_spec (- -2) (Z.of_nat (S (S (length rest))))); [ | lia]. reflexivity.
Qed.

Lemma lua_replace_2 a b rest s :
  stack s = a :: b :: rest -> lua_replace (-2) s = Ok tt (set_stack (a :: rest) s).
Proof.
  intros Hs. unfold lua_replace, stack_slot, top. rewrite Hs. cbn [length].
  change (0 <? -2) with false. change (-2 <? 0) with true. cbn [andb].
  destruct (Z.leb_spec (- -2) (Z.of_nat (S (S (length rest))))); [ | lia]. reflexivity.
Qed.

Lemma index2adr_top v rest s :
  stack s = v :: rest -> index2adr s (-1) = Some v.
Proof. intros Hs. unfold index2adr. rewrite Hs. reflexivity. Qed.

Lemma index2adr_second a b rest s :
  stack s = a :: b :: rest -> index2adr s (-2) = Some b.
Proof. intros Hs. unfold index2adr. rewrite Hs. reflexivity. Qed.

Lemma index2adr_third a b c rest s :
  stack s = a :: b :: c :: rest -> index2adr s (-3) = Some c.
Proof. intros Hs. unfold index2adr. rewrite Hs. reflexivity. Qed.

(** An absolute index keeps its meaning whatever is pushed above it. *)
Lemma index2adr_absolute above x below s :
  stack s = above ++ x :: below ->
  index2adr s (Z.of_nat (length below) + 1) = Some x.
Proof.
  intros Hs. unfold index2adr, top. rewrite Hs, length_app. cbn [length].
  destruct (Z.ltb_spec 0 (Z.of_nat (length below) + 1)); [ | lia].
  destruct (Z.leb_spec (Z.of_nat (length below) + 1)
              (Z.of_nat (length above + S (length below)))); [ | lia].
  apply list_lookup_middle. lia.
Qed.


Lemma lua_rawgeti_absolute above ns below n tb nmt s :
  stack s = above ++ VTable ns :: below ->
  heap s !! ns = Some (OTable tb nmt) ->
  lua_rawgeti (Z.of_nat (length below) + 1) n s
  = Ok tt (set_stack (table_get tb (VNum n) :: stack s) s).
Proof.
  intros Hs Hh. unfold lua_rawgeti.
  rewrite (index2adr_absolute _ _ _ _ Hs), Hh. reflexivity.
Qed.

Lemma lua_rawseti_absolute v above ns below n tb nmt s :
  stack s = v :: above ++ VTable ns :: below ->
  heap s !! ns = Some (OTable tb nmt) ->
  lua_rawseti (Z.of_nat (length below) + 1) n s
  = Ok tt (set_heap (<[ns := OTable (table_set (VNum n) v tb) nmt]> (heap s))
             (set_stack (above ++ VTable ns :: below) s)).
Proof.
  intros Hs Hh. unfold lua_rawseti.
  rewrite (index2adr_absolute (v :: above) (VTable ns) below s Hs), Hs, Hh.
  reflexivity.
Qed.

Lemma lua_isnil_top v rest s :
  stack s = v :: rest ->
  lua_isnil (-1) s = Ok (bool_decide (v = VNil)) s.
Proof.
  intros Hs. unfold lua_isnil, lua_type, bind, get, ret.
  rewrite (index2adr_top _ _ _ Hs). now destruct v.
Qed.

Lemma luaL_ref_second v ns rest tb nmt s :
  stack s = v :: VTable ns :: rest ->
  v <> VNil ->
  heap s !! ns = Some (OTable tb nmt) ->
  luaL_ref (-2) s
  = Ok (ref_slot tb)
       (set_heap (<[ns := OTable (ref_table v tb) nmt]> (heap s))
          (set_stack (VTable ns :: rest) s)).
Proof.
  intros Hs Hv Hh. unfold luaL_ref.
  unfold abs_index at 1. unfold bind at 1.
  change ((0 <? -2) || (-2 <=? LUA_REGISTRYINDEX)) with false. cbn iota.
  replace (top s + -2 + 1) with (Z.of_nat (length rest) + 1)
    by (unfold top; rewrite Hs; cbn [length]; lia).
  step ltac:(apply (lua_isnil_top _ _ _ Hs)).
  rewrite bool_decide_eq_false_2 by assumption.
  step ltac:(eapply (lua_rawgeti_absolute [v]); [exact Hs | exact Hh]).
  unfold lua_tointeger at 1. unfold bind at 1. unfold get.
  rewrite (index2adr_top (table_get tb (VNum FREELIST_REF)) (stack s)) by reflexivity.
  step ltac:(eapply lua_pop_1; reflexivity).
  change (set_stack _ (set_stack _ s)) with s.
  unfold ref_slot, ref_table.
  destruct (negb (default 0 (tonumber (table_get tb (VNum FREELIST_REF))) =? 0)).
  - step ltac:(eapply (lua_rawgeti_absolute [v]); [exact Hs | exact Hh]).
    step ltac:(eapply (lua_rawseti_absolute _ [v]); [cbn; now rewrite Hs | exact Hh]).
    rewrite bind_ret.
    step ltac:(eapply (lua_rawseti_absolute _ []); [reflexivity | apply lookup_insert_eq]).
    unfold ret. cbn. now rewrite insert_insert_eq.
  - rewrite bind_assoc. unfold lua_objlen at 1. unfold bind at 1. unfold get.
    rewrite (index2adr_absolute [v] (VTable ns) rest s Hs), Hh.
    rewrite bind_ret.
    step ltac:(eapply (lua_rawseti_absolute _ []); [exact Hs | exact Hh]).
    reflexivity.
Qed.

Lemma registry_field_insert s s' na o k :
  heap s' = <[na := o]> (heap s) ->
  l_registry s' = l_registry s ->
  na <> l_registry s ->
  registry_field s' k = registry_field s k.
Proof.
  intros Hh Hr Hne. unfold registry_field, table_at.
  now rewrite Hh, Hr, lookup_insert_ne.
Qed.

(** ** The exception object and its registry slot *)

(** The contrast: a number does convert, and its slot is rewritten. *)
Lemma tostring_number (n : Z) (rest : list value) (s : lua_State) :
  stack s = VNum n :: rest ->
  tostring (-1) s = Ok (number2str n) (set_stack (VStr (number2str n) :: rest) s).
Proof.
  intros Hs. unfold tostring, lua_tolstring, bind, ret, index2adr, store, stack_slot, top.
  rewrite Hs. cbn [length]. simpl (0 <? -1). simpl (LUA_REGISTRYINDEX <? -1).
  simpl (-1 =? 0). simpl (Z.to_nat _). cbn [lookup list_lookup].
  replace (- -1 <=? Z.of_nat (S (length rest))) with true by (symmetry; apply Z.leb_le; lia).
  reflexivity.
Qed.

Lemma get_error_msg_top v rest s :
  stack s = v :: rest ->
  get_error_msg s = Ok (message v) (set_stack (coerced v :: rest) s).
Proof.
  intros Hs. unfold get_error_msg, try_catch.
  destruct v; try (rewrite (tostring_number _ _ _ Hs); reflexivity);
    unfold tostring, lua_tolstring, bind; rewrite (index2adr_top _ _ _ Hs);
    cbn; now rewrite <- Hs.
Qed.

Lemma exception_ctor_top l v rest ns tb nmt s :
  stack s = v :: rest ->
  v <> VNil ->
  top s + 1 <= limit s -> limit s < 10000 ->
  registry_field s lua_exception_namespace = Some (VTable ns) ->
  heap s !! ns = Some (OTable tb nmt) ->
  exception_ctor l s
  = Ok {| what := message v; exc_L := l; exc_key := ref_slot tb |}
       (set_heap (<[ns := OTable (ref_table (coerced v) tb) nmt]> (heap s))
          (set_stack rest s)).
Proof.
  intros Hs Hv Hcap Hlim Hreg Hns. unfold exception_ctor.
  step ltac:(apply (get_error_msg_top _ _ _ Hs)).
  assert (Htop : top (set_stack (coerced v :: rest) s) = top s)
    by (unfold top; cbn; now rewrite Hs).
  step ltac:(apply checkstack_ok; [cbn; arith | rewrite Htop; exact Hcap]).
  step ltac:(apply (rawgetfield_registry _ (VTable ns));
             [rewrite Htop; exact Hcap | exact Hlim | exact Hreg]).
  step ltac:(eapply lua_insert_2; reflexivity).
  step ltac:(eapply luaL_ref_second; [reflexivity | now destruct v | exact Hns]).
  step ltac:(eapply lua_pop_1; reflexivity).
  reflexivity.
Qed.

(** Without a free slot the constructor gives up after it has read the
    message. *)
Lemma exception_ctor_full l v rest s :
  stack s = v :: rest ->
  limit s < top s + 1 ->
  exception_ctor l s = Throw bad_alloc (set_stack (coerced v :: rest) s).
Proof.
  intros Hs Hfull. unfold exception_ctor.
  erewrite bind_Ok by (apply (get_error_msg_top _ _ _ Hs)).
  apply bind_Throw, checkstack_full.
  unfold top in *. rewrite Hs in Hfull. cbn [stack set_stack limit length] in *. lia.
Qed.

Lemma push_lua_error_owner e l ns tb nmt s :
  exc_L e = l ->
  top s + 2 <= limit s -> limit s < 10000 ->
  registry_field s lua_exception_namespace = Some (VTable ns) ->
  heap s !! ns = Some (OTable tb nmt) ->
  push_lua_error e l s
  = Ok tt (set_stack (table_get tb (VNum (exc_key e)) :: stack s) s).
Proof.
  intros Hl Hcap Hlim Hreg Hns. unfold push_lua_error.
  rewrite Hl, N.eqb_refl. cbn [negb].
  step ltac:(apply checkstack_ok; arith).
  step ltac:(apply (rawgetfield_registry _ (VTable ns)); [lia | exact Hlim | exact Hreg]).
  unfold lua_rawgeti at 1. unfold bind at 1.
  rewrite (index2adr_top (VTable ns) (stack s)) by reflexivity.
  cbn [heap set_stack]. rewrite Hns.
  unfold push, modify.
  erewrite lua_replace_2 by reflexivity. reflexivity.
Qed.

Lemma ref_table_slot v tb :
  v <> VNil -> table_get (ref_table v tb) (VNum (ref_slot tb)) = v.
Proof.
  intros Hv. unfold ref_table, ref_slot, table_get.
  destruct (negb (default 0 (tonumber (default VNil (tb !! VNum FREELIST_REF))) =? 0));
    unfold table_set at 1; destruct v; try contradiction;
    now rewrite lookup_insert_eq.
Qed.

(** X19: an exception made of the error value on top and put back with
    [push_lua_error] on its own handle restores the stack, with the
    captured value as [lua_tolstring] left it: the value itself unless it
    was a number, which comes back as its decimal string. *)
Lemma exception_round_trip l v rest ns tb nmt s :
  stack s = v :: rest ->
  v <> VNil ->
  top s + 1 <= limit s -> limit s < 10000 ->
  registry_field s lua_exception_namespace = Some (VTable ns) ->
  heap s !! ns = Some (OTable tb nmt) ->
  ns <> l_registry s ->
  exists s',
    (let* e := exception_ctor l in push_lua_error e l) s = Ok tt s' /\
    stack s' = coerced v :: rest.
Proof.
  intros Hs Hv Hcap Hlim Hreg Hns Hne.
  erewrite bind_Ok by (eapply exception_ctor_top; eassumption).
  erewrite push_lua_error_owner with (ns := ns) (nmt := nmt)
                                     (tb := ref_table (coerced v) tb).
  - eexists. split; [reflexivity | ]. cbn [stack set_stack set_heap exc_key].
    rewrite ref_table_slot by (now destruct v). reflexivity.
  - reflexivity.
  - unfold top in *. rewrite Hs in Hcap. simpl in *. lia.
  - exact Hlim.
  - rewrite <- Hreg. eapply registry_field_insert; [reflexivity | reflexivity | exact Hne].
  - apply lookup_insert_eq.
Qed.

(** ** The protected call *)

Section call.
Context {rt : Runtime}.
Variable this : N.

Lemma call_returns nargs nresults errfunc s s1 :
  lua_pcall nargs nresults errfunc s = Ok 0 s1 ->
  call this nargs nresults errfunc s = Ok tt s1.
Proof. intros H. unfold call. now step ltac:(exact H). Qed.

Lemma call_out_of_memory nargs nresults errfunc s s1 :
  lua_pcall nargs nresults errfunc s = Ok LUA_ERRMEM s1 ->
  call this nargs nresults errfunc s = Throw bad_alloc s1.
Proof. intros H. unfold call. now step ltac:(exact H). Qed.

Lemma lua_getmetatable_second a err rest s :
  stack s = a :: err :: rest ->
  lua_getmetatable (-2) s
  = match metatable_of s err with
    | Some m => Ok true (set_stack (VTable m :: stack s) s)
    | None => Ok false s
    end.
Proof.
  intros Hs. unfold lua_getmetatable. now rewrite (index2adr_second _ _ _ _ Hs).
Qed.

Lemma lua_rawequal_top a b rest s :
  stack s = a :: b :: rest ->
  lua_rawequal (-1) (-2) s = Ok (bool_decide (a = b)) s.
Proof.
  intros Hs. unfold lua_rawequal, get.
  now rewrite (index2adr_top _ _ _ Hs), (index2adr_second _ _ _ _ Hs).
Qed.

Lemma call_classifies nargs nresults errfunc s r s1 err below mt :
  lua_pcall nargs nresults errfunc s = Ok r s1 ->
  r <> 0 -> r <> LUA_ERRMEM ->
  stack s1 = err :: below ->
  top s1 + 3 <= limit s1 -> limit s1 < 10000 ->
  registry_field s1 cpp_exception_metatable = Some (VTable mt) ->
  call this nargs nresults errfunc s
  = match metatable_of s1 err with
    | Some m =>
        if bool_decide (m = mt) then
          (let* b := deref (match err with
                            | VUdata a => Some (PBlock a)
                            | VLight p => Some (PLight p)
                            | _ => None
                            end) in
           match b with
           | BExceptionPtr t => fun _ => Throw t (set_stack below s1)
           | _ => abort
           end) s1
        else throw_exception (raised r) this s1
    | None =>
        throw_exception (raised r) this (set_stack (VTable mt :: err :: below) s1)
    end.
Proof.
  intros Hp Hr0 Hrm Hs Hcap Hlim Hreg. unfold call.
  step ltac:(exact Hp).
  destruct (Z.eqb_spec r 0) as [ | _]; [contradiction | ].
  destruct (Z.eqb_spec r LUA_ERRMEM) as [ | _]; [contradiction | ].
  step ltac:(apply checkstack_ok; arith).
  step ltac:(apply (rawgetfield_registry _ (VTable mt)); [lia | exact Hlim | exact Hreg]).
  rewrite ?bind_assoc. unfold bind at 1.
  rewrite (lua_getmetatable_second (VTable mt) err below) by (cbn; now rewrite Hs).
  change (metatable_of (set_stack _ s1) err) with (metatable_of s1 err).
  destruct (metatable_of s1 err) as [m | ].
  - rewrite ?bind_assoc.
    step ltac:(eapply lua_rawequal_top; reflexivity).
    destruct (decide (m = mt)) as [-> | Hne].
    + rewrite !bool_decide_eq_true_2 by reflexivity.
      rewrite ?bind_assoc. unfold lua_touserdata at 1. unfold bind at 1. unfold get.
      rewrite (index2adr_third (VTable mt) (VTable mt) err below)
        by (cbn; now rewrite Hs).
      rewrite ?bind_assoc. unfold deref, bind. cbn [heap set_stack].
      destruct err as [ | | | | | | | a]; try reflexivity.
      destruct (heap s1 !! a) as [[ | [] | | ] | ]; try reflexivity.
      erewrite lua_pop_3 by (cbn; now rewrite Hs).
      reflexivity.
    + rewrite bool_decide_eq_false_2 by congruence.
      rewrite (bool_decide_eq_false_2 (m = mt)) by assumption.
      step ltac:(eapply lua_pop_2; reflexivity).
      change (set_stack (stack s1) _) with s1.
      unfold raised. now destruct (r =? LUA_ERRERR).
  - rewrite bind_ret. rewrite Hs. unfold raised. now destruct (r =? LUA_ERRERR).
Qed.

Lemma call_rethrows_capture nargs nresults errfunc s r s1 a t below mt :
  lua_pcall nargs nresults errfunc s = Ok r s1 ->
  r <> 0 -> r <> LUA_ERRMEM ->
  stack s1 = VUdata a :: below ->
  heap s1 !! a = Some (OUdata (BExceptionPtr t) (Some mt)) ->
  top s1 + 3 <= limit s1 -> limit s1 < 10000 ->
  registry_field s1 cpp_exception_metatable = Some (VTable mt) ->
  call this nargs nresults errfunc s = Throw t (set_stack below s1).
Proof.
  intros Hp Hr0 Hrm Hs Ha Hcap Hlim Hreg.
  rewrite (call_classifies _ _ _ _ _ _ _ _ _ Hp Hr0 Hrm Hs Hcap Hlim Hreg).
  unfold metatable_of, deref, bind. rewrite Ha.
  now rewrite bool_decide_eq_true_2 by reflexivity.
Qed.

Lemma call_wraps_error_value nargs nresults errfunc s r s1 err below mt m ns tb nmt :
  lua_pcall nargs nresults errfunc s = Ok r s1 ->
  r <> 0 -> r <> LUA_ERRMEM ->
  stack s1 = err :: below ->
  metatable_of s1 err = Some m -> m <> mt -> err <> VNil ->
  top s1 + 3 <= limit s1 -> limit s1 < 10000 ->
  registry_field s1 cpp_exception_metatable = Some (VTable mt) ->
  registry_field s1 lua_exception_namespace = Some (VTable ns) ->
  heap s1 !! ns = Some (OTable tb nmt) ->
  call this nargs nresults errfunc s
  = Throw (lua_exception (raised r)
             {| what := message err; exc_L := this; exc_key := ref_slot tb |})
          (set_heap (<[ns := OTable (ref_table (coerced err) tb) nmt]> (heap s1))
             (set_stack below s1)).
Proof.
  intros Hp Hr0 Hrm Hs Hm Hne Herr Hcap Hlim Hreg Hnsr Hns.
  rewrite (call_classifies _ _ _ _ _ _ _ _ _ Hp Hr0 Hrm Hs Hcap Hlim Hreg).
  rewrite Hm, bool_decide_eq_false_2 by exact Hne.
  unfold throw_exception.
  now erewrite bind_Ok by (eapply exception_ctor_top; try eassumption; lia).
Qed.

(** The defect behind C2 in general: for an error value without
    metatable the exception object captures the private metatable [mt],
    and the error value stays on the stack. *)
Lemma call_without_metatable nargs nresults errfunc s r s1 err below mt ns tb nmt :
  lua_pcall nargs nresults errfunc s = Ok r s1 ->
  r <> 0 -> r <> LUA_ERRMEM ->
  stack s1 = err :: below ->
  metatable_of s1 err = None ->
  top s1 + 3 <= limit s1 -> limit s1 < 10000 ->
  registry_field s1 cpp_exception_metatable = Some (VTable mt) ->
  registry_field s1 lua_exception_namespace = Some (VTable ns) ->
  heap s1 !! ns = Some (OTable tb nmt) ->
  call this nargs nresults errfunc s
  = Throw (lua_exception (raised r)
             {| what := default_msg; exc_L := this; exc_key := ref_slot tb |})
          (set_heap (<[ns := OTable (ref_table (VTable mt) tb) nmt]> (heap s1))
             (set_stack (err :: below) s1)).
Proof.
  intros Hp Hr0 Hrm Hs Hm Hcap Hlim Hreg Hnsr Hns.
  rewrite (call_classifies _ _ _ _ _ _ _ _ _ Hp Hr0 Hrm Hs Hcap Hlim Hreg).
  rewrite Hm. unfold throw_exception.
  erewrite bind_Ok
    by (eapply (exception_ctor_top this (VTable mt) (err :: below));
        [reflexivity | discriminate
        | unfold top in *; rewrite Hs in Hcap; simpl in *; lia
        | exact Hlim | exact Hnsr | exact Hns]).
  reflexivity.
Qed.

Lemma this_object_ok L s :
  top s + 1 <= limit s -> limit s < 10000 ->
  registry_field s this_cpp_object = Some (VLight L) ->
  this_object s = Ok L s.
Proof.
  intros Hcap Hlim Hreg. unfold this_object.
  step ltac:(apply (rawgetfield_registry _ (VLight L)); [lia | exact Hlim | exact Hreg]).
  unfold lua_islightuserdata, lua_type. rewrite ?bind_assoc.
  unfold bind at 1. unfold get.
  rewrite (index2adr_top (VLight L) (stack s)) by reflexivity.
  rewrite bind_ret. cbn [type_tag]. change (2 =? 2) with true.
  unfold assert. rewrite bind_ret.
  unfold lua_touserdata. unfold bind at 1. unfold get.
  rewrite (index2adr_top (VLight L) (stack s)) by reflexivity.
  step ltac:(eapply lua_pop_1; reflexivity).
  reflexivity.
Qed.

Lemma index2adr_upvalue v ups s :
  upvalues s = v :: ups -> index2adr s (lua_upvalueindex 1) = Some v.
Proof. intros Hup. unfold index2adr, lua_upvalueindex. now rewrite Hup. Qed.

Lemma createuserdata_push b s :
  createuserdata b s
  = Ok (next_addr s)
       (set_stack (VUdata (next_addr s) :: stack s)
          (set_next_addr (N.succ (next_addr s))
             (set_heap (<[next_addr s := OUdata b None]> (heap s)) s))).
Proof. reflexivity. Qed.

Lemma lua_setmetatable_second mt a b rest s :
  stack s = VTable mt :: VUdata a :: rest ->
  heap s !! a = Some (OUdata b None) ->
  lua_setmetatable (-2) s
  = Ok tt (set_heap (<[a := OUdata b (Some mt)]> (heap s))
             (set_stack (VUdata a :: rest) s)).
Proof.
  intros Hs Hh. unfold lua_setmetatable.
  rewrite (index2adr_second _ _ _ _ Hs), Hs.
  unfold set_metatable_of. cbn [heap set_stack]. now rewrite Hh.
Qed.

Lemma closure_trampoline_captures L fn ud ups m e mt f s1 :
  upvalues f = VUdata ud :: ups ->
  heap f !! ud = Some (OUdata (BCppFunction fn) m) ->
  registry_field f this_cpp_object = Some (VLight L) ->
  top f + 1 <= limit f -> limit f < 10000 ->
  cpp_functions fn L f = Throw e s1 ->
  is_lua_exception e = false ->
  registry_field s1 cpp_exception_metatable = Some (VTable mt) ->
  next_addr s1 <> l_registry s1 ->
  top s1 + 2 <= limit s1 -> limit s1 < 10000 ->
  closure_trampoline_body f = Error LUA_ERRRUN (with_capture e mt s1).
Proof.
  intros Hup Hud Hthis Hcap Hlim Hcb He Hmt Hfresh Hcap1 Hlim1.
  unfold closure_trampoline_body.
  unfold bind at 1. unfold lua_checkstack at 1. unfold get.
  step ltac:(apply (this_object_ok L); assumption).
  unfold bind at 1. unfold try_catch.
  rewrite ?bind_assoc. unfold lua_touserdata at 1. unfold bind at 1. unfold get.
  rewrite (index2adr_upvalue _ _ _ Hup).
  unfold deref at 1. unfold bind at 1. rewrite Hud.
  unfold bind at 1. rewrite Hcb.
  assert (Hh : match e with
               | lua_exception _ x =>
                   Some (leaving_handler
                           (if (exc_L x =? L)%N then exception_dtor x true else ret ())
                           (push_lua_error x L;; ret None))
               | _ =>
                   Some (createuserdata (BExceptionPtr e);;
                         rawgetfield LUA_REGISTRYINDEX cpp_exception_metatable;;
                         lua_setmetatable (-2);; ret None)
               end
               = Some (createuserdata (BExceptionPtr e);;
                       rawgetfield LUA_REGISTRYINDEX cpp_exception_metatable;;
                       lua_setmetatable (-2);; ret (None : option Z)))
    by (destruct e; [reflexivity .. | discriminate He | reflexivity]).
  rewrite Hh. clear Hh.
  step ltac:(apply createuserdata_push).
  step ltac:(apply (rawgetfield_registry _ (VTable mt));
             [arith | exact Hlim1
             | rewrite <- Hmt; eapply registry_field_insert;
               [reflexivity | reflexivity | exact Hfresh]]).
  step ltac:(eapply lua_setmetatable_second; [reflexivity | apply lookup_insert_eq]).
  unfold ret, lua_error, with_capture. cbn [heap set_heap set_stack set_next_addr].
  rewrite insert_insert_eq. reflexivity.
Qed.

Lemma lua_pcall_error args fv below st nresults s s2 :
  stack s = args ++ fv :: below ->
  callee_body fv (set_pcalls (S (pcalls s)) (set_stack args s)) = Error st s2 ->
  lua_pcall (Z.of_nat (length args)) nresults 0 s
  = Ok st (leave s (error_object st s2 :: below) s2).
Proof.
  intros Hs Hbody. unfold lua_pcall.
  destruct (Z.ltb_spec (Z.of_nat (length args)) 0); [lia | ].
  destruct (Z.ltb_spec (top s) (Z.of_nat (length args) + 1)) as [Hlt | _].
  { unfold top in Hlt. rewrite Hs, length_app in Hlt. cbn [length] in Hlt. lia. }
  cbn [orb]. rewrite Nat2Z.id, Hs, drop_app_length, take_app_length.
  change (0 =? 0) with true. cbn iota.
  now rewrite Hbody.
Qed.

Lemma lua_pcall_returns args fv below n nresults s s1 :
  stack s = args ++ fv :: below ->
  callee_body fv (set_pcalls (S (pcalls s)) (set_stack args s)) = Ok n s1 ->
  0 <= n <= top s1 ->
  lua_pcall (Z.of_nat (length args)) nresults 0 s
  = Ok 0 (leave s (adjust_results nresults n (stack s1) ++ below) s1).
Proof.
  intros Hs Hbody Hn. unfold lua_pcall.
  destruct (Z.ltb_spec (Z.of_nat (length args)) 0); [lia | ].
  destruct (Z.ltb_spec (top s) (Z.of_nat (length args) + 1)) as [Hlt | _].
  { unfold top in Hlt. rewrite Hs, length_app in Hlt. cbn [length] in Hlt. lia. }
  cbn [orb]. rewrite Nat2Z.id, Hs, drop_app_length, take_app_length.
  rewrite Hbody.
  destruct (Z.ltb_spec n 0); [lia | ].
  destruct (Z.ltb_spec (top s1) n); [lia | ]. reflexivity.
Qed.

(** [lua_pcall] on a callee that raised a Lua error, with or without
    message handler. *)
Lemma lua_pcall_handled args fv below st st' v errfunc nresults s s1 s2 :
  stack s = args ++ fv :: below ->
  callee_body fv (set_pcalls (S (pcalls s)) (set_stack args s)) = Error st s1 ->
  handle_error (if errfunc =? 0 then None else index2adr s errfunc) st s1
  = Ok (st', v) s2 ->
  lua_pcall (Z.of_nat (length args)) nresults errfunc s
  = Ok st' (leave s (v :: below) s2).
Proof.
  intros Hs Hbody Hh. unfold lua_pcall.
  destruct (Z.ltb_spec (Z.of_nat (length args)) 0); [lia | ].
  destruct (Z.ltb_spec (top s) (Z.of_nat (length args) + 1)) as [Hlt | _].
  { unfold top in Hlt. rewrite Hs, length_app in Hlt. cbn [length] in Hlt. lia. }
  cbn [orb]. rewrite Nat2Z.id, Hs, drop_app_length, take_app_length.
  rewrite Hbody. cbv zeta. now rewrite Hh.
Qed.

(** C1, amended: a host exception [e] that is not a [lua::exception],
    thrown by a registered callable that [state::call] invokes, is thrown
    again by [state::call] at the call site: the same exception, with its
    type and identity, and the stack is back to what lay below the call.
    The callable sits in a closure of [closure_trampoline]; after it
    threw, the frame has room for the capture and the metatable, the
    caller has room for the three slots the classification uses, and the
    registry still holds the private metatable.  Without message handler
    nothing more is asked (first part).  With one (second part, for every
    [errfunc]), the handler hands back the error value it receives: what
    it leaves to [lua_pcall] is the capture, still tagged. *)
Theorem call_rethrows_host_exception nresults errfunc args a ud ups fn m e mt below s s1 :
  stack s = args ++ VFun a :: below ->
  heap s !! a = Some (OCClosure closure_trampoline (VUdata ud :: ups)) ->
  heap s !! ud = Some (OUdata (BCppFunction fn) m) ->
  registry_field s this_cpp_object = Some (VLight this) ->
  Z.of_nat (length args) + 1 <= limit s -> limit s < 10000 ->
  cpp_functions fn this
    (set_upvalues (VUdata ud :: ups) (set_pcalls (S (pcalls s)) (set_stack args s)))
  = Throw e s1 ->
  is_lua_exception e = false ->
  registry_field s1 cpp_exception_metatable = Some (VTable mt) ->
  next_addr s1 <> l_registry s1 ->
  top s1 + 2 <= limit s1 ->
  limit s1 < 10000 ->
  (Z.of_nat (length below) + 4 <= limit s1 ->
   exists s',
     call this (Z.of_nat (length args)) nresults 0 s = Throw e s' /\ stack s' = below) /\
  (forall s2,
     handle_error (if errfunc =? 0 then None else index2adr s errfunc) LUA_ERRRUN
       (with_capture e mt s1)
     = Ok (LUA_ERRRUN, VUdata (next_addr s1)) s2 ->
     heap s2 !! next_addr s1 = Some (OUdata (BExceptionPtr e) (Some mt)) ->
     registry_field s2 cpp_exception_metatable = Some (VTable mt) ->
     Z.of_nat (length below) + 4 <= limit s2 -> limit s2 < 10000 ->
     exists s',
       call this (Z.of_nat (length args)) nresults errfunc s = Throw e s' /\
       stack s' = below).
Proof.
  intros Hs Ha Hud Hthis Hcap Hlim Hcb He Hmt Hfresh Hcap1 Hlim1.
  assert (Hbody : callee_body (VFun a) (set_pcalls (S (pcalls s)) (set_stack args s))
                  = Error LUA_ERRRUN (with_capture e mt s1)).
  { unfold callee_body. cbn [heap set_pcalls set_stack]. rewrite Ha.
    cbn [cfunction_body].
    apply (closure_trampoline_captures this fn ud ups m e mt); try assumption;
      try reflexivity; arith. }
  assert (Hgen : forall errfunc' s2,
            handle_error (if errfunc' =? 0 then None else index2adr s errfunc') LUA_ERRRUN
              (with_capture e mt s1)
            = Ok (LUA_ERRRUN, VUdata (next_addr s1)) s2 ->
            heap s2 !! next_addr s1 = Some (OUdata (BExceptionPtr e) (Some mt)) ->
            registry_field s2 cpp_exception_metatable = Some (VTable mt) ->
            Z.of_nat (length below) + 4 <= limit s2 -> limit s2 < 10000 ->
            exists s',
              call this (Z.of_nat (length args)) nresults errfunc' s = Throw e s' /\
              stack s' = below).
  { intros errfunc' s2 Hh Hheap Hmt2 Hcap2 Hlim2.
    pose proof (lua_pcall_handled args (VFun a) below LUA_ERRRUN LUA_ERRRUN
                  (VUdata (next_addr s1)) errfunc' nresults s _ s2 Hs Hbody Hh) as Hp.
    rewrite (call_classifies _ _ _ _ _ _ (VUdata (next_addr s1)) below mt Hp);
      try reflexivity; try discriminate; try assumption.
    - unfold metatable_of, leave.
      cbn [heap set_heap set_stack set_upvalues].
      rewrite Hheap, bool_decide_eq_true_2 by reflexivity.
      unfold deref, bind. cbn [heap set_heap set_stack set_upvalues].
      rewrite Hheap. eexists. split; reflexivity.
    - unfold top, leave. cbn [stack limit set_stack set_upvalues length]. lia. }
  split.
  - intros Hcap2.
    apply (Hgen 0 (with_capture e mt s1)).
    + reflexivity.
    + unfold with_capture. cbn [heap set_heap]. apply lookup_insert_eq.
    + rewrite <- Hmt. eapply registry_field_insert; [reflexivity | reflexivity | exact Hfresh].
    + exact Hcap2.
    + exact Hlim1.
  - apply Hgen.
Qed.
End call.

(** ** Re-raising into another handle *)

(** C3: [push_lua_error (l)] on a handle [l] that is not the owner of the
    exception object throws the cross-context error, whatever the state of
    the interpreter of [l], and leaves that interpreter as it was: nothing
    is pushed. *)
Theorem push_lua_error_other_handle (e : exception) (l : N) (s : lua_State) :
  l <> exc_L e ->
  push_lua_error e l s = Throw cross_context_error s.
Proof.
  intros Hne. unfold push_lua_error.
  destruct (N.eqb_spec l (exc_L e)) as [Heq | _]; [contradiction | reflexivity].
Qed.

(** ** String views *)

(** C8: [tostring] on an index whose value is neither a string nor a
    number (so [lua_isstring] answers no) throws [not_string_error] and
    leaves the interpreter exactly as it was: the stack, the inspected
    value and everything else are unchanged. *)
Theorem tostring_not_a_string (index : Z) (s : lua_State) :
  lua_isstring index s = Ok false s ->
  tostring index s = Throw not_string_error s.
Proof.
  unfold lua_isstring, lua_type, tostring, lua_tolstring, bind, get, ret, throw.
  destruct (index2adr s index) as [[] | ]; simpl; intros H;
    try reflexivity; discriminate H.
Qed.

(** ** Comparisons *)

Section comparisons.
Context {rt : Runtime}.
Variable this : N.

Lemma isnone_index2adr (idx : Z) (s : lua_State) :
  lua_isnone idx s = Ok true s <-> index2adr s idx = None.
Proof.
  unfold lua_isnone, lua_type, bind, get, ret.
  destruct (index2adr s idx) as [[] | ]; simpl; split; intros H;
    solve [reflexivity | discriminate H].
Qed.

Lemma safe_compare_none (trampoline : cfunction) (index1 index2 : Z) (s : lua_State) :
  index2adr s index1 = None \/ index2adr s index2 = None ->
  safe_compare this trampoline index1 index2 s = Ok false s.
Proof.
  intros H. unfold safe_compare, lua_isnone, lua_type, bind, get, ret.
  destruct H as [H | H]; rewrite H; simpl.
  - reflexivity.
  - destruct (index2adr s index1) as [v | ]; simpl; [ | reflexivity].
    now destruct (type_tag v =? LUA_TNONE).
Qed.

(** C10: when one of the two indices holds no value, [equal] and
    [lessthan] return false and leave the interpreter exactly as it was:
    the stack is unchanged, no protected call was entered ([pcalls] is the
    same) and nothing is thrown. *)
Theorem compare_none_index (index1 index2 : Z) (s : lua_State) :
  lua_isnone index1 s = Ok true s \/ lua_isnone index2 s = Ok true s ->
  equal this index1 index2 s = Ok false s /\
  lessthan this index1 index2 s = Ok false s.
Proof.
  rewrite !isnone_index2adr. intros H. split.
  - unfold equal, lua_rawequal, bind, get.
    replace (match index2adr s index1 with
             | Some o1 =>
                 match index2adr s index2 with
                 | Some o2 => bool_decide (o1 = o2)
                 | None => false
                 end
             | None => false
             end) with false.
    + now apply safe_compare_none.
    + destruct H as [H | H]; rewrite H; [reflexivity | ].
      now destruct (index2adr s index1).
  - now apply safe_compare_none.
Qed.

End comparisons.

Section protected_compare.
Context {rt : Runtime}.
Variable this : N.

Lemma lua_pushcfunction_push f s :
  lua_pushcfunction f s
  = Ok tt (set_stack (VFun (next_addr s) :: stack s) (with_closure f s)).
Proof.
  unfold lua_pushcfunction, lua_pushcclosure.
  destruct (Z.leb_spec 0 (top s)); [ | arith]. reflexivity.
Qed.

Lemma absindex_absolute idx s : absindex idx s = Ok (absolute idx s) s.
Proof. reflexivity. Qed.

Lemma index2adr_absolute_push idx v above s s' :
  index2adr s idx = Some v ->
  top s < 10000 ->
  stack s' = above ++ stack s ->
  upvalues s' = upvalues s -> l_registry s' = l_registry s -> l_gt s' = l_gt s ->
  index2adr s' (absolute idx s) = Some v.
Proof.
  intros Hv Htop Hs Hup Hreg Hgt. unfold absolute.
  unfold index2adr in Hv. unfold index2adr.
  assert (Htop' : top s' = Z.of_nat (length above) + top s)
    by (unfold top; rewrite Hs, length_app; lia).
  destruct (Z.ltb_spec 0 idx) as [Hpos | Hnpos].
  - destruct (Z.ltb_spec idx 0); [lia | ]. cbn [andb].
    destruct (Z.ltb_spec 0 idx); [ | lia].
    destruct (Z.leb_spec idx (top s)); [ | discriminate Hv].
    destruct (Z.leb_spec idx (top s')); [ | lia].
    rewrite Hs, lookup_app_r by lia. rewrite <- Hv. f_equal. lia.
  - unfold LUA_REGISTRYINDEX in *.
    destruct (Z.ltb_spec (-10000) idx) as [Hstack | Hpseudo].
    + destruct (Z.eqb_spec idx 0); [discriminate Hv | ].
      apply lookup_lt_Some in Hv as Hlt.
      destruct (Z.ltb_spec idx 0); [ | lia].
      destruct (Z.leb_spec (- idx) (top s)); [ | arith]. cbn [andb].
      destruct (Z.ltb_spec 0 (top s + 1 + idx)); [ | lia].
      destruct (Z.leb_spec (top s + 1 + idx) (top s')); [ | lia].
      rewrite Hs, lookup_app_r by lia. rewrite <- Hv. f_equal. lia.
    + destruct (Z.ltb_spec idx 0); [ | lia].
      destruct (Z.leb_spec (- idx) (top s)); [lia | ]. cbn [andb].
      destruct (Z.ltb_spec 0 idx); [lia | ].
      destruct (Z.ltb_spec (-10000) idx); [lia | ].
      now rewrite Hup, Hreg, Hgt.
Qed.


Lemma lua_isnone_some idx v s :
  index2adr s idx = Some v -> lua_isnone idx s = Ok false s.
Proof.
  intros Hv. unfold lua_isnone, lua_type, bind, get, ret. rewrite Hv. now destruct v.
Qed.

Lemma lua_pushvalue_absolute idx v above s s' :
  index2adr s idx = Some v ->
  top s < 10000 ->
  stack s' = above ++ stack s ->
  upvalues s' = upvalues s -> l_registry s' = l_registry s -> l_gt s' = l_gt s ->
  lua_pushvalue (absolute idx s) s' = Ok tt (set_stack (v :: stack s') s').
Proof.
  intros. unfold lua_pushvalue.
  now rewrite (index2adr_absolute_push idx v above s s').
Qed.

Lemma integer_result_top r rest s :
  stack s = VNum r :: rest ->
  integer_result s = Ok r (set_stack rest s).
Proof.
  intros Hs. unfold integer_result.
  unfold lua_isnumber at 1. unfold bind at 1. unfold get.
  rewrite (index2adr_top _ _ _ Hs). cbn [tonumber].
  rewrite bool_decide_eq_true_2 by (now exists r).
  unfold assert. rewrite bind_ret.
  unfold lua_tointeger at 1. unfold bind at 1. unfold get.
  rewrite (index2adr_top _ _ _ Hs). cbn [tonumber default].
  now step ltac:(apply (lua_pop_1 _ _ _ Hs)).
Qed.

Lemma safe_compare_protected c index1 index2 v1 v2 r s f' :
  index2adr s index1 = Some v1 ->
  index2adr s index2 = Some v2 ->
  top s + 3 <= limit s -> limit s < 10000 ->
  compare c 1 2 (compare_frame c v1 v2 s) = Ok r f' ->
  2 <= top f' ->
  safe_compare this (safe_compare_trampoline c) index1 index2 s
  = Ok (negb (r =? 0)) (leave s (stack s) f').
Proof.
  intros Hv1 Hv2 Hcap Hlim Hcmp Htop'. unfold safe_compare.
  step ltac:(apply (lua_isnone_some _ _ _ Hv1)).
  step ltac:(apply (lua_isnone_some _ _ _ Hv2)).
  cbn [orb].
  step ltac:(apply absindex_absolute).
  step ltac:(apply absindex_absolute).
  step ltac:(apply checkstack_ok; arith).
  step ltac:(apply lua_pushcfunction_push).
  step ltac:(apply (lua_pushvalue_absolute index1 v1 [VFun (next_addr s)] s);
             [exact Hv1 | arith | reflexivity ..]).
  step ltac:(apply (lua_pushvalue_absolute index2 v2 [v1; VFun (next_addr s)] s);
             [exact Hv2 | arith | reflexivity ..]).
  set (s1 := set_stack (v2 :: _) _).
  assert (Hbody : callee_body (VFun (next_addr s))
                    (set_pcalls (S (pcalls s1)) (set_stack [v2; v1] s1))
                  = Ok 1 (set_stack (VNum r :: drop 2 (stack f')) f')).
  { unfold callee_body, s1, with_closure.
    cbn [heap set_heap set_stack set_pcalls set_next_addr].
    rewrite lookup_insert_eq. cbn [cfunction_body].
    unfold safe_compare_trampoline_body.
    step ltac:(exact Hcmp).
    step ltac:(apply lua_pop_drop; lia).
    reflexivity. }
  step ltac:(apply call_returns;
             apply (lua_pcall_returns [v2; v1] (VFun (next_addr s)) (stack s) 1 1 s1
                      _ eq_refl Hbody); arith).
  step ltac:(eapply integer_result_top; reflexivity).
  reflexivity.
Qed.


End protected_compare.

(** ** Stack capacity *)

Section capacity.
Context {rt : Runtime}.
Variable this : N.

(** X20: the wrappers that push: when the capacity they ask for first is
    not there, they throw [std::bad_alloc] and the interpreter is
    untouched. *)
Lemma wrappers_check_capacity s :
  (forall n, 0 <= n -> limit s < top s + 1 -> concat this n s = Throw bad_alloc s) /\
  (forall what data, limit s < top s + 3 -> gc this what data s = Throw bad_alloc s) /\
  (forall index, limit s < top s + 2 -> gettable this index s = Throw bad_alloc s) /\
  (forall index k, limit s < top s + 1 -> getfield this index k s = Throw bad_alloc s) /\
  (forall index, limit s < top s + 2 -> settable this index s = Throw bad_alloc s) /\
  (forall index k, limit s < top s + 1 -> setfield this index k s = Throw bad_alloc s) /\
  (forall index, limit s < top s + 2 -> next this index s = Throw bad_alloc s) /\
  (forall fn n, limit s < top s + 2 -> pushclosure fn n s = Throw bad_alloc s) /\
  (forall f index1 index2 v1 v2,
     index2adr s index1 = Some v1 -> index2adr s index2 = Some v2 ->
     limit s < top s + 3 ->
     safe_compare this f index1 index2 s = Throw bad_alloc s).
Proof.
  repeat split; intros.
  - unfold concat. destruct (Z.leb_spec 0 n); [ | lia].
    unfold assert. rewrite bind_ret.
    now apply bind_Throw, checkstack_full.
  - now apply bind_Throw, checkstack_full.
  - now apply bind_Throw, checkstack_full.
  - now apply bind_Throw, checkstack_full.
  - now apply bind_Throw, checkstack_full.
  - now apply bind_Throw, checkstack_full.
  - now apply bind_Throw, checkstack_full.
  - now apply bind_Throw, checkstack_full.
  - unfold safe_compare.
    erewrite bind_Ok by (eapply lua_isnone_some; eassumption).
    erewrite bind_Ok by (eapply lua_isnone_some; eassumption).
    cbn [orb].
    erewrite bind_Ok by apply absindex_absolute.
    erewrite bind_Ok by apply absindex_absolute.
    now apply bind_Throw, checkstack_full.
Qed.

(** [safe_next_trampoline] does not look at the answer of
    [lua_checkstack]: with no room left it pushes all the same. *)
Lemma safe_next_trampoline_pushes_unchecked s r s' :
  lua_next 1 s = Ok r s' ->
  limit s' < top s' + 1 ->
  safe_next_trampoline_body s
  = Ok (if r =? 0 then 1 else 3) (set_stack (VNum r :: stack s') s') /\
  limit s' < top (set_stack (VNum r :: stack s') s').
Proof.
  intros Hnext Hfull. unfold safe_next_trampoline_body.
  erewrite bind_Ok by exact Hnext. split; [reflexivity | arith].
Qed.

End capacity.

(** ** Chunk loading and construction *)

Section construction.
Context {rt : Runtime}.
Variable this : N.

Lemma throw_exception_ready k s :
  capture_ready s ->
  exists e s', throw_exception (A := unit) k this s = Throw (lua_exception k e) s' /\
               exc_L e = this /\ Some (what e) = message <$> head (stack s).
Proof.
  intros (v & rest & ns & tb & nmt & Hs & Hv & Hcap & Hlim & Hreg & Hns).
  unfold throw_exception.
  erewrite bind_Ok by (eapply exception_ctor_top; eassumption).
  eexists _, _. split; [reflexivity | ]. split; [reflexivity | ]. now rewrite Hs.
Qed.

Lemma throw_exception_full k v rest s :
  stack s = v :: rest ->
  limit s < top s + 1 ->
  throw_exception (A := unit) k this s = Throw bad_alloc (set_stack (coerced v :: rest) s).
Proof.
  intros Hs Hfull. unfold throw_exception.
  now apply bind_Throw, exception_ctor_full.
Qed.

(** C7, amended: [loadfile] classifies the status of [luaL_loadfile]: 0
    returns, LUA_ERRSYNTAX raises [lua::syntax_error], LUA_ERRFILE raises
    [lua::file_error], another class, LUA_ERRMEM raises [std::bad_alloc];
    [loadstring] does the same for [lua_load] with 0, LUA_ERRSYNTAX and
    LUA_ERRMEM.  A status outside these stops on the assertion: none is
    passed over.  The two exception classes are built by the constructor
    of [lua::exception], which needs a free slot above the message the
    loader left: on an interpreter that is ready for it the object belongs
    to this handle and carries that message; without the slot the
    constructor throws [std::bad_alloc] in their place. *)
Theorem chunk_loading_outcomes (filename chunk chunkname : string) (len : nat)
    (s : lua_State) :
  (forall r s',
     luaL_loadfile filename s = (r, s') ->
     (r = 0 -> loadfile this filename s = Ok tt s') /\
     (r = LUA_ERRSYNTAX -> capture_ready s' ->
      exists e s'',
        loadfile this filename s = Throw (lua_exception KSyntaxError e) s'' /\
        exc_L e = this /\ Some (what e) = message <$> head (stack s')) /\
     (r = LUA_ERRFILE -> capture_ready s' ->
      exists e s'',
        loadfile this filename s = Throw (lua_exception KFileError e) s'' /\
        exc_L e = this /\ Some (what e) = message <$> head (stack s')) /\
     (r = LUA_ERRSYNTAX \/ r = LUA_ERRFILE ->
      forall v rest, stack s' = v :: rest -> limit s' < top s' + 1 ->
      loadfile this filename s = Throw bad_alloc (set_stack (coerced v :: rest) s')) /\
     (r = LUA_ERRMEM -> loadfile this filename s = Throw bad_alloc s') /\
     (r <> 0 -> r <> LUA_ERRSYNTAX -> r <> LUA_ERRFILE -> r <> LUA_ERRMEM ->
      loadfile this filename s = Abort)) /\
  (forall r s',
     lua_load {| rd_s := chunk; rd_len := len |} chunkname s = (r, s') ->
     (r = 0 -> loadstring this chunk len chunkname s = Ok tt s') /\
     (r = LUA_ERRSYNTAX -> capture_ready s' ->
      exists e s'',
        loadstring this chunk len chunkname s
        = Throw (lua_exception KSyntaxError e) s'' /\
        exc_L e = this /\ Some (what e) = message <$> head (stack s')) /\
     (r = LUA_ERRSYNTAX ->
      forall v rest, stack s' = v :: rest -> limit s' < top s' + 1 ->
      loadstring this chunk len chunkname s
      = Throw bad_alloc (set_stack (coerced v :: rest) s')) /\
     (r = LUA_ERRMEM -> loadstring this chunk len chunkname s = Throw bad_alloc s') /\
     (r <> 0 -> r <> LUA_ERRSYNTAX -> r <> LUA_ERRMEM ->
      loadstring this chunk len chunkname s = Abort)) /\
  (forall e e', lua_exception KFileError e <> lua_exception KSyntaxError e').
Proof.
  split; [ | split]; [intros r s' Hload .. | discriminate].
  - unfold loadfile. rewrite Hload.
    repeat match goal with |- _ /\ _ => split end.
    + now intros ->.
    + intros -> Hready. exact (throw_exception_ready KSyntaxError s' Hready).
    + intros -> Hready. exact (throw_exception_ready KFileError s' Hready).
    + intros [-> | ->] v rest Hs Hfull;
        exact (throw_exception_full _ v rest s' Hs Hfull).
    + now intros ->.
    + intros H0 H1 H2 H3.
      destruct (Z.eqb_spec r 0); [contradiction | ].
      destruct (Z.eqb_spec r LUA_ERRSYNTAX); [contradiction | ].
      destruct (Z.eqb_spec r LUA_ERRFILE); [contradiction | ].
      destruct (Z.eqb_spec r LUA_ERRMEM); [contradiction | ]. reflexivity.
  - unfold loadstring. rewrite Hload.
    repeat match goal with |- _ /\ _ => split end.
    + now intros ->.
    + intros -> Hready. exact (throw_exception_ready KSyntaxError s' Hready).
    + intros -> v rest Hs Hfull. exact (throw_exception_full _ v rest s' Hs Hfull).
    + now intros ->.
    + intros H0 H1 H3.
      destruct (Z.eqb_spec r 0); [contradiction | ].
      destruct (Z.eqb_spec r LUA_ERRSYNTAX); [contradiction | ].
      destruct (Z.eqb_spec r LUA_ERRMEM); [contradiction | ]. reflexivity.
Qed.
Lemma state_ctor_without_interpreter :
  luaL_newstate = None ->
  state_ctor this = Propagates bad_alloc {| valid := true; cobj := None |}.
Proof. intros H. unfold state_ctor. now rewrite H. Qed.

Lemma state_ctor_setup_throws s0 e s :
  luaL_newstate = Some s0 ->
  unprotected (setup this) s0 = Throw e s ->
  state_ctor this = Propagates e {| valid := false; cobj := None |}.
Proof. intros H0 H. unfold state_ctor. now rewrite H0, H. Qed.

Lemma setup_needs_two_slots s0 :
  limit s0 < top s0 + 2 ->
  unprotected (setup this) s0 = Throw bad_alloc (set_panic (Some panic_throw) s0).
Proof.
  intros H. unfold unprotected, setup.
  rewrite bind_Ok with (a := tt) (s' := set_panic (Some panic_throw) s0) by reflexivity.
  now rewrite (bind_Throw _ _ _ bad_alloc (set_panic (Some panic_throw) s0))
    by (apply checkstack_full; exact H).
Qed.

(** C6: when [luaL_newstate] cannot allocate, the constructor throws
    [std::bad_alloc] and no interpreter exists.  When a step of the setup
    fails, by a C++ exception or by a Lua error that reaches
    [panic_throw], the constructor sets the liveness flag to false, closes
    the interpreter and lets the failure go on: the exception the caller
    gets is the one of the step.  Conversely an exception leaves the
    constructor only in these ways, never with an interpreter left open,
    and a handle is constructed only when the whole setup has returned. *)
Theorem state_ctor_failure :
  (luaL_newstate = None ->
   state_ctor this = Propagates bad_alloc {| valid := true; cobj := None |}) /\
  (forall s0 e s,
     luaL_newstate = Some s0 ->
     setup this s0 = Throw e s ->
     state_ctor this = Propagates e {| valid := false; cobj := None |}) /\
  (forall s0 st s1 e s,
     luaL_newstate = Some s0 ->
     setup this s0 = Error st s1 ->
     panic s1 = Some panic_throw ->
     panic_throw_body s1 = Throw e s ->
     state_ctor this = Propagates e {| valid := false; cobj := None |}) /\
  (forall e h,
     state_ctor this = Propagates e h ->
     cobj h = None /\
     match luaL_newstate with
     | None => e = bad_alloc /\ valid h = true
     | Some s0 => valid h = false /\ exists s, unprotected (setup this) s0 = Throw e s
     end) /\
  (forall h,
     state_ctor this = Constructed h ->
     valid h = true /\
     exists s0 s,
       luaL_newstate = Some s0 /\ setup this s0 = Ok tt s /\ cobj h = Some s).
Proof.
  split; [apply state_ctor_without_interpreter | ].
  split.
  { intros s0 e s Hnew Hsetup.
    apply (state_ctor_setup_throws s0 e s Hnew).
    unfold unprotected. now rewrite Hsetup. }
  split.
  { intros s0 st s1 e s Hnew Hsetup Hpanic Hthrow.
    apply (state_ctor_setup_throws s0 e s Hnew).
    unfold unprotected. rewrite Hsetup, Hpanic. cbn [cfunction_body].
    now rewrite Hthrow. }
  split.
  - intros e h. unfold state_ctor.
    destruct luaL_newstate as [s0 | ].
    + destruct (unprotected (setup this) s0) as [ | e' s | | ] eqn:Hrun;
        intros H; try discriminate H.
      injection H as <- <-. split; [reflexivity | ]. split; [reflexivity | ].
      now exists s.
    + intros H. injection H as <- <-. now split.
  - intros h. unfold state_ctor.
    destruct luaL_newstate as [s0 | ]; [ | discriminate].
    destruct (unprotected (setup this) s0) as [[] s | | | ] eqn:Hrun;
      intros H; try discriminate H.
    injection H as <-. split; [reflexivity | ].
    exists s0, s. split; [reflexivity | ]. split; [ | reflexivity].
    unfold unprotected in Hrun.
    destruct (setup this s0) as [[] s' | | st s' | ]; try discriminate Hrun.
    + exact Hrun.
    + destruct (panic s') as [f | ]; [ | discriminate Hrun].
      destruct (cfunction_body VNil f s'); discriminate Hrun.
Qed.

End construction.

(** ** Further properties of the bridge *)

(** *** Indices and raw field access *)

Lemma index2adr_below_top idx v x rest s :
  stack s = v :: rest ->
  index2adr s idx = Some x ->
  top s < 10000 ->
  absolute idx s <> top s ->
  index2adr (set_stack rest s) (absolute idx s) = Some x.
Proof.
  intros Hs Hx Htop Hne. unfold absolute in *.
  unfold index2adr in *. unfold top in *. cbn [stack set_stack].
  rewrite Hs in *. cbn [length] in *.
  destruct (Z.ltb_spec 0 idx) as [Hpos | Hnpos].
  - destruct (Z.ltb_spec idx 0); [lia | ]. cbn [andb] in *.
    destruct (Z.ltb_spec 0 idx); [ | lia].
    destruct (Z.leb_spec idx (Z.of_nat (S (length rest)))); [ | discriminate Hx].
    destruct (Z.leb_spec idx (Z.of_nat (length rest))); [ | lia].
    replace (Z.to_nat (Z.of_nat (S (length rest)) - idx))
      with (S (Z.to_nat (Z.of_nat (length rest) - idx))) in Hx by lia.
    exact Hx.
  - unfold LUA_REGISTRYINDEX in *.
    destruct (Z.ltb_spec (-10000) idx) as [Hstack | Hpseudo].
    + destruct (Z.eqb_spec idx 0); [discriminate Hx | ].
      apply lookup_lt_Some in Hx as Hlt. cbn [length] in Hlt.
      destruct (Z.ltb_spec idx 0); [ | lia].
      destruct (Z.leb_spec (- idx) (Z.of_nat (S (length rest)))); [ | lia].
      cbn [andb] in *.
      destruct (Z.ltb_spec 0 (Z.of_nat (S (length rest)) + 1 + idx)); [ | lia].
      destruct (Z.leb_spec (Z.of_nat (S (length rest)) + 1 + idx)
                  (Z.of_nat (length rest))); [ | lia].
      replace (Z.to_nat (- idx - 1))
        with (S (Z.to_nat (Z.of_nat (length rest)
                           - (Z.of_nat (S (length rest)) + 1 + idx)))) in Hx by lia.
      exact Hx.
    + destruct (Z.ltb_spec idx 0); [ | lia].
      destruct (Z.leb_spec (- idx) (Z.of_nat (S (length rest)))); [lia | ].
      cbn [andb] in *.
      destruct (Z.ltb_spec 0 idx); [lia | ].
      destruct (Z.ltb_spec (-10000) idx); [lia | ].
      exact Hx.
Qed.

Lemma rawgetfield_reads idx k a t mt s :
  index2adr s idx = Some (VTable a) ->
  heap s !! a = Some (OTable t mt) ->
  top s + 1 <= limit s -> limit s < 10000 ->
  rawgetfield idx k s = Ok tt (set_stack (table_get t (VStr k) :: stack s) s).
Proof.
  intros Hidx Hh Hcap Hlim. unfold rawgetfield.
  step ltac:(apply absindex_absolute).
  unfold lua_checkstack. unfold bind at 1. unfold get.
  destruct (Z.ltb_spec (limit s) 1); [arith | ].
  destruct (Z.ltb_spec (limit s) (top s + 1)); [lia | ]. cbn [orb negb].
  rewrite bind_ret.
  unfold lua_pushstring, push, modify. unfold bind at 1.
  unfold lua_rawget.
  rewrite (index2adr_absolute_push idx (VTable a) [VStr k] s) by (try reflexivity; try assumption; lia).
  cbn [stack set_stack heap]. now rewrite Hh.
Qed.

Lemma rawsetfield_writes idx k v rest a t mt s :
  stack s = v :: rest ->
  index2adr s idx = Some (VTable a) ->
  absolute idx s <> top s ->
  heap s !! a = Some (OTable t mt) ->
  top s + 2 <= limit s -> limit s < 10000 ->
  rawsetfield idx k s
  = Ok tt (set_heap (<[a := OTable (table_set (VStr k) v t) mt]> (heap s))
             (set_stack rest s)).
Proof.
  intros Hs Hidx Hne Hh Hcap Hlim. unfold rawsetfield.
  step ltac:(apply absindex_absolute).
  unfold lua_checkstack. unfold bind at 1. unfold get.
  destruct (Z.ltb_spec (limit s) 2); [arith | ].
  destruct (Z.ltb_spec (limit s) (top s + 2)); [lia | ]. cbn [orb negb].
  rewrite bind_ret.
  unfold lua_pushstring, push, modify. unfold bind at 1.
  step ltac:(eapply lua_insert_2; cbn [stack set_stack]; rewrite Hs; reflexivity).
  unfold lua_rawset.
  assert (Hbelow := index2adr_below_top idx v (VTable a) rest s Hs Hidx ltac:(lia) Hne).
  pose proof (index2adr_absolute_push (absolute idx s) (VTable a) [v; VStr k]
                (set_stack rest s)
                (set_stack (v :: VStr k :: rest) (set_stack (VStr k :: stack s) s))
                Hbelow) as Hpush.
  assert (Habs : absolute (absolute idx s) (set_stack rest s) = absolute idx s).
  { unfold absolute at 1. cbn [stack set_stack top].
    unfold absolute in *. unfold top in *. cbn [stack set_stack]. rewrite Hs in *.
    cbn [length] in *.
    destruct (Z.ltb_spec idx 0); destruct (Z.leb_spec (- idx) (Z.of_nat (S (length rest))));
      cbn [andb] in *.
    - destruct (Z.ltb_spec (Z.of_nat (S (length rest)) + 1 + idx) 0); [lia | reflexivity].
    - destruct (Z.ltb_spec idx 0); [ | lia].
      destruct (Z.leb_spec (- idx) (Z.of_nat (length rest))); [lia | reflexivity].
    - destruct (Z.ltb_spec idx 0); [lia | reflexivity].
    - destruct (Z.ltb_spec idx 0); [lia | reflexivity]. }
  rewrite Habs in Hpush.
  rewrite Hpush by (try reflexivity; unfold top in *; cbn [stack set_stack]; rewrite Hs in *;
                    cbn [length] in *; lia).
  cbn [stack set_stack heap]. rewrite Hh. reflexivity.
Qed.

Lemma absolute_not_relative idx v s :
  index2adr s idx = Some v ->
  top s < 10000 ->
  0 < absolute idx s \/ absolute idx s <= LUA_REGISTRYINDEX.
Proof.
  intros Hv Htop.
  unfold absolute, index2adr, LUA_REGISTRYINDEX in *.
  destruct (Z.ltb_spec 0 idx).
  - destruct (Z.ltb_spec idx 0); [lia | ]. cbn [andb]. lia.
  - destruct (Z.ltb_spec (-10000) idx).
    + destruct (Z.eqb_spec idx 0); [discriminate Hv | ].
      apply lookup_lt_Some in Hv.
      destruct (Z.ltb_spec idx 0); [ | lia].
      destruct (Z.leb_spec (- idx) (top s)); [ | arith]. cbn [andb]. lia.
    + destruct (Z.ltb_spec idx 0); [ | lia].
      destruct (Z.leb_spec (- idx) (top s)); [lia | ]. cbn [andb]. lia.
Qed.

Lemma absolute_fixed i s :
  0 < i \/ i <= LUA_REGISTRYINDEX -> top s < 10000 -> absolute i s = i.
Proof.
  intros Hi Htop. unfold absolute, LUA_REGISTRYINDEX in *.
  destruct (Z.ltb_spec i 0); [ | reflexivity].
  destruct (Z.leb_spec (- i) (top s)); [lia | reflexivity].
Qed.

(** *** Construction *)

Lemma push_Ok v s : push v s = Ok tt (set_stack (v :: stack s) s).
Proof. reflexivity. Qed.

Lemma lua_newtable_push s :
  lua_newtable s
  = Ok tt (set_stack (VTable (next_addr s) :: stack s)
             (set_next_addr (N.succ (next_addr s))
                (set_heap (<[next_addr s := OTable ∅ None]> (heap s)) s))).
Proof. reflexivity. Qed.

Lemma lua_pushvalue_top v rest s :
  stack s = v :: rest -> lua_pushvalue (-1) s = Ok tt (set_stack (v :: stack s) s).
Proof.
  intros Hs. unfold lua_pushvalue. now rewrite (index2adr_top _ _ _ Hs).
Qed.

Lemma luaL_newmetatable_creates name reg rmt s :
  heap s !! l_registry s = Some (OTable reg rmt) ->
  reg !! VStr name = None ->
  next_addr s <> l_registry s ->
  luaL_newmetatable name s
  = Ok true
      (set_heap (<[l_registry s := OTable (<[VStr name := VTable (next_addr s)]> reg) rmt]>
                   (<[next_addr s := OTable ∅ None]> (heap s)))
         (set_next_addr (N.succ (next_addr s))
            (set_stack (VTable (next_addr s) :: stack s) s))).
Proof.
  intros Hreg Hname Hfresh. unfold luaL_newmetatable.
  erewrite bind_Ok by apply push_Ok.
  unfold lua_rawget at 1. unfold bind at 1.
  change (index2adr (set_stack (VStr name :: stack s) s) LUA_REGISTRYINDEX)
    with (Some (VTable (l_registry s))).
  cbn [stack set_stack heap]. rewrite Hreg.
  unfold table_get. rewrite Hname. cbn [default].
  erewrite bind_Ok by (eapply lua_isnil_top; reflexivity).
  rewrite bool_decide_eq_true_2 by reflexivity. cbn [negb].
  erewrite bind_Ok by (eapply lua_pop_1; reflexivity).
  erewrite bind_Ok by apply lua_newtable_push.
  erewrite bind_Ok by (eapply lua_pushvalue_top; reflexivity).
  erewrite bind_Ok by apply push_Ok.
  erewrite bind_Ok by (eapply lua_insert_2; reflexivity).
  unfold lua_rawset. unfold bind at 1.
  change (index2adr _ LUA_REGISTRYINDEX) with (Some (VTable (l_registry s))).
  cbn [stack set_stack heap set_heap set_next_addr next_addr].
  rewrite lookup_insert_ne, Hreg by exact Hfresh.
  reflexivity.
Qed.

Lemma table_get_set k v t k' :
  table_get (table_set k v t) k' = if decide (k' = k) then v else table_get t k'.
Proof.
  unfold table_get, table_set.
  destruct (decide (k' = k)) as [-> | Hne].
  - destruct v; rewrite ?lookup_delete_eq, ?lookup_insert_eq; reflexivity.
  - destruct v; rewrite ?lookup_delete_ne, ?lookup_insert_ne by congruence; reflexivity.
Qed.

(** X1: [absindex] turns an index that holds a value into one that is not
    relative to the top (positive, or a pseudo-index) and that denotes the
    same value, now and after any number of pushes. *)
Theorem absindex_keeps_the_slot (idx : Z) (v : value) (above : list value)
    (s : lua_State) :
  index2adr s idx = Some v ->
  top s < 10000 ->
  exists i,
    absindex idx s = Ok i s /\
    (0 < i \/ i <= LUA_REGISTRYINDEX) /\
    index2adr (set_stack (above ++ stack s) s) i = Some v.
Proof.
  intros Hv Htop. exists (absolute idx s). split; [reflexivity | ]. split.
  - now apply (absolute_not_relative idx v).
  - now apply (index2adr_absolute_push idx v above s).
Qed.

(** X2: a field written with [rawsetfield] is read back by [rawgetfield]:
    the value on top is stored under the key and popped, a read of the same
    key pushes that value again (nil for nil, which removes the field),
    and a read of any other key pushes what the table held before.  The
    table is found under the index whatever its metatable. *)
Theorem raw_field_round_trip (idx idx' : Z) (k k' : string) (v : value)
    (rest : list value) (a : N) (t : gmap value value) (mt : option N)
    (s : lua_State) :
  stack s = v :: rest ->
  index2adr s idx = Some (VTable a) ->
  absolute idx s <> top s ->
  index2adr (set_stack rest s) idx' = Some (VTable a) ->
  heap s !! a = Some (OTable t mt) ->
  top s + 2 <= limit s -> limit s < 10000 ->
  exists s',
    (rawsetfield idx k ;; rawgetfield idx' k') s = Ok tt s' /\
    stack s' = (if decide (k' = k) then v else table_get t (VStr k')) :: rest.
Proof.
  intros Hs Hidx Hne Hidx' Hh Hcap Hlim.
  erewrite bind_Ok by (eapply rawsetfield_writes; eassumption).
  erewrite rawgetfield_reads with (a := a);
    [ | exact Hidx' | apply lookup_insert_eq
      | unfold top in *; cbn [stack set_stack set_heap limit];
        rewrite Hs in Hcap; cbn [length] in Hcap; lia
      | exact Hlim].
  eexists. split; [reflexivity | ]. cbn [stack set_stack set_heap].
  rewrite table_get_set. destruct (decide (k' = k)) as [-> | Hk].
  - now rewrite decide_True by reflexivity.
  - now rewrite decide_False by congruence.
Qed.

(** X3: without room both accessors throw [std::bad_alloc] and leave the
    interpreter untouched.  [rawsetfield] asks for two slots although it
    pushes the key only: with exactly one slot left it throws where
    [rawgetfield] still reads. *)
Theorem raw_field_out_of_memory (idx : Z) (k : string) (a : N)
    (t : gmap value value) (mt : option N) (s : lua_State) :
  index2adr s idx = Some (VTable a) ->
  heap s !! a = Some (OTable t mt) ->
  limit s < 10000 ->
  (limit s < top s + 1 -> rawgetfield idx k s = Throw bad_alloc s) /\
  (limit s < top s + 2 -> rawsetfield idx k s = Throw bad_alloc s) /\
  (top s + 1 = limit s ->
   rawsetfield idx k s = Throw bad_alloc s /\
   rawgetfield idx k s = Ok tt (set_stack (table_get t (VStr k) :: stack s) s)).
Proof.
  intros Hidx Hh Hlim.
  assert (Hget : limit s < top s + 1 -> rawgetfield idx k s = Throw bad_alloc s).
  { intros Hfull. unfold rawgetfield.
    erewrite bind_Ok by apply absindex_absolute.
    unfold lua_checkstack. unfold bind at 1. unfold get.
    destruct (Z.ltb_spec (limit s) (top s + 1)); [ | lia].
    now rewrite orb_true_r. }
  assert (Hset : limit s < top s + 2 -> rawsetfield idx k s = Throw bad_alloc s).
  { intros Hfull. unfold rawsetfield.
    erewrite bind_Ok by apply absindex_absolute.
    unfold lua_checkstack. unfold bind at 1. unfold get.
    destruct (Z.ltb_spec (limit s) (top s + 2)); [ | lia].
    now rewrite orb_true_r. }
  split; [exact Hget | ]. split; [exact Hset | ].
  intros Hone. split; [apply Hset; lia | ].
  apply (rawgetfield_reads idx k a t mt); try assumption. lia.
Qed.


Lemma absolute_second a b rest s :
  stack s = a :: b :: rest -> absolute (-2) s = top s - 1.
Proof.
  intros Hs. unfold absolute, top. rewrite Hs. cbn [length].
  change (-2 <? 0) with true.
  destruct (Z.leb_spec (- -2) (Z.of_nat (S (S (length rest))))); [ | lia].
  cbn [andb]. lia.
Qed.

Lemma absolute_registry s :
  top s < 10000 -> absolute LUA_REGISTRYINDEX s = LUA_REGISTRYINDEX.
Proof.
  intros H. unfold absolute, LUA_REGISTRYINDEX.
  destruct (Z.leb_spec (- -10000) (top s)); [lia | ]. reflexivity.
Qed.

(** [rawsetfield (-2, k)] with the table right below the value. *)
Lemma rawsetfield_second k v a rest t mt s :
  stack s = v :: VTable a :: rest ->
  heap s !! a = Some (OTable t mt) ->
  top s + 2 <= limit s -> limit s < 10000 ->
  rawsetfield (-2) k s
  = Ok tt (set_heap (<[a := OTable (table_set (VStr k) v t) mt]> (heap s))
             (set_stack (VTable a :: rest) s)).
Proof.
  intros Hs Hh Hcap Hlim.
  apply (rawsetfield_writes (-2) k v (VTable a :: rest) a t mt s Hs); try assumption.
  - now apply (index2adr_second v (VTable a) rest).
  - rewrite (absolute_second _ _ _ _ Hs). lia.
Qed.

Lemma rawsetfield_registry k v rest reg rmt s :
  stack s = v :: rest ->
  heap s !! l_registry s = Some (OTable reg rmt) ->
  top s + 2 <= limit s -> limit s < 10000 ->
  rawsetfield LUA_REGISTRYINDEX k s
  = Ok tt (set_heap (<[l_registry s := OTable (table_set (VStr k) v reg) rmt]> (heap s))
             (set_stack rest s)).
Proof.
  intros Hs Hh Hcap Hlim.
  apply (rawsetfield_writes LUA_REGISTRYINDEX k v rest (l_registry s) reg rmt s Hs);
    try assumption.
  - reflexivity.
  - rewrite absolute_registry by arith. unfold LUA_REGISTRYINDEX. arith.
Qed.


Ltac norm :=
  cbn [stack upvalues limit heap next_addr l_registry l_gt type_mt panic pcalls
       set_stack set_heap set_next_addr set_panic with_closure].

Ltac heap_lookup :=
  norm; repeat first [rewrite lookup_insert_eq | rewrite lookup_insert_ne by lia].

Ltac room Hs := unfold top; norm; cbn [length]; lia.

Tactic Notation "run" tactic3(tac) := erewrite bind_Ok by tac; norm.

Section interpreter_setup.
Context {rt : Runtime}.
Variable this : N.

(** X4: on a fresh interpreter with room for four values, the body of
    [state::state] runs up to [luaL_openlibs] without failing.  By then
    [panic_throw] is the panic function, the stack is empty again, and the
    registry holds the handle as a light userdata, the metatable of the
    captures with "__tostring", "__metatable" (false) and "__gc", the
    metatable of the callables with "__metatable" (false) and "__gc", and
    an empty table for the error values of the exceptions.  When
    [luaL_openlibs] returns, the constructor is done and the handle is
    valid. *)
Theorem setup_installs_the_bridge (s0 : lua_State) (reg : gmap value value)
    (rmt : option N) :
  stack s0 = [] ->
  heap s0 !! l_registry s0 = Some (OTable reg rmt) ->
  reg !! VStr cpp_exception_metatable = None ->
  reg !! VStr cpp_function_metatable = None ->
  (l_registry s0 < next_addr s0)%N ->
  4 <= limit s0 -> limit s0 < 10000 ->
  exists s1,
    setup this s0 = luaL_openlibs s1 /\
    stack s1 = [] /\
    panic s1 = Some panic_throw /\
    registry_field s1 this_cpp_object = Some (VLight this) /\
    registry_field s1 cpp_exception_metatable = Some (VTable (next_addr s0)) /\
    heap s1 !! next_addr s0
    = Some (OTable (exception_metatable_fields (next_addr s0)) None) /\
    heap s1 !! N.succ (next_addr s0) = Some (OCClosure exception_to_string []) /\
    heap s1 !! N.succ (N.succ (next_addr s0))
    = Some (OCClosure (destructor exception_ptr_t) []) /\
    registry_field s1 cpp_function_metatable
    = Some (VTable (N.succ (N.succ (N.succ (next_addr s0))))) /\
    heap s1 !! N.succ (N.succ (N.succ (next_addr s0)))
    = Some (OTable (function_metatable_fields (N.succ (N.succ (N.succ (next_addr s0)))))
              None) /\
    heap s1 !! N.succ (N.succ (N.succ (N.succ (next_addr s0))))
    = Some (OCClosure (destructor cpp_function_t) []) /\
    registry_field s1 lua_exception_namespace
    = Some (VTable (N.succ (N.succ (N.succ (N.succ (N.succ (next_addr s0))))))) /\
    heap s1 !! N.succ (N.succ (N.succ (N.succ (N.succ (next_addr s0)))))
    = Some (OTable ∅ None) /\
    (luaL_newstate = Some s0 ->
     forall s2, luaL_openlibs s1 = Ok tt s2 ->
       state_ctor this = Constructed {| valid := true; cobj := Some s2 |}).
Proof.
  destruct s0 as [st up lim h na r gt tm pn pc]. norm.
  intros Hs Hreg Hexc Hfun Hfresh Hmin Hlim. subst st.
  eassert (Hsetup : setup this (Build_lua_State [] up lim h na r gt tm pn pc)
                    = luaL_openlibs _).
  { unfold setup, pushdestructor.
    run (reflexivity).
    run (apply checkstack_ok; room Hs).
    run (apply push_Ok).
    run (eapply rawsetfield_registry;
              [reflexivity | exact Hreg | room Hs | exact Hlim]).
    run (eapply luaL_newmetatable_creates;
              [heap_lookup; reflexivity
              | unfold table_set; rewrite lookup_insert_ne by discriminate; exact Hexc
              | norm; lia]).
    run (apply lua_pushcfunction_push).
    run (eapply rawsetfield_second;
              [reflexivity | heap_lookup; reflexivity | room Hs | exact Hlim]).
    run (apply push_Ok).
    run (eapply rawsetfield_second;
              [reflexivity | heap_lookup; reflexivity | room Hs | exact Hlim]).
    run (apply lua_pushcfunction_push).
    run (eapply rawsetfield_second;
              [reflexivity | heap_lookup; reflexivity | room Hs | exact Hlim]).
    run (eapply lua_pop_1; reflexivity).
    run (eapply luaL_newmetatable_creates;
              [heap_lookup; reflexivity
              | unfold table_set; rewrite !lookup_insert_ne by discriminate; exact Hfun
              | norm; lia]).
    run (apply push_Ok).
    run (eapply rawsetfield_second;
              [reflexivity | heap_lookup; reflexivity | room Hs | exact Hlim]).
    run (apply lua_pushcfunction_push).
    run (eapply rawsetfield_second;
              [reflexivity | heap_lookup; reflexivity | room Hs | exact Hlim]).
    run (eapply lua_pop_1; reflexivity).
    run (apply lua_newtable_push).
    run (eapply rawsetfield_registry;
              [reflexivity | heap_lookup; reflexivity | room Hs | exact Hlim]).
    reflexivity. }
  eexists. split; [exact Hsetup | ].
  repeat match goal with |- _ /\ _ => split end;
    [ .. | intros Hnew s2 Hopen; unfold state_ctor, unprotected;
           rewrite Hnew, Hsetup, Hopen; reflexivity ];
    unfold registry_field, table_at, exception_metatable_fields,
      function_metatable_fields, table_set, table_get;
    heap_lookup; try reflexivity;
    cbn [mbind option_bind]; f_equal;
    repeat first [rewrite lookup_insert_eq | rewrite lookup_insert_ne by discriminate];
    reflexivity.
Qed.
End interpreter_setup.

(** *** Errors outside any protected call *)

Lemma bind_never_returns {A B} (m : M A) (k : A -> M B) s :
  (forall a s1, returned (k a s1) = None) -> returned (bind m k s) = None.
Proof. intros Hk. unfold bind. destruct (m s); try reflexivity. apply Hk. Qed.

(** X5: [panic_throw] never returns to the interpreter.  Without a free
    slot it throws [std::bad_alloc] and touches nothing; with one, and an
    error value on top, it throws a [lua::exception] of the base class
    that belongs to the handle found in the registry, carries the message
    of the error value and has moved that value from the stack into the
    table of the exceptions. *)
Theorem panic_throw_raises (s : lua_State) :
  returned (panic_throw_body s) = None /\
  (limit s < top s + 1 -> panic_throw_body s = Throw bad_alloc s) /\
  (forall (L : N) (v : value) (rest : list value) (ns : N)
          (tb : gmap value value) (nmt : option N),
     stack s = v :: rest -> v <> VNil ->
     top s + 1 <= limit s -> limit s < 10000 ->
     registry_field s this_cpp_object = Some (VLight L) ->
     registry_field s lua_exception_namespace = Some (VTable ns) ->
     heap s !! ns = Some (OTable tb nmt) ->
     panic_throw_body s
     = Throw (lua_exception KException
                {| what := message v; exc_L := L; exc_key := ref_slot tb |})
         (set_heap (<[ns := OTable (ref_table (coerced v) tb) nmt]> (heap s))
            (set_stack rest s))).
Proof.
  split; [ | split].
  - unfold panic_throw_body, throw_exception.
    repeat (apply bind_never_returns; intros).
    reflexivity.
  - intros Hfull. unfold panic_throw_body, lua_checkstack.
    unfold bind at 1, get.
    destruct (Z.ltb_spec (limit s) 1) as [ | H1]; [reflexivity | ].
    destruct (Z.ltb_spec (limit s) (top s + 1)); [reflexivity | lia].
  - intros L v rest ns tb nmt Hs Hv Hcap Hlim Hthis Hns Htb.
    unfold panic_throw_body, lua_checkstack.
    unfold bind at 1, get.
    destruct (Z.ltb_spec (limit s) 1) as [ | H1]; [arith | ].
    destruct (Z.ltb_spec (limit s) (top s + 1)); [lia | ].
    cbn [orb negb]. rewrite bind_ret.
    erewrite bind_Ok by (apply this_object_ok; eassumption).
    unfold throw_exception.
    erewrite bind_Ok by (eapply exception_ctor_top; eassumption).
    reflexivity.
Qed.

(** *** Host callables *)

Lemma lua_insert_below v ups rest s :
  stack s = v :: ups ++ rest ->
  lua_insert (- Z.of_nat (length ups) - 1) s = Ok tt (set_stack (ups ++ v :: rest) s).
Proof.
  intros Hs. unfold lua_insert, stack_slot, top. rewrite Hs.
  cbn [length]. rewrite length_app.
  destruct (Z.ltb_spec 0 (- Z.of_nat (length ups) - 1)); [lia | ].
  cbn [andb].
  destruct (Z.ltb_spec (- Z.of_nat (length ups) - 1) 0); [ | lia].
  destruct (Z.leb_spec (- (- Z.of_nat (length ups) - 1))
              (Z.of_nat (S (length ups + length rest)))); [ | lia].
  cbn [andb].
  replace (Z.to_nat (- (- Z.of_nat (length ups) - 1) - 1)) with (length ups) by lia.
  now rewrite take_app_length, drop_app_length.
Qed.

Lemma lua_pushcclosure_takes f ups rest s :
  stack s = ups ++ rest ->
  lua_pushcclosure f (Z.of_nat (length ups)) s
  = Ok tt (set_stack (VFun (next_addr s) :: rest)
             (set_next_addr (N.succ (next_addr s))
                (set_heap (<[next_addr s := OCClosure f (rev ups)]> (heap s)) s))).
Proof.
  intros Hs. unfold lua_pushcclosure, top. rewrite Hs, length_app.
  destruct (Z.leb_spec 0 (Z.of_nat (length ups))); [ | lia].
  destruct (Z.leb_spec (Z.of_nat (length ups)) (Z.of_nat (length ups + length rest)));
    [ | lia].
  cbn [andb]. rewrite Nat2Z.id, take_app_length, drop_app_length.
  reflexivity.
Qed.

(** X6: [pushclosure (fn, n)] replaces the [n] values on top by one
    closure of [closure_trampoline].  Its first upvalue is a new userdata
    that holds [fn] and carries the metatable of the callables; the [n]
    values follow as upvalues 2 to [n + 1], in the order they were pushed.
    Nothing else in the heap changes. *)
Theorem pushclosure_layout (fn : N) (ups rest : list value) (mt : N) (s : lua_State) :
  stack s = ups ++ rest ->
  top s + 2 <= limit s -> limit s < 10000 ->
  registry_field s cpp_function_metatable = Some (VTable mt) ->
  next_addr s <> l_registry s ->
  exists s',
    pushclosure fn (Z.of_nat (length ups)) s = Ok tt s' /\
    stack s' = VFun (N.succ (next_addr s)) :: rest /\
    heap s' !! N.succ (next_addr s)
    = Some (OCClosure closure_trampoline (VUdata (next_addr s) :: rev ups)) /\
    heap s' !! next_addr s = Some (OUdata (BCppFunction fn) (Some mt)) /\
    (forall a, a <> next_addr s -> a <> N.succ (next_addr s) ->
               heap s' !! a = heap s !! a).
Proof.
  intros Hs Hcap Hlim Hmt Hfresh.
  destruct s as [st up lim h na r gt tm pn pc].
  cbn [stack limit next_addr l_registry] in Hs, Hcap, Hlim, Hfresh. subst st.
  eexists. split.
  - unfold pushclosure.
    erewrite bind_Ok by (apply checkstack_ok; arith).
    erewrite bind_Ok by apply createuserdata_push.
    cbn [stack limit heap next_addr l_registry set_stack set_heap set_next_addr].
    erewrite bind_Ok
      by (apply rawgetfield_registry;
          [ unfold top in *; cbn [stack limit length set_stack set_heap set_next_addr] in *; lia
          | exact Hlim
          | erewrite registry_field_insert; [exact Hmt | reflexivity | reflexivity
                                             | exact Hfresh] ]).
    cbn [stack limit heap next_addr l_registry set_stack set_heap set_next_addr].
    erewrite bind_Ok
      by (eapply lua_setmetatable_second;
          [ reflexivity | cbn [heap]; apply lookup_insert_eq ]).
    cbn [stack limit heap next_addr l_registry set_stack set_heap set_next_addr].
    erewrite bind_Ok by (apply lua_insert_below; reflexivity).
    cbn [stack limit heap next_addr l_registry set_stack set_heap set_next_addr].
    replace (Z.of_nat (length ups) + 1) with (Z.of_nat (length (ups ++ [VUdata na])))
      by (rewrite length_app; cbn [length]; lia).
    erewrite lua_pushcclosure_takes
      by (cbn [stack]; rewrite <- app_assoc; reflexivity).
    reflexivity.
  - cbn [stack limit heap next_addr l_registry set_stack set_heap set_next_addr].
    rewrite rev_app_distr. cbn [rev app].
    repeat match goal with |- _ /\ _ => split end.
    + reflexivity.
    + apply lookup_insert_eq.
    + rewrite lookup_insert_ne by lia. rewrite insert_insert_eq. apply lookup_insert_eq.
    + intros a Ha1 Ha2. now rewrite !lookup_insert_ne by congruence.
Qed.

(** *** Releasing the slot of an exception *)

Lemma luaL_unref_top key ns below tb nmt s :
  stack s = VTable ns :: below ->
  heap s !! ns = Some (OTable tb nmt) ->
  0 <= key ->
  luaL_unref (-1) key s
  = Ok tt (set_heap (<[ns := OTable (unref_table key tb) nmt]> (heap s)) s).
Proof.
  intros Hs Hh Hkey. unfold luaL_unref.
  destruct (Z.leb_spec 0 key); [ | lia].
  unfold abs_index. unfold bind at 1.
  change ((0 <? -1) || (-1 <=? LUA_REGISTRYINDEX)) with false. cbn iota.
  replace (top s + -1 + 1) with (Z.of_nat (length below) + 1)
    by (unfold top; rewrite Hs; cbn [length]; lia).
  erewrite bind_Ok by (eapply (lua_rawgeti_absolute []); [exact Hs | exact Hh]).
  erewrite bind_Ok
    by (eapply (lua_rawseti_absolute _ []);
        [cbn [stack set_stack]; rewrite Hs; reflexivity | exact Hh]).
  erewrite bind_Ok by apply push_Ok.
  erewrite (lua_rawseti_absolute _ []);
    [ | cbn [stack heap set_stack set_heap app]; reflexivity
      | cbn [stack heap set_stack set_heap]; apply lookup_insert_eq].
  cbn [stack heap set_stack set_heap app]. rewrite insert_insert_eq.
  unfold unref_table. rewrite <- Hs.
  reflexivity.
Qed.

Lemma exception_dtor_releases e ns tb nmt s :
  0 <= exc_key e ->
  top s + 1 <= limit s -> limit s < 10000 ->
  registry_field s lua_exception_namespace = Some (VTable ns) ->
  heap s !! ns = Some (OTable tb nmt) ->
  exception_dtor e true s
  = Ok tt (set_heap (<[ns := OTable (unref_table (exc_key e) tb) nmt]> (heap s)) s).
Proof.
  intros Hkey Hcap Hlim Hreg Hh. unfold exception_dtor, nothrow. cbn [negb].
  erewrite bind_Ok by (apply checkstack_ok; arith).
  erewrite bind_Ok
    by (apply (rawgetfield_registry _ (VTable ns)); [lia | exact Hlim | exact Hreg]).
  erewrite bind_Ok by (eapply luaL_unref_top; [reflexivity | exact Hh | exact Hkey]).
  erewrite lua_pop_1 by reflexivity.
  reflexivity.
Qed.

(** A slot that was released is the next one handed out. *)
Lemma ref_slot_unref key tb :
  0 < key -> ref_slot (unref_table key tb) = key.
Proof.
  intros Hkey.
  assert (Hfree : table_get (unref_table key tb) (VNum FREELIST_REF) = VNum key).
  { unfold unref_table, table_get. unfold table_set at 1. now rewrite lookup_insert_eq. }
  unfold ref_slot. rewrite Hfree. change (default 0 (tonumber (VNum key))) with key.
  destruct (Z.eqb_spec key 0); [lia | ]. reflexivity.
Qed.

Lemma ref_slot_positive tb :
  0 <= default 0 (tonumber (table_get tb (VNum FREELIST_REF))) -> 0 < ref_slot tb.
Proof.
  intros H. unfold ref_slot.
  destruct (Z.eqb_spec (default 0 (tonumber (table_get tb (VNum FREELIST_REF)))) 0);
    cbn [negb]; [ | lia].
  assert (forall fuel n, n <= border tb fuel n) as Hb.
  { induction fuel as [ | fuel IH]; intros m; cbn [border]; [lia | ].
    destruct (tb !! VNum (m + 1)); [ | lia]. specialize (IH (m + 1)). lia. }
  specialize (Hb (size tb) 0). lia.
Qed.

Lemma push_lua_error_refuses (e : exception) (l : N) (s : lua_State) :
  l <> exc_L e ->
  push_lua_error e l s = Throw cross_context_error s.
Proof.
  intros Hl. unfold push_lua_error.
  destruct (N.eqb_spec l (exc_L e)); [contradiction | ]. reflexivity.
Qed.

Lemma try_catch_caught {A} (body : M A) handler s e s' h :
  body s = Throw e s' -> handler e = Some h -> try_catch body handler s = h s'.
Proof. intros Hb Hh. unfold try_catch. now rewrite Hb, Hh. Qed.

(** *** What a host callable hands back through the trampoline *)

Lemma adjust_results_length wanted n frame :
  0 <= wanted -> 0 <= n <= Z.of_nat (length frame) ->
  Z.of_nat (length (adjust_results wanted n frame)) = wanted.
Proof.
  intros Hw Hn. unfold adjust_results, LUA_MULTRET.
  destruct (Z.eqb_spec wanted (-1)); [lia | ].
  rewrite length_app, length_replicate, length_drop, length_take. lia.
Qed.

Lemma adjust_results_all n frame :
  adjust_results LUA_MULTRET n frame = take (Z.to_nat n) frame.
Proof. reflexivity. Qed.

Lemma adjust_results_exact n frame :
  0 <= n -> adjust_results n n frame = take (Z.to_nat n) frame.
Proof.
  intros Hn. unfold adjust_results, LUA_MULTRET.
  destruct (Z.eqb_spec n (-1)); [lia | ].
  now rewrite Z.sub_diag.
Qed.

Section callbacks.
Context {rt : Runtime}.
Variable this : N.

Lemma closure_trampoline_enters L fn ud ups m f :
  upvalues f = VUdata ud :: ups ->
  heap f !! ud = Some (OUdata (BCppFunction fn) m) ->
  registry_field f this_cpp_object = Some (VLight L) ->
  top f + 1 <= limit f -> limit f < 10000 ->
  closure_trampoline_body f
  = (let* r :=
       try_catch
         (let* n := cpp_functions fn L in ret (Some n))
         (fun e =>
            match e with
            | lua_exception _ x =>
                Some (leaving_handler
                        (if (exc_L x =? L)%N then exception_dtor x true else ret tt)
                        (push_lua_error x L ;; ret None))
            | _ =>
                Some (createuserdata (BExceptionPtr e) ;;
                      rawgetfield LUA_REGISTRYINDEX cpp_exception_metatable ;;
                      lua_setmetatable (-2) ;;
                      ret None)
            end) in
     match r with
     | Some n => ret n
     | None => lua_error
     end) f.
Proof.
  intros Hup Hud Hthis Hcap Hlim.
  unfold closure_trampoline_body.
  unfold bind at 1. unfold lua_checkstack at 1. unfold get.
  step ltac:(apply (this_object_ok L); assumption).
  unfold bind at 1 3. unfold try_catch.
  rewrite ?bind_assoc. unfold lua_touserdata at 1. unfold bind at 1. unfold get.
  rewrite (index2adr_upvalue _ _ _ Hup).
  unfold deref at 1. unfold bind at 1. rewrite Hud.
  reflexivity.
Qed.

(** X7: when the host callable behind a closure of [closure_trampoline]
    returns [n], [state::call] returns normally: the function and its
    arguments are replaced by the results, adjusted to [nresults] (padded
    with nil or cut; all [n] of them for [LUA_MULTRET]), and the heap is
    the one the callable left. *)
Theorem call_delivers_results (nresults : Z) (args : list value) (a ud : N)
    (ups : list value) (fn : N) (m : option N) (n : Z) (below : list value)
    (s s1 : lua_State) :
  stack s = args ++ VFun a :: below ->
  heap s !! a = Some (OCClosure closure_trampoline (VUdata ud :: ups)) ->
  heap s !! ud = Some (OUdata (BCppFunction fn) m) ->
  registry_field s this_cpp_object = Some (VLight this) ->
  Z.of_nat (length args) + 1 <= limit s -> limit s < 10000 ->
  cpp_functions fn this
    (set_upvalues (VUdata ud :: ups) (set_pcalls (S (pcalls s)) (set_stack args s)))
  = Ok n s1 ->
  0 <= n <= top s1 ->
  exists s',
    call this (Z.of_nat (length args)) nresults 0 s = Ok tt s' /\
    stack s' = adjust_results nresults n (stack s1) ++ below /\
    heap s' = heap s1 /\
    upvalues s' = upvalues s /\
    (0 <= nresults -> top s' = nresults + Z.of_nat (length below)) /\
    (nresults = LUA_MULTRET \/ nresults = n ->
     stack s' = take (Z.to_nat n) (stack s1) ++ below).
Proof.
  intros Hs Ha Hud Hthis Hcap Hlim Hcb Hn.
  eexists. split.
  - apply call_returns.
    apply (lua_pcall_returns args (VFun a) below n nresults s s1 Hs); [ | exact Hn].
    unfold callee_body. cbn [heap set_pcalls set_stack]. rewrite Ha.
    cbn [cfunction_body].
    rewrite (closure_trampoline_enters this fn ud ups m)
      by (try assumption; try reflexivity; arith).
    unfold bind at 1. unfold try_catch. unfold bind at 1. rewrite Hcb. reflexivity.
  - unfold leave. cbn [stack heap upvalues set_stack set_upvalues].
    repeat match goal with |- _ /\ _ => split end; try reflexivity.
    + intros Hw. unfold top. cbn [stack set_stack set_upvalues].
      rewrite length_app, Nat2Z.inj_add.
      rewrite adjust_results_length; [reflexivity | exact Hw | exact Hn].
    + intros [-> | ->]; [reflexivity | ].
      now rewrite adjust_results_exact by lia.
Qed.

(** X8: a [lua::exception] thrown by the host callable is not captured
    as a userdata.  When it belongs to the handle of the trampoline, the
    error value it stands for is pushed back and raised as a Lua error,
    and the slot of the exception is released as its handler is left; when
    it belongs to another handle, [push_lua_error] refuses it and the
    [std::runtime_error] leaves the trampoline as a C++ exception. *)
Theorem closure_trampoline_reinjects (L fn ud : N) (ups : list value) (m : option N)
    (k : exception_kind) (x : exception) (f s1 : lua_State) :
  upvalues f = VUdata ud :: ups ->
  heap f !! ud = Some (OUdata (BCppFunction fn) m) ->
  registry_field f this_cpp_object = Some (VLight L) ->
  top f + 1 <= limit f -> limit f < 10000 ->
  cpp_functions fn L f = Throw (lua_exception k x) s1 ->
  (exc_L x <> L -> closure_trampoline_body f = Throw cross_context_error s1) /\
  (forall (ns : N) (tb : gmap value value) (nmt : option N),
     exc_L x = L -> 0 <= exc_key x ->
     top s1 + 2 <= limit s1 -> limit s1 < 10000 ->
     registry_field s1 lua_exception_namespace = Some (VTable ns) ->
     heap s1 !! ns = Some (OTable tb nmt) ->
     closure_trampoline_body f
     = Error LUA_ERRRUN
         (set_heap (<[ns := OTable (unref_table (exc_key x) tb) nmt]> (heap s1))
            (set_stack (table_get tb (VNum (exc_key x)) :: stack s1) s1))).
Proof.
  intros Hup Hud Hthis Hcap Hlim Hcb.
  rewrite (closure_trampoline_enters L fn ud ups m) by assumption.
  assert (Hbody : (let* n := cpp_functions fn L in ret (Some n)) f
                  = Throw (lua_exception k x) s1) by (now apply bind_Throw).
  split.
  - intros Hother.
    apply bind_Throw.
    erewrite try_catch_caught; [ | exact Hbody | reflexivity].
    unfold leaving_handler.
    erewrite bind_Throw by (apply push_lua_error_refuses; congruence).
    destruct (N.eqb_spec (exc_L x) L) as [Heq | _]; [contradiction | ].
    reflexivity.
  - intros ns tb nmt Hown Hkey Hcap1 Hlim1 Hreg Hh.
    erewrite bind_Ok; cycle 1.
    { erewrite try_catch_caught; [ | exact Hbody | reflexivity].
      unfold leaving_handler.
      erewrite bind_Ok by (eapply push_lua_error_owner; eassumption).
      unfold ret at 1. cbv beta iota.
      destruct (N.eqb_spec (exc_L x) L) as [_ | Hne]; [ | contradiction].
      erewrite bind_Ok
        by (eapply exception_dtor_releases;
            [ exact Hkey | arith | exact Hlim1 | exact Hreg | exact Hh ]).
      reflexivity. }
    reflexivity.
Qed.
End callbacks.

(** *** The life of an exception object *)

(** X9: the constructor of [lua::exception] takes the error value off
    the stack into a slot of the table of the exceptions, and the
    destructor puts that slot at the head of the free list: the next
    exception gets the same key.  The free list of the table is assumed
    sound (its head is not negative). *)
Theorem exception_slot_is_recycled (l : N) (v : value) (rest : list value) (ns : N)
    (tb : gmap value value) (nmt : option N) (s : lua_State) :
  stack s = v :: rest ->
  v <> VNil ->
  top s + 1 <= limit s -> limit s < 10000 ->
  registry_field s lua_exception_namespace = Some (VTable ns) ->
  heap s !! ns = Some (OTable tb nmt) ->
  ns <> l_registry s ->
  0 <= default 0 (tonumber (table_get tb (VNum FREELIST_REF))) ->
  exists e s' tb',
    (let* e := exception_ctor l in exception_dtor e true ;; ret e) s = Ok e s' /\
    exc_key e = ref_slot tb /\
    stack s' = rest /\
    heap s' !! ns = Some (OTable tb' nmt) /\
    table_get tb' (VNum FREELIST_REF) = VNum (exc_key e) /\
    ref_slot tb' = exc_key e.
Proof.
  intros Hs Hv Hcap Hlim Hreg Hns Hne Hfree.
  pose proof (ref_slot_positive tb Hfree) as Hpos.
  erewrite bind_Ok by (eapply exception_ctor_top; eassumption).
  erewrite bind_Ok.
  2:{ eapply (exception_dtor_releases _ ns (ref_table (coerced v) tb) nmt).
      - cbn [exc_key]. lia.
      - unfold top in *. rewrite Hs in Hcap. cbn [stack set_stack set_heap limit length] in *.
        lia.
      - exact Hlim.
      - rewrite <- Hreg. eapply registry_field_insert; [reflexivity | reflexivity | exact Hne].
      - apply lookup_insert_eq. }
  do 3 eexists. split; [reflexivity | ].
  cbn [exc_key stack heap set_stack set_heap].
  repeat match goal with |- _ /\ _ => split end.
  - reflexivity.
  - reflexivity.
  - apply lookup_insert_eq.
  - unfold unref_table, table_get. unfold table_set at 1. now rewrite lookup_insert_eq.
  - now apply ref_slot_unref.
Qed.

Lemma luaL_ref_nil ns rest s :
  stack s = VNil :: VTable ns :: rest ->
  luaL_ref (-2) s = Ok LUA_REFNIL (set_stack (VTable ns :: rest) s).
Proof.
  intros Hs. unfold luaL_ref.
  unfold abs_index at 1. unfold bind at 1.
  erewrite bind_Ok by (apply (lua_isnil_top _ _ _ Hs)).
  rewrite bool_decide_eq_true_2 by reflexivity.
  erewrite bind_Ok by (apply (lua_pop_1 _ _ _ Hs)).
  reflexivity.
Qed.

(** X10: an exception made of a nil error value takes no slot: its key is
    [LUA_REFNIL], its message the default one, and only the nil is popped.
    Its destructor changes nothing, and [push_lua_error] pushes what the
    table of the exceptions holds under [LUA_REFNIL]. *)
Theorem exception_of_nil (l : N) (rest : list value) (ns : N) (tb : gmap value value)
    (nmt : option N) (s : lua_State) :
  stack s = VNil :: rest ->
  top s + 1 <= limit s -> limit s < 10000 ->
  registry_field s lua_exception_namespace = Some (VTable ns) ->
  heap s !! ns = Some (OTable tb nmt) ->
  let e := {| what := default_msg; exc_L := l; exc_key := LUA_REFNIL |} in
  exception_ctor l s = Ok e (set_stack rest s) /\
  exception_dtor e true (set_stack rest s) = Ok tt (set_stack rest s) /\
  push_lua_error e l (set_stack rest s)
  = Ok tt (set_stack (table_get tb (VNum LUA_REFNIL) :: rest) s).
Proof.
  intros Hs Hcap Hlim Hreg Hns e.
  assert (Htop : top (set_stack rest s) + 2 <= limit s).
  { unfold top in *. rewrite Hs in Hcap. cbn [stack set_stack length] in *. lia. }
  repeat match goal with |- _ /\ _ => split end.
  - unfold exception_ctor.
    erewrite bind_Ok by (apply (get_error_msg_top _ _ _ Hs)).
    cbn [coerced message].
    erewrite bind_Ok
      by (apply checkstack_ok; unfold top in *; rewrite Hs in Hcap;
          cbn [stack set_stack limit length] in *; lia).
    erewrite bind_Ok
      by (apply (rawgetfield_registry _ (VTable ns));
          [ unfold top in *; rewrite Hs in Hcap;
            cbn [stack set_stack limit length] in *; lia
          | exact Hlim | exact Hreg ]).
    erewrite bind_Ok by (eapply lua_insert_2; reflexivity).
    erewrite bind_Ok by (eapply luaL_ref_nil; reflexivity).
    erewrite bind_Ok by (eapply lua_pop_1; reflexivity).
    reflexivity.
  - unfold exception_dtor, nothrow. cbn [negb].
    erewrite bind_Ok by (apply checkstack_ok; unfold top in *; cbn [stack limit set_stack] in *; lia).
    erewrite bind_Ok
      by (apply (rawgetfield_registry _ (VTable ns));
          [ unfold top in *; cbn [stack limit set_stack] in *; lia | exact Hlim | exact Hreg ]).
    unfold luaL_unref, e. cbn [exc_key].
    change (0 <=? LUA_REFNIL) with false. cbn iota.
    rewrite bind_ret.
    erewrite lua_pop_1 by reflexivity.
    reflexivity.
  - erewrite push_lua_error_owner; [reflexivity | reflexivity | unfold top in *; cbn [stack limit set_stack] in *; lia
                                   | exact Hlim | exact Hreg | exact Hns].
Qed.

(** *** The protected wrappers *)

Section wrappers.
Context {rt : Runtime}.
Variable this : N.

Lemma call_wraps_lua_error nresults args fv below rest' err m mt ns tb nmt s f' :
  stack s = args ++ fv :: below ->
  callee_body fv (set_pcalls (S (pcalls s)) (set_stack args s)) = Error LUA_ERRRUN f' ->
  stack f' = err :: rest' ->
  metatable_of f' err = Some m -> m <> mt -> err <> VNil ->
  Z.of_nat (length below) + 4 <= limit f' -> limit f' < 10000 ->
  registry_field f' cpp_exception_metatable = Some (VTable mt) ->
  registry_field f' lua_exception_namespace = Some (VTable ns) ->
  heap f' !! ns = Some (OTable tb nmt) ->
  call this (Z.of_nat (length args)) nresults 0 s
  = Throw (lua_exception KException
             {| what := message err; exc_L := this; exc_key := ref_slot tb |})
      (set_heap (<[ns := OTable (ref_table (coerced err) tb) nmt]> (heap f'))
         (leave s below f')).
Proof.
  intros Hs Hbody Hf' Hm Hne Herr Hcap Hlim Hmt Hns Htb.
  pose proof (lua_pcall_error args fv below LUA_ERRRUN nresults s f' Hs Hbody) as Hp.
  assert (Hobj : error_object LUA_ERRRUN f' = err)
    by (unfold error_object; rewrite Hf'; reflexivity).
  rewrite Hobj in Hp.
  rewrite (call_wraps_error_value this _ _ _ _ _ _ err below mt m ns tb nmt Hp);
    try assumption; try reflexivity; try discriminate.
  unfold top, leave. cbn [stack limit set_stack set_upvalues length]. lia.
Qed.

(** The callee of a wrapper is the trampoline it pushed. *)
Lemma callee_body_trampoline f args s s1 :
  heap s1 = <[next_addr s := OCClosure f []]> (heap s) ->
  set_pcalls (S (pcalls s1)) (set_stack args s1)
  = set_pcalls (S (pcalls s)) (set_stack args (with_closure f s)) ->
  callee_body (VFun (next_addr s)) (set_pcalls (S (pcalls s1)) (set_stack args s1))
  = cfunction_body (VFun (next_addr s)) f (trampoline_frame f args s).
Proof.
  intros Hh Hf. unfold callee_body. cbn [heap set_pcalls set_stack].
  rewrite Hh, lookup_insert_eq, Hf. reflexivity.
Qed.

(** X12: [state::gc] answers what [lua_gc] answers inside
    [safe_gc_trampoline], which runs in a frame of one more protected call
    with [what] and [data] popped again; the stack of the caller is as
    before. *)
Theorem gc_protected (what data r : Z) (s f' : lua_State) :
  top s + 3 <= limit s -> limit s < 10000 ->
  lua_gc what data (trampoline_frame safe_gc_trampoline [] s) = Ok r f' ->
  gc this what data s = Ok r (leave s (stack s) f').
Proof.
  intros Hcap Hlim Hgc. unfold gc.
  step ltac:(apply checkstack_ok; arith).
  step ltac:(apply lua_pushcfunction_push).
  step ltac:(apply push_Ok).
  step ltac:(apply push_Ok).
  set (s1 := set_stack (VNum data :: _) _).
  assert (Hbody : callee_body (VFun (next_addr s))
                    (set_pcalls (S (pcalls s1)) (set_stack [VNum data; VNum what] s1))
                  = Ok 1 (set_stack (VNum r :: stack f') f')).
  { rewrite (callee_body_trampoline safe_gc_trampoline) by reflexivity.
    cbn [cfunction_body]. unfold safe_gc_trampoline_body.
    unfold lua_tointeger at 1. unfold bind at 1. unfold get.
    erewrite (index2adr_second (VNum data) (VNum what) []) by reflexivity.
    unfold lua_tointeger at 1. unfold bind at 1. unfold get.
    erewrite (index2adr_top (VNum data)) by reflexivity.
    cbn [tonumber default].
    step ltac:(eapply lua_pop_2; reflexivity).
    step ltac:(exact Hgc).
    reflexivity. }
  step ltac:(apply call_returns;
             apply (lua_pcall_returns [VNum data; VNum what] (VFun (next_addr s))
                      (stack s) 1 1 s1 _ eq_refl Hbody); arith).
  erewrite integer_result_top by reflexivity.
  reflexivity.
Qed.


Lemma lua_pushvalue_index idx v s :
  index2adr s idx = Some v ->
  lua_pushvalue idx s = Ok tt (set_stack (v :: stack s) s).
Proof. intros Hv. unfold lua_pushvalue. now rewrite Hv. Qed.

Lemma gettable_protected index t k rest s f' :
  stack s = k :: rest ->
  index2adr s index = Some t ->
  top s + 2 <= limit s -> limit s < 10000 ->
  lua_gettable 1 (trampoline_frame (safe_misc_trampoline lua_gettable_op 1) [k; t] s)
  = Ok tt f' ->
  1 <= top f' ->
  gettable this index s = Ok tt (leave s (take 1 (stack f') ++ rest) f').
Proof.
  intros Hs Ht Hcap Hlim Hget Htop. unfold gettable.
  step ltac:(apply checkstack_ok; arith).
  step ltac:(apply (lua_pushvalue_index _ _ _ Ht)).
  step ltac:(eapply lua_insert_2; cbn [stack set_stack]; rewrite Hs; reflexivity).
  step ltac:(apply lua_pushcfunction_push).
  step ltac:(eapply (lua_insert_below _ [k; t] rest); reflexivity).
  cbn [app stack set_stack with_closure set_heap set_next_addr].
  match goal with |- call _ _ _ _ ?x = _ => set (s1 := x) end.
  assert (Hbody : callee_body (VFun (next_addr s))
                    (set_pcalls (S (pcalls s1)) (set_stack [k; t] s1))
                  = Ok 1 f').
  { rewrite (callee_body_trampoline (safe_misc_trampoline lua_gettable_op 1))
      by reflexivity.
    cbn [cfunction_body]. unfold safe_misc_trampoline_body. cbn [misc].
    step ltac:(exact Hget). reflexivity. }
  rewrite (call_returns this 2 1 0 s1 (leave s1 (adjust_results 1 1 (stack f') ++ rest) f')).
  - reflexivity.
  - apply (lua_pcall_returns [k; t] (VFun (next_addr s)) rest 1 1 s1 f' eq_refl Hbody).
    lia.
Qed.

(** X13: [getfield] pushes the key and lets [gettable] run [lua_gettable]
    inside [safe_misc_trampoline] on the key and the indexed value; the one
    result ends up above the caller's stack.  [getfield] reserves one slot
    and [gettable] two more after the key is pushed: with one or two free
    slots [std::bad_alloc] is thrown and the key stays on the stack. *)
Theorem getfield_protected (index : Z) (k : string) (t : value) (s f' : lua_State) :
  index2adr s index = Some t ->
  limit s < 10000 ->
  (top s + 1 <= limit s -> limit s < top s + 3 ->
   getfield this index k s = Throw bad_alloc (set_stack (VStr k :: stack s) s)) /\
  (top s + 3 <= limit s ->
   lua_gettable 1
     (trampoline_frame (safe_misc_trampoline lua_gettable_op 1) [VStr k; t] s)
   = Ok tt f' ->
   1 <= top f' ->
   getfield this index k s = Ok tt (leave s (take 1 (stack f') ++ stack s) f')).
Proof.
  intros Ht Hlim. split.
  - intros Hone Hfull. unfold getfield.
    step ltac:(apply checkstack_ok; arith).
    step ltac:(apply absindex_absolute).
    step ltac:(apply push_Ok).
    unfold gettable. apply bind_Throw, checkstack_full. arith.
  - intros Hcap Hget Htop. unfold getfield.
    step ltac:(apply checkstack_ok; arith).
    step ltac:(apply absindex_absolute).
    step ltac:(apply push_Ok).
    rewrite (gettable_protected (absolute index s) t (VStr k) (stack s) _ f');
      try reflexivity; try assumption.
    + apply (index2adr_absolute_push index t [VStr k] s); try reflexivity;
        [exact Ht | arith].
    + arith.
Qed.


Lemma settable_protected index t v k rest s f' :
  stack s = v :: k :: rest ->
  index2adr s index = Some t ->
  top s + 2 <= limit s -> limit s < 10000 ->
  lua_settable 1 (trampoline_frame (safe_misc_trampoline lua_settable_op 0) [v; k; t] s)
  = Ok tt f' ->
  settable this index s = Ok tt (leave s rest f').
Proof.
  intros Hs Ht Hcap Hlim Hset. unfold settable.
  step ltac:(apply checkstack_ok; arith).
  step ltac:(apply (lua_pushvalue_index _ _ _ Ht)).
  step ltac:(eapply (lua_insert_below _ [v; k] rest);
             cbn [stack set_stack]; rewrite Hs; reflexivity).
  step ltac:(apply lua_pushcfunction_push).
  step ltac:(eapply (lua_insert_below _ [v; k; t] rest); reflexivity).
  cbn [app stack set_stack with_closure set_heap set_next_addr].
  match goal with |- call _ _ _ _ ?x = _ => set (s1 := x) end.
  assert (Hbody : callee_body (VFun (next_addr s))
                    (set_pcalls (S (pcalls s1)) (set_stack [v; k; t] s1))
                  = Ok 0 f').
  { rewrite (callee_body_trampoline (safe_misc_trampoline lua_settable_op 0))
      by reflexivity.
    cbn [cfunction_body]. unfold safe_misc_trampoline_body. cbn [misc].
    step ltac:(exact Hset). reflexivity. }
  rewrite (call_returns this 3 0 0 s1 (leave s1 (adjust_results 0 0 (stack f') ++ rest) f')).
  - reflexivity.
  - apply (lua_pcall_returns [v; k; t] (VFun (next_addr s)) rest 0 0 s1 f' eq_refl Hbody).
    arith.
Qed.

(** X14: [setfield] slips the key under the value on top and lets
    [settable] run [lua_settable] inside [safe_misc_trampoline] on the
    indexed value, the key and the value; key and value are gone from the
    caller's stack afterwards.  The index must not denote the value on top
    itself.  With one or two free slots [std::bad_alloc] is thrown and the
    key stays on the stack, under the value. *)
Theorem setfield_protected (index : Z) (k : string) (t v : value) (rest : list value)
    (s f' : lua_State) :
  stack s = v :: rest ->
  index2adr s index = Some t ->
  absolute index s <> top s ->
  limit s < 10000 ->
  (top s + 1 <= limit s -> limit s < top s + 3 ->
   setfield this index k s = Throw bad_alloc (set_stack (v :: VStr k :: rest) s)) /\
  (top s + 3 <= limit s ->
   lua_settable 1
     (trampoline_frame (safe_misc_trampoline lua_settable_op 0) [v; VStr k; t] s)
   = Ok tt f' ->
   setfield this index k s = Ok tt (leave s rest f')).
Proof.
  intros Hs Ht Hbelow Hlim. split.
  - intros Hone Hfull. unfold setfield.
    step ltac:(apply checkstack_ok; arith).
    step ltac:(apply absindex_absolute).
    step ltac:(apply push_Ok).
    step ltac:(eapply lua_insert_2; cbn [stack set_stack]; rewrite Hs; reflexivity).
    unfold settable. apply bind_Throw, checkstack_full.
    unfold top in *. rewrite Hs in *. cbn [stack set_stack limit length] in *. lia.
  - intros Hcap Hset. unfold setfield.
    step ltac:(apply checkstack_ok; arith).
    step ltac:(apply absindex_absolute).
    step ltac:(apply push_Ok).
    step ltac:(eapply lua_insert_2; cbn [stack set_stack]; rewrite Hs; reflexivity).
    rewrite (settable_protected (absolute index s) t v (VStr k) rest _ f');
      try reflexivity; try assumption.
    + assert (Htop : top s < 10000) by arith.
      pose proof (index2adr_below_top index v t rest s Hs Ht Htop Hbelow) as Hrest.
      assert (Htop' : top (set_stack rest s) < 10000).
      { unfold top in *. rewrite Hs in *. cbn [stack set_stack limit length] in *. lia. }
      pose proof (absolute_not_relative index t s Ht Htop) as Hfix.
      pose proof (index2adr_absolute_push (absolute index s) t [v; VStr k]
                    (set_stack rest s)
                    (set_stack (v :: VStr k :: rest) (set_stack (VStr k :: stack s) s))
                    Hrest Htop' eq_refl eq_refl eq_refl eq_refl) as Hpush.
      rewrite (absolute_fixed _ _ Hfix Htop') in Hpush. exact Hpush.
    + unfold top in *. rewrite Hs in *. cbn [stack set_stack limit length] in *. lia.
Qed.


(** X15: [state::next] runs [lua_next] inside [safe_next_trampoline] on
    the key and the indexed value and answers whether it returned non-zero.
    If it did, the two values on top of the trampoline's frame (the next
    key and its value) replace the key on the caller's stack; if not, the
    key is popped and nothing is pushed. *)
Theorem next_protected (index r : Z) (t k : value) (rest : list value)
    (s f' : lua_State) :
  stack s = k :: rest ->
  index2adr s index = Some t ->
  top s + 2 <= limit s -> limit s < 10000 ->
  lua_next 1 (trampoline_frame safe_next_trampoline [k; t] s) = Ok r f' ->
  (r <> 0 -> 2 <= top f') ->
  next this index s
  = Ok (negb (r =? 0))
       (leave s (take (if r =? 0 then 0 else 2) (stack f') ++ rest) f').
Proof.
  intros Hs Ht Hcap Hlim Hnext Htop. unfold next.
  step ltac:(apply checkstack_ok; arith).
  step ltac:(apply (lua_pushvalue_index _ _ _ Ht)).
  step ltac:(eapply lua_insert_2; cbn [stack set_stack]; rewrite Hs; reflexivity).
  step ltac:(apply lua_pushcfunction_push).
  step ltac:(eapply (lua_insert_below _ [k; t] rest); reflexivity).
  cbn [app stack set_stack with_closure set_heap set_next_addr].
  match goal with |- bind (call _ _ _ _) _ ?x = _ => set (s1 := x) end.
  assert (Hbody : callee_body (VFun (next_addr s))
                    (set_pcalls (S (pcalls s1)) (set_stack [k; t] s1))
                  = Ok (if r =? 0 then 1 else 3) (set_stack (VNum r :: stack f') f')).
  { rewrite (callee_body_trampoline safe_next_trampoline) by reflexivity.
    cbn [cfunction_body]. unfold safe_next_trampoline_body.
    step ltac:(exact Hnext). reflexivity. }
  step ltac:(apply call_returns;
             apply (lua_pcall_returns [k; t] (VFun (next_addr s)) rest _ LUA_MULTRET s1
                      _ eq_refl Hbody);
             unfold top in *; cbn [stack set_stack length];
             destruct (Z.eqb_spec r 0); [lia | specialize (Htop ltac:(assumption)); lia]).
  rewrite adjust_results_all.
  assert (Hres : take (Z.to_nat (if r =? 0 then 1 else 3)) (VNum r :: stack f')
                 = VNum r :: take (if r =? 0 then 0 else 2) (stack f'))
    by (destruct (r =? 0); reflexivity).
  cbn [stack set_stack]. rewrite Hres.
  erewrite bind_Ok by (eapply integer_result_top; reflexivity).
  reflexivity.
Qed.

(** X16: [state::concat (n)] runs [lua_concat] inside
    [safe_concat_trampoline] on the [n] values on top.  If it returns, the
    value on top of the trampoline's frame replaces them; if it raises a
    Lua error whose value carries a metatable other than the one of the
    captures, a [lua::exception] with the message of that value is thrown
    and the [n] values are gone. *)
Theorem concat_protected (args rest : list value) (s : lua_State) :
  stack s = args ++ rest ->
  top s + 1 <= limit s -> limit s < 10000 ->
  (forall f' : lua_State,
     lua_concat (Z.of_nat (length args))
       (trampoline_frame safe_concat_trampoline args s) = Ok tt f' ->
     1 <= top f' ->
     concat this (Z.of_nat (length args)) s
     = Ok tt (leave s (take 1 (stack f') ++ rest) f')) /\
  (forall (f' : lua_State) (err : value) (rest' : list value) (m mt ns : N)
          (tb : gmap value value) (nmt : option N),
     lua_concat (Z.of_nat (length args))
       (trampoline_frame safe_concat_trampoline args s) = Error LUA_ERRRUN f' ->
     stack f' = err :: rest' ->
     metatable_of f' err = Some m -> m <> mt -> err <> VNil ->
     Z.of_nat (length rest) + 4 <= limit f' -> limit f' < 10000 ->
     registry_field f' cpp_exception_metatable = Some (VTable mt) ->
     registry_field f' lua_exception_namespace = Some (VTable ns) ->
     heap f' !! ns = Some (OTable tb nmt) ->
     concat this (Z.of_nat (length args)) s
     = Throw (lua_exception KException
                {| what := message err; exc_L := this; exc_key := ref_slot tb |})
         (set_heap (<[ns := OTable (ref_table (coerced err) tb) nmt]> (heap f'))
            (leave s rest f'))).
Proof.
  intros Hs Hcap Hlim.
  assert (Hrun : concat this (Z.of_nat (length args)) s
                 = call this (Z.of_nat (length args)) 1 0
                     (set_stack (args ++ VFun (next_addr s) :: rest)
                        (with_closure safe_concat_trampoline s))).
  { unfold concat.
    destruct (Z.leb_spec 0 (Z.of_nat (length args))); [ | lia].
    unfold assert. rewrite bind_ret.
    step ltac:(apply checkstack_ok; arith).
    step ltac:(apply lua_pushcfunction_push).
    step ltac:(eapply (lua_insert_below _ args rest); cbn [stack set_stack];
               rewrite Hs; reflexivity).
    reflexivity. }
  rewrite Hrun.
  set (s1 := set_stack (args ++ VFun (next_addr s) :: rest) _).
  assert (Hbody : callee_body (VFun (next_addr s))
                    (set_pcalls (S (pcalls s1)) (set_stack args s1))
                  = (lua_concat (Z.of_nat (length args)) ;; ret 1)
                      (trampoline_frame safe_concat_trampoline args s)).
  { rewrite (callee_body_trampoline safe_concat_trampoline) by reflexivity.
    reflexivity. }
  split.
  - intros f' Hcat Htop.
    erewrite bind_Ok in Hbody by exact Hcat.
    rewrite (call_returns this _ 1 0 s1
               (leave s1 (adjust_results 1 1 (stack f') ++ rest) f')).
    + reflexivity.
    + apply (lua_pcall_returns args (VFun (next_addr s)) rest 1 1 s1 f' eq_refl Hbody).
      lia.
  - intros f' err rest' m mt ns tb nmt Hcat Hf' Hm Hne Herr Hcap' Hlim' Hmt Hns Htb.
    erewrite bind_Error in Hbody by exact Hcat.
    apply (call_wraps_lua_error 1 args (VFun (next_addr s)) rest rest' err
             m mt ns tb nmt s1 f' eq_refl Hbody); assumption.
Qed.

(** X17: for two indices that hold values, [lessthan] answers what
    [lua_lessthan] answers inside the relational trampoline and leaves the
    stack as it was; a Lua error raised by the comparison (whose value
    carries a metatable other than the one of the captures) arrives as a
    [lua::exception] with its message, and the stack is as it was too. *)
Theorem lessthan_protected (index1 index2 : Z) (v1 v2 : value) (s : lua_State) :
  index2adr s index1 = Some v1 ->
  index2adr s index2 = Some v2 ->
  top s + 3 <= limit s -> limit s < 10000 ->
  (forall (r : Z) (f' : lua_State),
     lua_lessthan 1 2 (trampoline_frame (safe_compare_trampoline lua_lessthan_op)
                         [v2; v1] s) = Ok r f' ->
     2 <= top f' ->
     lessthan this index1 index2 s = Ok (negb (r =? 0)) (leave s (stack s) f')) /\
  (forall (f' : lua_State) (err : value) (rest' : list value) (m mt ns : N)
          (tb : gmap value value) (nmt : option N),
     lua_lessthan 1 2 (trampoline_frame (safe_compare_trampoline lua_lessthan_op)
                         [v2; v1] s) = Error LUA_ERRRUN f' ->
     stack f' = err :: rest' ->
     metatable_of f' err = Some m -> m <> mt -> err <> VNil ->
     top s + 4 <= limit f' -> limit f' < 10000 ->
     registry_field f' cpp_exception_metatable = Some (VTable mt) ->
     registry_field f' lua_exception_namespace = Some (VTable ns) ->
     heap f' !! ns = Some (OTable tb nmt) ->
     lessthan this index1 index2 s
     = Throw (lua_exception KException
                {| what := message err; exc_L := this; exc_key := ref_slot tb |})
         (set_heap (<[ns := OTable (ref_table (coerced err) tb) nmt]> (heap f'))
            (leave s (stack s) f'))).
Proof.
  intros Hv1 Hv2 Hcap Hlim. split.
  - intros r f' Hcmp Htop.
    now apply (safe_compare_protected this lua_lessthan_op index1 index2 v1 v2).
  - intros f' err rest' m mt ns tb nmt Hcmp Hf' Hm Hne Herr Hcap' Hlim' Hmt Hns Htb.
    unfold lessthan, safe_compare.
    step ltac:(apply (lua_isnone_some _ _ _ Hv1)).
    step ltac:(apply (lua_isnone_some _ _ _ Hv2)).
    cbn [orb].
    step ltac:(apply absindex_absolute).
    step ltac:(apply absindex_absolute).
    step ltac:(apply checkstack_ok; arith).
    step ltac:(apply lua_pushcfunction_push).
    step ltac:(apply (lua_pushvalue_absolute index1 v1 [VFun (next_addr s)] s);
               [exact Hv1 | arith | reflexivity ..]).
    step ltac:(apply (lua_pushvalue_absolute index2 v2 [v1; VFun (next_addr s)] s);
               [exact Hv2 | arith | reflexivity ..]).
    cbn [app stack set_stack with_closure set_heap set_next_addr].
    match goal with |- bind (call _ _ _ _) _ ?x = _ => set (s1 := x) end.
    assert (Hbody : callee_body (VFun (next_addr s))
                      (set_pcalls (S (pcalls s1)) (set_stack [v2; v1] s1))
                    = Error LUA_ERRRUN f').
    { rewrite (callee_body_trampoline (safe_compare_trampoline lua_lessthan_op))
        by reflexivity.
      cbn [cfunction_body]. unfold safe_compare_trampoline_body. cbn [compare].
      now apply bind_Error. }
    apply bind_Throw.
    apply (call_wraps_lua_error 1 [v2; v1] (VFun (next_addr s)) (stack s) rest' err
             m mt ns tb nmt s1 f' eq_refl Hbody); assumption.
Qed.

End wrappers.

(** *** Lua errors at the call site, and chunks from memory *)

Section raised_errors.
Context {rt : Runtime}.
Variable this : N.

(** X11: a Lua error raised inside [state::call] without message handler,
    with an error value that carries a metatable other than the one of
    the captures, is thrown at the call site as a [lua::exception] of the
    base class.  The exception belongs to the calling handle, its message
    is the one of the error value, the function and its arguments are gone
    from the stack, and the table of the exceptions holds the error value
    (as [lua_tolstring] left it) under the key of the exception. *)
Theorem call_raises (nresults : Z) (args : list value) (fv : value)
    (below rest' : list value) (err : value) (m mt ns : N) (tb : gmap value value)
    (nmt : option N) (s f' : lua_State) :
  stack s = args ++ fv :: below ->
  callee_body fv (set_pcalls (S (pcalls s)) (set_stack args s)) = Error LUA_ERRRUN f' ->
  stack f' = err :: rest' ->
  metatable_of f' err = Some m -> m <> mt -> err <> VNil ->
  Z.of_nat (length below) + 4 <= limit f' -> limit f' < 10000 ->
  registry_field f' cpp_exception_metatable = Some (VTable mt) ->
  registry_field f' lua_exception_namespace = Some (VTable ns) ->
  heap f' !! ns = Some (OTable tb nmt) ->
  ns <> l_registry f' ->
  exists e s',
    call this (Z.of_nat (length args)) nresults 0 s
    = Throw (lua_exception KException e) s' /\
    what e = message err /\
    exc_L e = this /\
    stack s' = below /\
    upvalues s' = upvalues s /\
    captured_value s' e = Some (coerced err).
Proof.
  intros Hs Hbody Hf' Hm Hne Herr Hcap Hlim Hmt Hns Htb Hreg.
  do 2 eexists. split.
  - eapply (call_wraps_lua_error this); eassumption.
  - cbn [what exc_L exc_key].
    repeat match goal with |- _ /\ _ => split end; try reflexivity.
    unfold captured_value.
    erewrite registry_field_insert with (s := f');
      [ | reflexivity | reflexivity | exact Hreg ].
    rewrite Hns. unfold table_at. cbn [heap set_heap]. rewrite lookup_insert_eq.
    cbn [mbind option_bind mret option_ret].
    rewrite ref_table_slot; [reflexivity | now destruct err].
Qed.

(** X18: [loadstring (s, len, chunkname)] hands the interpreter exactly
    the first [len] characters of [s]: [string_reader] delivers them in one
    piece and sets the length to zero, so that its second call delivers the
    empty piece that ends the chunk.  The outcome of the load is then
    classified as by [loadfile]. *)
Theorem loadstring_passes_the_prefix (chunk : string) (len : nat) (chunkname : string)
    (s : lua_State) :
  read_chunk 2 {| rd_s := chunk; rd_len := len |} = String.substring 0 len chunk /\
  snd (string_reader (snd (string_reader {| rd_s := chunk; rd_len := len |})))
  = {| rd_s := chunk; rd_len := 0 |} /\
  fst (string_reader (snd (string_reader {| rd_s := chunk; rd_len := len |})))
  = EmptyString /\
  loadstring this chunk len chunkname s
  = (let (r, s') := lua_load_chunk (String.substring 0 len chunk) chunkname s in
     (if r =? 0 then ret tt
      else if r =? LUA_ERRSYNTAX then throw_exception KSyntaxError this
      else if r =? LUA_ERRMEM then throw bad_alloc
      else assert false) s').
Proof.
  assert (Hempty : forall x, String.substring 0 0 x = EmptyString)
    by (intros x; now destruct x).
  assert (Happ : forall x, String.append x EmptyString = x).
  { induction x as [ | c x IH]; [reflexivity | ].
    change (String c (String.append x EmptyString) = String c x). now rewrite IH. }
  assert (Hdrained : forall x, read_chunk 1 {| rd_s := x; rd_len := 0 |} = EmptyString).
  { intros x. cbn [read_chunk string_reader rd_s rd_len]. now rewrite Hempty. }
  assert (Hread : read_chunk 2 {| rd_s := chunk; rd_len := len |}
                  = String.substring 0 len chunk).
  { change (read_chunk 2 {| rd_s := chunk; rd_len := len |})
      with (match String.substring 0 len chunk with
            | EmptyString => EmptyString
            | _ => String.append (String.substring 0 len chunk)
                     (read_chunk 1 {| rd_s := chunk; rd_len := 0 |})
            end).
    rewrite Hdrained, Happ. now destruct (String.substring 0 len chunk). }
  repeat match goal with |- _ /\ _ => split end.
  - exact Hread.
  - reflexivity.
  - cbn [string_reader snd fst rd_s rd_len]. apply Hempty.
  - unfold loadstring, lua_load. now rewrite Hread.
Qed.

End raised_errors.

(** *** Conversion to a string *)

Lemma index2adr_store idx n w s :
  index2adr s idx = Some (VNum n) ->
  top s < 10000 ->
  index2adr (store idx w s) idx = Some w.
Proof.
  intros Hv Htop. unfold store, stack_slot.
  unfold index2adr in Hv.
  unfold LUA_REGISTRYINDEX, LUA_ENVIRONINDEX, LUA_GLOBALSINDEX in *.
  destruct (Z.ltb_spec 0 idx) as [Hpos | Hnpos].
  - destruct (Z.leb_spec idx (top s)) as [Hle | ]; [ | discriminate Hv].
    cbn [andb]. unfold index2adr, top in *. cbn [stack set_stack].
    rewrite length_insert.
    destruct (Z.ltb_spec 0 idx); [ | lia].
    destruct (Z.leb_spec idx (Z.of_nat (length (stack s)))); [ | lia].
    apply list_lookup_insert_eq. apply lookup_lt_Some in Hv. exact Hv.
  - cbn [andb].
    destruct (Z.ltb_spec (-10000) idx) as [Hstack | Hpseudo].
    + destruct (Z.eqb_spec idx 0); [discriminate Hv | ].
      apply lookup_lt_Some in Hv as Hlt.
      destruct (Z.ltb_spec idx 0); [ | lia].
      destruct (Z.leb_spec (- idx) (top s)); [ | unfold top in *; lia].
      cbn [andb]. unfold index2adr, top, LUA_REGISTRYINDEX. cbn [stack set_stack].
      destruct (Z.ltb_spec 0 idx); [lia | ].
      destruct (Z.ltb_spec (-10000) idx); [ | lia].
      destruct (Z.eqb_spec idx 0); [lia | ].
      now apply list_lookup_insert_eq.
    + destruct (Z.eqb_spec idx (-10000)); [discriminate Hv | ].
      destruct (Z.eqb_spec idx (-10001)); [discriminate Hv | ].
      destruct (Z.eqb_spec idx (-10002)); [discriminate Hv | ].
      apply lookup_lt_Some in Hv as Hlt.
      destruct (Z.ltb_spec idx 0); [ | lia].
      destruct (Z.leb_spec (- idx) (top s)); [lia | ].
      cbn [andb].
      destruct (Z.ltb_spec idx (-10002)); [ | lia].
      unfold index2adr, LUA_REGISTRYINDEX, LUA_ENVIRONINDEX, LUA_GLOBALSINDEX.
      cbn [stack upvalues set_upvalues].
      destruct (Z.ltb_spec 0 idx); [lia | ].
      destruct (Z.ltb_spec (-10000) idx); [lia | ].
      destruct (Z.eqb_spec idx (-10000)); [lia | ].
      destruct (Z.eqb_spec idx (-10001)); [lia | ].
      destruct (Z.eqb_spec idx (-10002)); [lia | ].
      now apply list_lookup_insert_eq.
Qed.

(** X21: a successful [tostring] leaves a string in the slot it looked at
    (a number is converted in place, whatever the index) and is
    idempotent: asked again, it returns the same string and changes
    nothing. *)
Theorem tostring_leaves_a_string (index : Z) (x : string) (s s' : lua_State) :
  top s < 10000 ->
  tostring index s = Ok x s' ->
  index2adr s' index = Some (VStr x) /\
  tostring index s' = Ok x s' /\
  (s' = s \/ exists n, index2adr s index = Some (VNum n) /\ x = number2str n).
Proof.
  intros Htop. unfold tostring, lua_tolstring. unfold bind at 1.
  destruct (index2adr s index) as [v | ] eqn:Hv; [ | discriminate].
  destruct v; try discriminate.
  - intros H. injection H as <- <-.
    assert (Hstored : index2adr (store index (VStr (number2str n)) s) index
                      = Some (VStr (number2str n)))
      by (now apply (index2adr_store index n)).
    split; [exact Hstored | ]. split.
    + unfold bind. now rewrite Hstored.
    + right. now exists n.
  - intros H. injection H as <- <-.
    split; [exact Hv | ]. split.
    + unfold bind. now rewrite Hv.
    + now left.
Qed.

(** ** Scenarios on the concrete interpreter *)

Import Examples.

(** The division of the specification: 10 by 2 returns 5, 10 by 0 throws
    the custom exception with its payload. *)
Example division_through_the_bridge :
  (stack <$> final (call (rt := runtime 8000) this 2 1 0 quotient_call))
  = Some [VNum 5] /\
  thrown (call (rt := runtime 8000) this 2 1 0 quotient_call) = None /\
  thrown (call (rt := runtime 8000) this 2 1 0 division_call)
  = Some (division_by_zero 10).
Proof. repeat split; vm_compute; reflexivity. Qed.

(** C2, on a failing input: a protected call that fails with an error
    value without metatable (the table at address 10, raised by
    [error ({})]).  [state::call] raises an exception object, but what that
    object captured is not the error value: its message is the default
    one, its registry slot holds the private metatable of the
    host-exception captures (the table at address 2), and the error value
    is still on the stack. *)
Theorem call_wraps_private_metatable :
  thrown failing_call
  = Some (lua_exception KException
            {| what := "Unknown lua exception"; exc_L := this; exc_key := 1 |}) /\
  (stack <$> final failing_call) = Some [VTable 10] /\
  (s ← final failing_call; heap s !! 10%N) = Some (OTable ∅ None) /\
  (s ← final failing_call;
   captured_value s {| what := "Unknown lua exception"; exc_L := this; exc_key := 1 |})
  = Some (VTable 2) /\
  (s ← final failing_call; registry_field s cpp_exception_metatable) = Some (VTable 2).
Proof. repeat split; vm_compute; reflexivity. Qed.

(** C4, on a failing input: a protected call fails with the number 42,
    the exception object is caught and put back with [push_lua_error] on
    the same handle.  When numbers carry a metatable, what arrives on top
    of the stack is the string "42", which the interpreter does not hold
    equal to the number 42: [lua_tolstring] rewrote the slot before it was
    stored.  When they carry none, what arrives is the private metatable
    of the host-exception captures (the table at address 2), on top of the
    error value that never left the stack. *)
Theorem reraised_number_is_a_string :
  (stack <$> final reraised_call) = Some [VStr "42"] /\
  (s ← final reraised_call;
   returned ((lua_pushinteger 42 ;; lua_rawequal (-1) (-2)) s)) = Some false /\
  (stack <$> final reraised_plain_call) = Some [VTable 2; VNum 42] /\
  (s ← final reraised_plain_call; registry_field s cpp_exception_metatable)
  = Some (VTable 2).
Proof. repeat split; vm_compute; reflexivity. Qed.

(** C5, on a failing input: host callable 0 is called with 7999 arguments
    on an interpreter whose frames hold 8000 values.  In the frame of the
    trampoline [lua_checkstack (l, 2)] fails; the trampoline goes on, the
    callable throws [division_by_zero], the capture is pushed all the
    same, and the exception that reaches the caller is [std::bad_alloc],
    raised half way by [rawgetfield]; it leaves the frame of the
    trampoline behind, full, with the capture on top.  With one argument
    less the exception of the callable arrives intact. *)
Theorem closure_trampoline_ignores_failed_check :
  (s ← callee_frame 7999 (after (pushclosure 0 0 ;; push_nils (Z.to_nat 7999)) L0);
   Some (top s, limit s, returned (lua_checkstack 2 s)))
  = Some (7999, 8000, Some false) /\
  (s ← callee_frame 7999 (after (pushclosure 0 0 ;; push_nils (Z.to_nat 7999)) L0);
   thrown (cpp_functions (Runtime := runtime 8000) 0 this s))
  = Some (division_by_zero 0) /\
  thrown (divide_nils 7999 L0) = Some bad_alloc /\
  (s ← final (divide_nils 7999 L0); Some (take 2 (stack s), top s))
  = Some ([VUdata 11; VNil], 8000) /\
  thrown (divide_nils 7998 L0) = Some (division_by_zero 0).
Proof. repeat split; vm_compute; reflexivity. Qed.

(** ** The theorems at concrete inputs *)

Ltac compute_le := vm_compute; intros H; discriminate H.

Lemma push_lua_error_other_handle_witness :
  2%N <> exc_L {| what := "boom"; exc_L := this; exc_key := 1 |} /\
  push_lua_error {| what := "boom"; exc_L := this; exc_key := 1 |} 2 L0
  = Throw cross_context_error L0.
Proof.
  split; [discriminate | ].
  apply (push_lua_error_other_handle {| what := "boom"; exc_L := this; exc_key := 1 |} 2 L0).
  discriminate.
Defined.

Lemma tostring_not_a_string_witness :
  lua_isstring (-1) (after lua_newtable L0) = Ok false (after lua_newtable L0) /\
  tostring (-1) (after lua_newtable L0) = Throw not_string_error (after lua_newtable L0).
Proof.
  split; [reflexivity | ].
  apply (tostring_not_a_string (-1) (after lua_newtable L0)).
  reflexivity.
Defined.

Lemma compare_none_index_witness :
  lua_isnone 5 two_numbers = Ok true two_numbers /\
  equal (rt := runtime 8000) this (-1) 5 two_numbers = Ok false two_numbers /\
  lessthan (rt := runtime 8000) this (-1) 5 two_numbers = Ok false two_numbers.
Proof.
  split; [reflexivity | ].
  apply (compare_none_index (rt := runtime 8000) this (-1) 5 two_numbers).
  right. reflexivity.
Defined.


Lemma state_ctor_failure_witness :
  state_ctor (rt := out_of_memory) this
  = Propagates bad_alloc {| valid := true; cobj := None |} /\
  state_ctor (rt := runtime 1) this
  = Propagates bad_alloc {| valid := false; cobj := None |} /\
  state_ctor (rt := runtime 2) this
  = Propagates bad_alloc {| valid := false; cobj := None |} /\
  state_ctor (rt := runtime 3) this
  = Propagates bad_alloc {| valid := false; cobj := None |} /\
  state_ctor (rt := broken_libraries) this
  = Propagates
      (lua_exception KException
         {| what := "cannot open library"; exc_L := this; exc_key := 1 |})
      {| valid := false; cobj := None |}.
Proof.
  split.
  { apply (proj1 (state_ctor_failure (rt := out_of_memory) this)). reflexivity. }
  split.
  { apply (proj1 (proj2 (state_ctor_failure (rt := runtime 1) this))
             (newstate 1) bad_alloc
             (default (newstate 1) (final (setup (rt := runtime 1) this (newstate 1)))));
      reflexivity. }
  split.
  { apply (proj1 (proj2 (state_ctor_failure (rt := runtime 2) this))
             (newstate 2) bad_alloc
             (default (newstate 2) (final (setup (rt := runtime 2) this (newstate 2)))));
      reflexivity. }
  split.
  { apply (proj1 (proj2 (state_ctor_failure (rt := runtime 3) this))
             (newstate 3) bad_alloc
             (default (newstate 3) (final (setup (rt := runtime 3) this (newstate 3)))));
      reflexivity. }
  apply (proj1 (proj2 (proj2 (state_ctor_failure (rt := broken_libraries) this)))
           (newstate 8000) LUA_ERRRUN
           (default (newstate 8000)
              (final (setup (rt := broken_libraries) this (newstate 8000))))
           (lua_exception KException
              {| what := "cannot open library"; exc_L := this; exc_key := 1 |})
           (default (newstate 8000)
              (final (panic_throw_body
                        (default (newstate 8000)
                           (final (setup (rt := broken_libraries) this
                                     (newstate 8000))))))));
    reflexivity.
Defined.

Lemma capture_ready_message (msg : string) :
  capture_ready (set_stack [VStr msg] L0).
Proof.
  exists (VStr msg), [], 7%N, ∅, None.
  split; [reflexivity | ]. split; [discriminate | ].
  split; [compute_le | ]. split; [reflexivity | ].
  split; reflexivity.
Defined.

Lemma chunk_loading_outcomes_witness :
  (exists e s',
     loadfile (rt := runtime 8000) this "missing.lua" L0
     = Throw (lua_exception KFileError e) s' /\
     exc_L e = this /\ what e = "cannot open missing.lua") /\
  (exists e s',
     loadstring (rt := runtime 8000) this "function ( end" 14 "chunk" L0
     = Throw (lua_exception KSyntaxError e) s' /\
     exc_L e = this /\ what e = "unexpected symbol near '('") /\
  thrown (loadstring (rt := runtime 8000) this "function ( end" 14 "chunk" one_slot_left)
  = Some bad_alloc.
Proof.
  pose proof (chunk_loading_outcomes (rt := runtime 8000) this
                "missing.lua" "function ( end" "chunk" 14 L0) as (Hfile & Hstring & _).
  split; [ | split].
  - destruct (Hfile LUA_ERRFILE (set_stack [VStr "cannot open missing.lua"] L0) eq_refl)
      as (_ & _ & H & _).
    destruct (H eq_refl (capture_ready_message _)) as (e & s' & Hthrow & HL & Hwhat).
    exists e, s'. split; [exact Hthrow | ]. split; [exact HL | ].
    now injection Hwhat.
  - destruct (Hstring LUA_ERRSYNTAX (set_stack [VStr "unexpected symbol near '('"] L0)
                eq_refl) as (_ & H & _).
    destruct (H eq_refl (capture_ready_message _)) as (e & s' & Hthrow & HL & Hwhat).
    exists e, s'. split; [exact Hthrow | ]. split; [exact HL | ].
    now injection Hwhat.
  - destruct (proj1 (proj2 (chunk_loading_outcomes (rt := runtime 8000) this
                              "missing.lua" "function ( end" "chunk" 14 one_slot_left))
                LUA_ERRSYNTAX
                (set_stack (VStr "unexpected symbol near '('" :: replicate (Z.to_nat 7999) VNil)
                   one_slot_left)
                eq_refl) as (_ & _ & Hfull & _).
    rewrite (Hfull eq_refl (VStr "unexpected symbol near '('")
               (replicate (Z.to_nat 7999) VNil) eq_refl).
    + reflexivity.
    + reflexivity.
Defined.

Lemma call_rethrows_host_exception_witness :
  (exists s',
     call (rt := runtime 8000) this 2 1 0 division_call
     = Throw (division_by_zero 10) s' /\ stack s' = []) /\
  (exists s',
     call (rt := runtime 8000) this 2 1 1 handled_division_call
     = Throw (division_by_zero 10) s' /\ stack s' = [VFun 9]).
Proof.
  split.
  - apply (proj1 (call_rethrows_host_exception (rt := runtime 8000) this 1 0
                    [VNum 0; VNum 10] 10 9 [] 0 (Some 5%N) (division_by_zero 10) 2 []
                    division_call
                    (set_upvalues [VUdata 9]
                       (set_pcalls 1 (set_stack [VNum 0; VNum 10] division_call)))
                    eq_refl eq_refl eq_refl eq_refl ltac:(compute_le) eq_refl
                    eq_refl eq_refl eq_refl ltac:(discriminate) ltac:(compute_le)
                    eq_refl)).
    compute_le.
  - apply (proj2 (call_rethrows_host_exception (rt := runtime 8000) this 1 1
                    [VNum 0; VNum 10] 11 10 [] 0 (Some 5%N) (division_by_zero 10) 2
                    [VFun 9] handled_division_call
                    (set_upvalues [VUdata 10]
                       (set_pcalls 1 (set_stack [VNum 0; VNum 10] handled_division_call)))
                    eq_refl eq_refl eq_refl eq_refl ltac:(compute_le) eq_refl
                    eq_refl eq_refl eq_refl ltac:(discriminate) ltac:(compute_le)
                    eq_refl)
             (set_stack [VUdata 12]
                (with_capture (division_by_zero 10) 2
                   (set_upvalues [VUdata 10]
                      (set_pcalls 1
                         (set_stack [VNum 0; VNum 10] handled_division_call)))))).
    + reflexivity.
    + reflexivity.
    + reflexivity.
    + compute_le.
    + reflexivity.
Defined.

(** C1 as stated fails: host callable 1 throws a [lua::syntax_error]
    inside the protected call, and what [state::call] raises at the call
    site is a [lua::exception] of the base class, another object. *)
Lemma call_replaces_lua_exception :
  ~ rethrown_intact (rt := runtime 8000) this 1 0 0 malformed_call.
Proof.
  intros H.
  specialize (H (set_upvalues [VUdata 9] (set_pcalls 1 (set_stack [] malformed_call)))
                (lua_exception KSyntaxError
                   {| what := "unexpected symbol near '('"; exc_L := this; exc_key := 1 |})
                eq_refl eq_refl).
  vm_compute in H. discriminate H.
Qed.

(** What arrives in its place. *)
Lemma base_class_arrives_instead :
  thrown (call (rt := runtime 8000) this 0 0 0 malformed_call)
  = Some (lua_exception KException
            {| what := "unexpected symbol near '('"; exc_L := this; exc_key := 1 |}).
Proof. vm_compute; reflexivity. Qed.

(** A message handler that does not hand the error value back takes the
    exception of the callable away: with [function () end] as handler the
    division by zero arrives as a [lua::exception] made of nil. *)
Lemma handler_replaces_host_exception :
  thrown (call (rt := runtime 8000) this 2 1 1 muted_division_call)
  = Some (lua_exception KException
            {| what := "Unknown lua exception"; exc_L := this; exc_key := 1 |}).
Proof. vm_compute; reflexivity. Qed.

(** C7 as stated fails: with one free slot the message of a malformed
    chunk fills the stack, and the constructor of the exception that
    should carry it throws [std::bad_alloc]. *)
Lemma malformed_chunk_out_of_memory :
  ~ outcomes_classified (rt := runtime 8000) this "missing.lua" "function ( end" 14
      "chunk" one_slot_left.
Proof.
  intros [_ H].
  destruct (H LUA_ERRSYNTAX
              (set_stack (VStr "unexpected symbol near '('" :: replicate (Z.to_nat 7999) VNil)
                 one_slot_left)
              eq_refl) as (_ & Hsyntax & _).
  destruct (Hsyntax eq_refl) as [e He].
  vm_compute in He. discriminate He.
Qed.

(** ** The further properties at concrete inputs *)

Import MoreExamples.

Lemma absindex_keeps_the_slot_witness :
  exists i,
    absindex (-2) table_and_seven = Ok i table_and_seven /\
    (0 < i \/ i <= LUA_REGISTRYINDEX) /\
    index2adr (set_stack ([VNil; VNil] ++ stack table_and_seven) table_and_seven) i
    = Some (VTable 9).
Proof.
  apply (absindex_keeps_the_slot (-2) (VTable 9) [VNil; VNil] table_and_seven).
  - reflexivity.
  - reflexivity.
Defined.

Lemma raw_field_round_trip_witness :
  exists s',
    (rawsetfield (-2) "x" ;; rawgetfield (-1) "x") table_and_seven = Ok tt s' /\
    stack s' = (if decide ("x" = "x") then VNum 7 else table_get ∅ (VStr "x"))
               :: [VTable 9].
Proof.
  apply (raw_field_round_trip (-2) (-1) "x" "x" (VNum 7) [VTable 9] 9 ∅ None
           table_and_seven).
  - reflexivity.
  - reflexivity.
  - vm_compute. discriminate.
  - reflexivity.
  - reflexivity.
  - compute_le.
  - reflexivity.
Defined.

Lemma raw_field_out_of_memory_witness :
  rawsetfield (-2) "x" (set_limit 3 table_and_seven)
  = Throw bad_alloc (set_limit 3 table_and_seven) /\
  rawgetfield (-2) "x" (set_limit 3 table_and_seven)
  = Ok tt (set_stack (table_get ∅ (VStr "x") :: stack table_and_seven)
             (set_limit 3 table_and_seven)).
Proof.
  apply (raw_field_out_of_memory (-2) "x" 9 ∅ None (set_limit 3 table_and_seven)).
  - reflexivity.
  - reflexivity.
  - reflexivity.
  - reflexivity.
Defined.

Lemma setup_installs_the_bridge_witness :
  exists s1,
    setup (rt := runtime 100) this (newstate 100) = openlibs s1 /\
    stack s1 = [] /\
    panic s1 = Some panic_throw /\
    registry_field s1 this_cpp_object = Some (VLight this) /\
    registry_field s1 cpp_exception_metatable = Some (VTable 2).
Proof.
  destruct (setup_installs_the_bridge (rt := runtime 100) this (newstate 100) ∅ None)
    as (s1 & Hsetup & Hstack & Hpanic & Hthis & Hmt & _).
  - reflexivity.
  - reflexivity.
  - reflexivity.
  - reflexivity.
  - reflexivity.
  - compute_le.
  - reflexivity.
  - exists s1. split; [exact Hsetup | ]. split; [exact Hstack | ].
    split; [exact Hpanic | ]. split; [exact Hthis | exact Hmt].
Defined.

Lemma panic_throw_raises_witness :
  panic_throw_body (set_limit 1 (set_stack [VStr "boom"] L0))
  = Throw bad_alloc (set_limit 1 (set_stack [VStr "boom"] L0)) /\
  thrown (panic_throw_body (set_stack [VStr "boom"] L0))
  = Some (lua_exception KException {| what := "boom"; exc_L := this; exc_key := 1 |}).
Proof.
  split.
  - apply (proj1 (proj2 (panic_throw_raises
                           (set_limit 1 (set_stack [VStr "boom"] L0))))).
    reflexivity.
  - rewrite (proj2 (proj2 (panic_throw_raises
                             (set_stack [VStr "boom"] L0)))
               this (VStr "boom") [] 7%N ∅ None).
    + reflexivity.
    + reflexivity.
    + discriminate.
    + compute_le.
    + reflexivity.
    + reflexivity.
    + reflexivity.
    + reflexivity.
Defined.

Lemma pushclosure_layout_witness :
  exists s',
    pushclosure 0 1 (set_stack [VNum 7] L0) = Ok tt s' /\
    stack s' = [VFun 10] /\
    heap s' !! 10%N = Some (OCClosure closure_trampoline [VUdata 9; VNum 7]) /\
    heap s' !! 9%N = Some (OUdata (BCppFunction 0) (Some 5%N)).
Proof.
  destruct (pushclosure_layout 0 [VNum 7] [] 5 (set_stack [VNum 7] L0))
    as (s' & Hpush & Hstack & Hclosure & Hrecord & _).
  - reflexivity.
  - compute_le.
  - reflexivity.
  - reflexivity.
  - discriminate.
  - exists s'. split; [exact Hpush | ]. split; [exact Hstack | ].
    split; [exact Hclosure | exact Hrecord].
Defined.

Lemma call_delivers_results_witness :
  exists s',
    call (rt := runtime 8000) this 2 1 0 quotient_call = Ok tt s' /\
    stack s' = [VNum 5].
Proof.
  destruct (call_delivers_results (rt := runtime 8000) this 1 [VNum 2; VNum 10] 10 9 []
              0 (Some 5%N) 1 [] quotient_call
              (set_stack [VNum 5; VNum 2; VNum 10]
                 (set_upvalues [VUdata 9]
                    (set_pcalls 1 (set_stack [VNum 2; VNum 10] quotient_call)))))
    as (s' & Hcall & Hstack & _).
  - reflexivity.
  - reflexivity.
  - reflexivity.
  - reflexivity.
  - compute_le.
  - reflexivity.
  - reflexivity.
  - split; compute_le.
  - exists s'. split; [exact Hcall | exact Hstack].
Defined.

Lemma closure_trampoline_reinjects_witness :
  (stack <$> final (closure_trampoline_body (rt := runtime 8000)
                      (set_upvalues [VUdata 9]
                         (set_pcalls 1 (set_stack [] malformed_call)))))
  = Some [VStr "unexpected symbol near '('"].
Proof.
  rewrite (proj2 (closure_trampoline_reinjects (rt := runtime 8000) this 1 9 [] (Some 5%N)
                    KSyntaxError
                    {| what := "unexpected symbol near '('"; exc_L := this; exc_key := 1 |}
                    (set_upvalues [VUdata 9] (set_pcalls 1 (set_stack [] malformed_call)))
                    (set_heap
                       (<[7%N := OTable (<[VNum 1 := VStr "unexpected symbol near '('"]> ∅)
                                  None]> (heap malformed_call))
                       (set_upvalues [VUdata 9]
                          (set_pcalls 1 (set_stack [] malformed_call))))
                    eq_refl eq_refl eq_refl ltac:(compute_le) eq_refl eq_refl)
             7%N (<[VNum 1 := VStr "unexpected symbol near '('"]> ∅) None).
  - reflexivity.
  - reflexivity.
  - compute_le.
  - compute_le.
  - reflexivity.
  - reflexivity.
  - reflexivity.
Defined.

Lemma exception_slot_is_recycled_witness :
  exists e s' tb',
    (let* e := exception_ctor this in exception_dtor e true ;; ret e)
      (set_stack [VStr "boom"] L0) = Ok e s' /\
    exc_key e = 1 /\
    stack s' = [] /\
    heap s' !! 7%N = Some (OTable tb' None) /\
    ref_slot tb' = 1.
Proof.
  destruct (exception_slot_is_recycled this (VStr "boom") [] 7 ∅ None
              (set_stack [VStr "boom"] L0))
    as (e & s' & tb' & Hrun & Hkey & Hstack & Hheap & _ & Hnext).
  - reflexivity.
  - discriminate.
  - compute_le.
  - reflexivity.
  - reflexivity.
  - reflexivity.
  - discriminate.
  - compute_le.
  - exists e, s', tb'. split; [exact Hrun | ]. split; [exact Hkey | ].
    split; [exact Hstack | ]. split; [exact Hheap | ].
    rewrite Hnext. exact Hkey.
Defined.

Lemma exception_of_nil_witness :
  let e := {| what := default_msg; exc_L := this; exc_key := LUA_REFNIL |} in
  exception_ctor this (set_stack [VNil] L0) = Ok e (set_stack [] (set_stack [VNil] L0)) /\
  exception_dtor e true (set_stack [] (set_stack [VNil] L0))
  = Ok tt (set_stack [] (set_stack [VNil] L0)) /\
  push_lua_error e this (set_stack [] (set_stack [VNil] L0))
  = Ok tt (set_stack (table_get ∅ (VNum LUA_REFNIL) :: []) (set_stack [VNil] L0)).
Proof.
  apply (exception_of_nil this [] 7 ∅ None (set_stack [VNil] L0)).
  - reflexivity.
  - compute_le.
  - reflexivity.
  - reflexivity.
  - reflexivity.
Defined.

Lemma exception_round_trip_witness :
  exists s',
    (let* e := exception_ctor this in push_lua_error e this) (set_stack [VNum 42] L0)
    = Ok tt s' /\
    stack s' = [VStr "42"].
Proof.
  apply (exception_round_trip this (VNum 42) [] 7 ∅ None (set_stack [VNum 42] L0)).
  - reflexivity.
  - discriminate.
  - compute_le.
  - reflexivity.
  - reflexivity.
  - reflexivity.
  - discriminate.
Defined.

Lemma call_raises_witness :
  exists e s',
    call (rt := runtime 8000) this 0 0 0 failing_function
    = Throw (lua_exception KException e) s' /\
    what e = "boom" /\
    exc_L e = this /\
    stack s' = [] /\
    captured_value s' e = Some (VStr "boom").
Proof.
  destruct (call_raises (rt := runtime 8000) this 0 [] (VFun 9) [] [] (VStr "boom")
              8 2 7 ∅ None failing_function
              (set_stack [VStr "boom"] (set_pcalls 1 failing_function)))
    as (e & s' & Hcall & Hwhat & Howner & Hstack & _ & Hvalue).
  - reflexivity.
  - reflexivity.
  - reflexivity.
  - reflexivity.
  - discriminate.
  - discriminate.
  - compute_le.
  - reflexivity.
  - reflexivity.
  - reflexivity.
  - reflexivity.
  - discriminate.
  - exists e, s'. split; [exact Hcall | ]. split; [exact Hwhat | ].
    split; [exact Howner | ]. split; [exact Hstack | exact Hvalue].
Defined.

Lemma gc_protected_witness :
  gc (rt := runtime 8000) this 0 0 L0
  = Ok 0 (leave L0 (stack L0) (trampoline_frame safe_gc_trampoline [] L0)).
Proof.
  apply (gc_protected (rt := runtime 8000) this 0 0 0 L0
           (trampoline_frame safe_gc_trampoline [] L0)).
  - compute_le.
  - reflexivity.
  - reflexivity.
Defined.

Lemma getfield_protected_witness :
  getfield (rt := runtime 8000) this (-2) "x" (set_limit 3 table_and_seven)
  = Throw bad_alloc
      (set_stack (VStr "x" :: stack table_and_seven) (set_limit 3 table_and_seven)) /\
  (stack <$> final (getfield (rt := runtime 8000) this (-2) "x" table_and_seven))
  = Some [VNil; VNum 7; VTable 9].
Proof.
  split.
  - apply (proj1 (getfield_protected (rt := runtime 8000) this (-2) "x" (VTable 9)
                    (set_limit 3 table_and_seven) table_and_seven eq_refl eq_refl)).
    + compute_le.
    + reflexivity.
  - rewrite (proj2 (getfield_protected (rt := runtime 8000) this (-2) "x" (VTable 9)
                      table_and_seven
                      (set_stack [VNil; VTable 9]
                         (trampoline_frame (safe_misc_trampoline lua_gettable_op 1)
                            [VStr "x"; VTable 9] table_and_seven))
                      eq_refl eq_refl)).
    + reflexivity.
    + compute_le.
    + reflexivity.
    + compute_le.
Defined.

Lemma setfield_protected_witness :
  setfield (rt := runtime 8000) this (-2) "x" (set_limit 3 table_and_seven)
  = Throw bad_alloc
      (set_stack [VNum 7; VStr "x"; VTable 9] (set_limit 3 table_and_seven)) /\
  (s ← final (setfield (rt := runtime 8000) this (-2) "x" table_and_seven);
   Some (stack s, heap s !! 9%N))
  = Some ([VTable 9], Some (OTable (<[VStr "x" := VNum 7]> ∅) None)).
Proof.
  split.
  - apply (proj1 (setfield_protected (rt := runtime 8000) this (-2) "x" (VTable 9)
                    (VNum 7) [VTable 9] (set_limit 3 table_and_seven) table_and_seven
                    eq_refl eq_refl ltac:(vm_compute; discriminate) eq_refl)).
    + compute_le.
    + reflexivity.
  - rewrite (proj2 (setfield_protected (rt := runtime 8000) this (-2) "x" (VTable 9)
                      (VNum 7) [VTable 9] table_and_seven
                      (set_heap (<[9%N := OTable (<[VStr "x" := VNum 7]> ∅) None]>
                                   (heap (trampoline_frame
                                            (safe_misc_trampoline lua_settable_op 0)
                                            [] table_and_seven)))
                         (trampoline_frame (safe_misc_trampoline lua_settable_op 0)
                            [VTable 9] table_and_seven))
                      eq_refl eq_refl ltac:(vm_compute; discriminate) eq_refl)).
    + reflexivity.
    + compute_le.
    + reflexivity.
Defined.

Lemma next_protected_witness :
  (returned (next (rt := runtime 8000) this (-2)
               (set_stack [VNil; VTable 9] table_with_x)),
   stack <$> final (next (rt := runtime 8000) this (-2)
                      (set_stack [VNil; VTable 9] table_with_x)))
  = (Some true, Some [VNum 7; VStr "x"; VTable 9]) /\
  (returned (next (rt := runtime 8000) this (-2)
               (set_stack [VStr "x"; VTable 9] table_with_x)),
   stack <$> final (next (rt := runtime 8000) this (-2)
                      (set_stack [VStr "x"; VTable 9] table_with_x)))
  = (Some false, Some [VTable 9]).
Proof.
  split.
  - rewrite (next_protected (rt := runtime 8000) this (-2) 1 (VTable 9) VNil [VTable 9]
               (set_stack [VNil; VTable 9] table_with_x)
               (set_stack [VNum 7; VStr "x"; VTable 9]
                  (trampoline_frame safe_next_trampoline []
                     (set_stack [VNil; VTable 9] table_with_x)))).
    + reflexivity.
    + reflexivity.
    + reflexivity.
    + compute_le.
    + reflexivity.
    + reflexivity.
    + intros _. compute_le.
  - rewrite (next_protected (rt := runtime 8000) this (-2) 0 (VTable 9) (VStr "x")
               [VTable 9]
               (set_stack [VStr "x"; VTable 9] table_with_x)
               (set_stack [VTable 9]
                  (trampoline_frame safe_next_trampoline []
                     (set_stack [VStr "x"; VTable 9] table_with_x)))).
    + reflexivity.
    + reflexivity.
    + reflexivity.
    + compute_le.
    + reflexivity.
    + reflexivity.
    + intros H. now contradiction H.
Defined.

Lemma concat_protected_witness :
  (stack <$> final (concat (rt := runtime 8000) this 2
                      (set_stack [VStr "b"; VStr "a"] L0)))
  = Some [VStr "ab"] /\
  thrown (concat (rt := runtime 8000) this 2
            (set_stack [VStr "b"; VTable 9] table_with_x))
  = Some (lua_exception KException
            {| what := "attempt to concatenate a table value";
               exc_L := this; exc_key := 1 |}).
Proof.
  change 2 with (Z.of_nat (length [VStr "b"; VStr "a"])) at 1.
  change 2 with (Z.of_nat (length [VStr "b"; VTable 9])).
  split.
  - rewrite (proj1 (concat_protected (rt := runtime 8000) this [VStr "b"; VStr "a"] []
                      (set_stack [VStr "b"; VStr "a"] L0)
                      eq_refl ltac:(compute_le) eq_refl)
               (set_stack [VStr "ab"]
                  (trampoline_frame safe_concat_trampoline []
                     (set_stack [VStr "b"; VStr "a"] L0)))).
    + reflexivity.
    + reflexivity.
    + compute_le.
  - rewrite (proj2 (concat_protected (rt := runtime 8000) this [VStr "b"; VTable 9] []
                      (set_stack [VStr "b"; VTable 9] table_with_x)
                      eq_refl ltac:(compute_le) eq_refl)
               (set_stack [VStr "attempt to concatenate a table value";
                           VStr "b"; VTable 9]
                  (trampoline_frame safe_concat_trampoline []
                     (set_stack [VStr "b"; VTable 9] table_with_x)))
               (VStr "attempt to concatenate a table value") [VStr "b"; VTable 9]
               8%N 2%N 7%N ∅ None).
    + reflexivity.
    + reflexivity.
    + reflexivity.
    + reflexivity.
    + discriminate.
    + discriminate.
    + compute_le.
    + reflexivity.
    + reflexivity.
    + reflexivity.
    + reflexivity.
Defined.

Lemma lessthan_protected_witness :
  lessthan (rt := runtime 8000) this 1 2 two_numbers
  = Ok true
      (leave two_numbers (stack two_numbers)
         (trampoline_frame (safe_compare_trampoline lua_lessthan_op)
            [VNum 2; VNum 1] two_numbers)).
Proof.
  apply (proj1 (lessthan_protected (rt := runtime 8000) this 1 2 (VNum 1) (VNum 2)
                  two_numbers eq_refl eq_refl ltac:(compute_le) eq_refl)
           1 (trampoline_frame (safe_compare_trampoline lua_lessthan_op)
                [VNum 2; VNum 1] two_numbers)).
  - reflexivity.
  - compute_le.
Defined.

Lemma wrappers_check_capacity_witness :
  concat (rt := runtime 8000) this 0 (set_limit 0 L0) = Throw bad_alloc (set_limit 0 L0) /\
  pushclosure 0 0 (set_limit 1 L0) = Throw bad_alloc (set_limit 1 L0).
Proof.
  destruct (wrappers_check_capacity (rt := runtime 8000) this (set_limit 0 L0))
    as (Hconcat & _).
  destruct (wrappers_check_capacity (rt := runtime 8000) this (set_limit 1 L0))
    as (_ & _ & _ & _ & _ & _ & _ & Hclosure & _).
  split.
  - apply Hconcat; [compute_le | reflexivity].
  - apply Hclosure. reflexivity.
Defined.

Lemma tostring_leaves_a_string_witness :
  index2adr (set_stack [VStr "42"] L0) (-1) = Some (VStr "42") /\
  tostring (-1) (set_stack [VStr "42"] L0) = Ok "42" (set_stack [VStr "42"] L0).
Proof.
  destruct (tostring_leaves_a_string (-1) "42" (set_stack [VNum 42] L0)
              (set_stack [VStr "42"] L0)) as (Hslot & Hagain & _).
  - reflexivity.
  - reflexivity.
  - split; [exact Hslot | exact Hagain].
Defined.
